(** * clippy: the crawl orchestration core, embedded in Rocq

    The development follows the TypeScript sources:
    - [Detector]  : src/engine/detector.ts  (isBlocked, needsBrowser)
    - [Waterfall] : src/engine/index.ts     (EngineWaterfall)
    - [Robots]    : src/crawler/robots.ts   (RobotsParser)
    - [Sitemap]   : src/crawler/sitemap.ts  (SitemapParser)
    - [Dedup]     : src/utils/dedup.ts      (extractLocale, DedupTracker)
    - [UrlUtil]   : src/utils/url.ts        (normalizeUrl, getBaseDomain, shouldSkipUrl)
    - [Crawler]   : src/crawler/index.ts    (Crawler)
    - [Clippy]    : src/index.ts            (isSpecificPage, the crawler options of clippy)
    - [Links]     : src/extractor/links.ts  (extractLinks), src/utils/url.ts (resolveUrl)
    - [Ui]        : src/utils/ui.ts         (truncateUrl)
    - [Similarity]: src/utils/dedup.ts      (calculateSimilarity)

    Conventions.  A JavaScript string is a [string]: a sequence of 8-bit code
    units (URLs, robots.txt directives and the marker literals of the block
    detector are ASCII); letter case and white space are those of ASCII.  A
    count (a number of pages, a depth, a word count, an HTTP status) is a
    [nat], a length or a duration in milliseconds an [N], a confidence a [Q].
    A function that may throw returns a [result].
    A [Map] is a [gmap], a [Set] a [gset].  What the JavaScript runtime
    provides (the WHATWG [URL] class, [parseFloat]) is a [Platform]; what the
    network, the fetch engines and the XML library answer is supplied by the
    environment, either as an argument or by threading a world. *)

From Stdlib Require Import String Ascii List ZArith QArith Lia Bool.
From stdpp Require Import gmap strings pretty.

(** ** Exceptions *)

Inductive result (A : Type) : Type :=
| Returns (a : A)
| Throws.
Arguments Returns {A} a.
Arguments Throws {A}.

(** ** JavaScript string operations *)

Module Str.

Definition isUpper (c : ascii) : bool :=
  let n := N_of_ascii c in ((65 <=? n) && (n <=? 90))%N.

Definition isLower (c : ascii) : bool :=
  let n := N_of_ascii c in ((97 <=? n) && (n <=? 122))%N.

(** [[a-z]] under the [i] flag. *)
Definition isLetter (c : ascii) : bool := isUpper c || isLower c.

Definition lowerChar (c : ascii) : ascii :=
  if isUpper c then ascii_of_N (N_of_ascii c + 32) else c.

Fixpoint toLowerCase (s : string) : string :=
  match s with
  | EmptyString => EmptyString
  | String c s' => String (lowerChar c) (toLowerCase s')
  end.

(** [s.startsWith(p)] *)
Fixpoint startsWith (s p : string) : bool :=
  match p, s with
  | EmptyString, _ => true
  | String a p', String b s' => Ascii.eqb a b && startsWith s' p'
  | String _ _, EmptyString => false
  end.

(** [s.includes(needle)] *)
Fixpoint includes (s needle : string) : bool :=
  startsWith s needle ||
  match s with
  | EmptyString => false
  | String _ s' => includes s' needle
  end.

(** [s.endsWith(suffix)] *)
Definition endsWith (s suffix : string) : bool :=
  startsWith (String.rev s) (String.rev suffix).

Fixpoint drop (n : nat) (s : string) : string :=
  match n, s with
  | O, _ => s
  | S n', String _ s' => drop n' s'
  | S _, EmptyString => EmptyString
  end.

Fixpoint take (n : nat) (s : string) : string :=
  match n, s with
  | S n', String c s' => String c (take n' s')
  | _, _ => EmptyString
  end.

(** [s.slice(0, -1)] *)
Definition dropLast (s : string) : string :=
  String.rev (drop 1 (String.rev s)).

Fixpoint trimStart (s : string) : string :=
  match s with
  | EmptyString => EmptyString
  | String c s' => if Ascii.is_space c then trimStart s' else s
  end.

(** [s.trim()] *)
Definition trim (s : string) : string :=
  String.rev (trimStart (String.rev (trimStart s))).

(** [s.indexOf(c)], [None] for -1. *)
Fixpoint indexOf (s : string) (c : ascii) : option nat :=
  match s with
  | EmptyString => None
  | String d s' => if Ascii.eqb d c then Some 0 else S <$> indexOf s' c
  end.

Fixpoint split_go (isSep : ascii → bool) (cur : string) (s : string)
  : list string :=
  match s with
  | EmptyString => [String.rev cur]
  | String c s' =>
      if isSep c then String.rev cur :: split_go isSep EmptyString s'
      else split_go isSep (String c cur) s'
  end.

(** [s.split(sep)] for a one-character separator. *)
Definition split (sep : ascii) (s : string) : list string :=
  split_go (Ascii.eqb sep) EmptyString s.

(** [s.split(/[...]/)] for a class of one-character separators. *)
Definition splitBy (isSep : ascii → bool) (s : string) : list string :=
  split_go isSep EmptyString s.

(** [s.replace(needle, empty)]: the first occurrence only. *)
Fixpoint removeFirst (s needle : string) : string :=
  if startsWith s needle then drop (String.length needle) s
  else match s with
       | EmptyString => EmptyString
       | String c s' => String c (removeFirst s' needle)
       end.

(** [s.length] *)
Definition length (s : string) : N := N.of_nat (String.length s).

(** The string made of [n] copies of [c]. *)
Fixpoint replicate (n : nat) (c : ascii) : string :=
  match n with
  | O => EmptyString
  | S n' => String c (replicate n' c)
  end.

End Str.

(** ** The regular expressions the sources build

    Every [RegExp] of the modelled files is a sequence of literal characters
    and [.*], optionally case-insensitive, optionally anchored at the end. *)

Module Re.

Inductive atom : Type :=
| Chr (c : ascii)      (* a literal character *)
| AnyStar.             (* [.*] *)

Definition LF : ascii := ascii_of_N 10.
Definition CR : ascii := ascii_of_N 13.

(** [.] matches every character but a line terminator. *)
Definition dot (c : ascii) : bool :=
  negb (Ascii.eqb c LF || Ascii.eqb c CR).

Definition eqChar (ci : bool) (c d : ascii) : bool :=
  if ci then Ascii.eqb (Str.lowerChar c) (Str.lowerChar d) else Ascii.eqb c d.

(** Does [re] (followed by [$] when [toEnd]) match at the head of [s]? *)
Fixpoint matchHere (ci toEnd : bool) (re : list atom) (s : string) : bool :=
  match re with
  | [] => if toEnd then bool_decide (s = EmptyString) else true
  | Chr c :: re' =>
      match s with
      | EmptyString => false
      | String d s' => eqChar ci c d && matchHere ci toEnd re' s'
      end
  | AnyStar :: re' =>
      (fix star (s : string) : bool :=
         matchHere ci toEnd re' s ||
         match s with
         | EmptyString => false
         | String d s' => dot d && star s'
         end) s
  end.

(** [new RegExp(re).test(s)]: a match at some position. *)
Fixpoint test (ci : bool) (re : list atom) (s : string) : bool :=
  matchHere ci false re s ||
  match s with
  | EmptyString => false
  | String _ s' => test ci re s'
  end.

(** The literal [s] as a regular expression. *)
Fixpoint lit (s : string) : list atom :=
  match s with
  | EmptyString => []
  | String c s' => Chr c :: lit s'
  end.

End Re.

(** ** What the runtime provides *)

(** The fields of a parsed WHATWG [URL] the sources read. *)
Record URL : Type := {
  origin : string;
  hostname : string;
  pathname : string;
  search : string;                          (* empty, or "?..." *)
  searchParams : list (string * string)
}.

Class Platform : Type := {
  (** [new URL(s)], [None] when it throws *)
  url_parse : string → option URL;
  (** [URLSearchParams.prototype.toString] *)
  params_toString : list (string * string) → string;
  (** [parseFloat], [None] for NaN *)
  parseFloat : string → option Q
}.

(** [searchParams.get(k)] *)
Fixpoint params_get (ps : list (string * string)) (k : string) : option string :=
  match ps with
  | [] => None
  | (k', v) :: ps' => if bool_decide (k' = k) then Some v else params_get ps' k
  end.

(** [searchParams.delete(k)] for each [k] of [ks] *)
Definition params_delete (ks : list string) (ps : list (string * string))
  : list (string * string) :=
  filter (λ kv, kv.1 ∉ ks) ps.

(** The outcome of one [fetch(url)] followed by [response.text()]. *)
Inductive HttpOutcome : Type :=
| NetworkError                                   (* fetch rejects (also on timeout) *)
| Response (ok : bool) (body : result string).   (* [Throws]: text() rejects *)

(** ** Block detection (src/engine/detector.ts) *)

Module Detector.

Inductive BlockReason : Type :=
| cloudflare | datadome | captcha | rate_limit | forbidden
| empty_body | javascript_required | access_denied.

Record BlockCheck : Type := {
  blocked : bool;
  reason : option BlockReason;
  confidence : Q
}.

(** A pattern of the marker tables: [/.../] or [/.../i]. *)
Record pattern : Type := { re : list Re.atom; ignoreCase : bool }.

Definition cs (s : string) : pattern := {| re := Re.lit s; ignoreCase := false |}.
Definition ci (s : string) : pattern := {| re := Re.lit s; ignoreCase := true |}.

(** [p.test(html)] *)
Definition test (html : string) (p : pattern) : bool :=
  Re.test (ignoreCase p) (re p) html.

Definition CLOUDFLARE_PATTERNS : list pattern :=
  [ ci "Checking your browser"; ci "cf-browser-verification"; ci "cloudflare";
    cs "_cf_chl_opt"; ci "challenge-platform"; ci "Just a moment...";
    ci "ray id:"; ci "cf-turnstile" ].

Definition DATADOME_PATTERNS : list pattern :=
  [ ci "datadome"; cs "dd.js"; cs "captcha-delivery.com";
    cs "geo.captcha-delivery.com" ].

Definition PERIMETERX_PATTERNS : list pattern :=
  [ ci "perimeterx"; ci "px-captcha"; cs "_pxhd"; ci "human challenge" ].

Definition AKAMAI_PATTERNS : list pattern :=
  [ ci "akamai"; cs "ak_bmsc"; cs "_abck" ].

Definition BOT_DETECTION_PATTERNS : list pattern :=
  [ ci "access denied"; ci "please verify you are human"; ci "enable javascript";
    {| re := Re.lit "browser" ++ [Re.AnyStar] ++ Re.lit "not supported";
       ignoreCase := true |};
    ci "automated access"; ci "bot detected";
    ci "please complete the security check"; ci "unusual traffic";
    ci "blocked"; ci "forbidden"; ci "not allowed" ].

Definition CAPTCHA_PATTERNS : list pattern :=
  [ ci "recaptcha"; ci "hcaptcha"; cs "g-recaptcha"; cs "h-captcha";
    ci "captcha"; ci "turnstile" ].

(** [PATTERNS.some((p) => p.test(html))] *)
Definition some (ps : list pattern) (html : string) : bool :=
  existsb (test html) ps.

(** [PATTERNS.filter((p) => p.test(html)).length] *)
Definition matches (ps : list pattern) (html : string) : nat :=
  length (filter (λ p, test html p = true) ps).

Definition block (r : BlockReason) (c : Q) : BlockCheck :=
  {| blocked := true; reason := Some r; confidence := c |}.

Definition isBlocked (html : string) (statusCode : nat) (_url : string)
  : BlockCheck :=
  let len := Str.length html in
  let isEmpty := bool_decide (html = EmptyString) in
  if bool_decide (statusCode = 403) then block forbidden 0.9
  else if bool_decide (statusCode = 429) then block rate_limit 0.95
  else if bool_decide (statusCode = 503) && some CLOUDFLARE_PATTERNS html
    then block cloudflare 0.95
  else if (isEmpty || (len <? 500)%N) &&
          (negb isEmpty &&
           (Str.includes html "challenge" || Str.includes html "captcha"))
    then block empty_body 0.7
  else if 2 <=? matches CLOUDFLARE_PATTERNS html
    then block cloudflare 0.9
  else if (2 <=? matches DATADOME_PATTERNS html) && (len <? 50000)%N
    then block datadome 0.9
  else if some PERIMETERX_PATTERNS html && (len <? 50000)%N
    then block access_denied 0.85
  else if (2 <=? matches AKAMAI_PATTERNS html) && (len <? 50000)%N
    then block access_denied 0.8
  else if (2 <=? matches CAPTCHA_PATTERNS html) && (len <? 10000)%N
    then block captcha 0.85
  else if some BOT_DETECTION_PATTERNS html && (len <? 3000)%N
    then block access_denied 0.7
  else if Str.includes html "noscript" &&
          (Str.includes html "enable javascript" ||
           Str.includes html "JavaScript is required") &&
          negb (Str.includes html "<article") &&
          negb (Str.includes html "<main") &&
          (len <? 5000)%N
    then block javascript_required 0.6
  else {| blocked := false; reason := None; confidence := 0 |}.

Definition KNOWN_PROTECTED_DOMAINS : list string :=
  [ "linkedin.com"; "instagram.com"; "facebook.com"; "twitter.com"; "x.com";
    "tiktok.com"; "indeed.com"; "glassdoor.com"; "zillow.com"; "yelp.com" ].

Definition needsBrowser {P : Platform} (url : string) : bool :=
  match url_parse url with
  | None => false
  | Some u =>
      let host := Str.removeFirst (hostname u) "www." in
      bool_decide (host ∈ KNOWN_PROTECTED_DOMAINS) ||
      existsb (λ domain, Str.endsWith host ("." +:+ domain))
              KNOWN_PROTECTED_DOMAINS
  end.

End Detector.


(** ** The engine waterfall (src/engine/index.ts) *)

Module Waterfall.

Inductive EngineName : Type := Fetch | Playwright | Rebrowser.

Global Instance EngineName_eq_dec : EqDecision EngineName.
Proof. solve_decision. Defined.

(** What [engine.fetch(url, options)] resolves to. *)
Record RawResult : Type := {
  raw_html : string;
  raw_statusCode : nat;
  raw_finalUrl : string
}.

Record EngineResult : Type := {
  html : string;
  statusCode : nat;
  engine : EngineName;
  blocked : bool;
  blockReason : option Detector.BlockReason;
  finalUrl : string
}.

Record EngineOptions : Type := {
  timeout : option N;
  userAgent : option string;
  headers : list (string * string);
  forceEngine : option EngineName;
  authStatePath : option string
}.

Record EngineStats : Type := {
  fetchCount : nat;             (* stats.fetch *)
  playwrightCount : nat;        (* stats.playwright *)
  rebrowserCount : nat;         (* stats.rebrowser *)
  blockedCount : nat            (* stats.blocked *)
}.

Record EngineConfig : Type := { name : EngineName; defaultTimeout : N }.

(** Engine priority order *)
Definition ENGINES : list EngineConfig :=
  [ {| name := Fetch; defaultTimeout := 5000 |};
    {| name := Playwright; defaultTimeout := 15000 |};
    {| name := Rebrowser; defaultTimeout := 30000 |} ].

(** The waterfall object.  [invoked] is a ghost field: the engines whose
    [fetch] method has been called, in call order. *)
Record State : Type := {
  engines : list EngineName;
  stats : EngineStats;
  browserInstallPromise : option bool;
  invoked : list EngineName
}.

Definition initial : State :=
  {| engines := [];
     stats := {| fetchCount := 0; playwrightCount := 0; rebrowserCount := 0;
                 blockedCount := 0 |};
     browserInstallPromise := None;
     invoked := [] |}.

(** [this.stats[name]++] *)
Definition bump (n : EngineName) (s : EngineStats) : EngineStats :=
  match n with
  | Fetch => {| fetchCount := S (fetchCount s); playwrightCount := playwrightCount s;
                rebrowserCount := rebrowserCount s; blockedCount := blockedCount s |}
  | Playwright => {| fetchCount := fetchCount s; playwrightCount := S (playwrightCount s);
                rebrowserCount := rebrowserCount s; blockedCount := blockedCount s |}
  | Rebrowser => {| fetchCount := fetchCount s; playwrightCount := playwrightCount s;
                rebrowserCount := S (rebrowserCount s); blockedCount := blockedCount s |}
  end.

(** [this.stats.blocked++] *)
Definition bumpBlocked (s : EngineStats) : EngineStats :=
  {| fetchCount := fetchCount s; playwrightCount := playwrightCount s;
     rebrowserCount := rebrowserCount s; blockedCount := S (blockedCount s) |}.

Definition withTimeout (o : EngineOptions) (t : option N) : EngineOptions :=
  {| timeout := t; userAgent := userAgent o; headers := headers o;
     forceEngine := forceEngine o; authStatePath := authStatePath o |}.

(** [options.timeout || engineConfig.timeout] *)
Definition timeoutOr (o : EngineOptions) (d : N) : N :=
  match timeout o with
  | Some (Npos t) => Npos t
  | Some N0 | None => d
  end.

(** The block detector on what an engine answered. *)
Definition classifiedBlocked (url : string) (raw : RawResult) : bool :=
  Detector.blocked
    (Detector.isBlocked (raw_html raw) (raw_statusCode raw) url).

Section WithWorld.
Context {P : Platform} {World : Type}.

(** The three engines and the browser runtime, acting on the world. *)
Record Runtime : Type := {
  engine_fetch :
    EngineName → string → EngineOptions → World → result RawResult * World;
  isPlaywrightInstalled : World → bool * World;
  installBrowser : World → bool * World
}.

Variable rt : Runtime.

Definition ensureBrowserInstalled (st : State) (w : World)
  : bool * State * World :=
  let '(ok, w1) := isPlaywrightInstalled rt w in
  if ok then (true, st, w1)
  else match browserInstallPromise st with
       | Some b => (b, st, w1)
       | None =>
           let '(b, w2) := installBrowser rt w1 in
           (b,
            {| engines := engines st; stats := stats st;
               browserInstallPromise := Some b; invoked := invoked st |},
            w2)
       end.

(** Get or create the engine instance, call it, and detect blocking. *)
Definition callEngine (url : string) (engineName : EngineName)
    (options : EngineOptions) (st : State) (w : World)
  : result EngineResult * State * World :=
  let st1 :=
    {| engines := if bool_decide (engineName ∈ engines st) then engines st
                  else engines st ++ [engineName];
       stats := stats st;
       browserInstallPromise := browserInstallPromise st;
       invoked := invoked st ++ [engineName] |} in
  let '(r, w1) := engine_fetch rt engineName url options w in
  match r with
  | Throws => (Throws, st1, w1)
  | Returns raw =>
      let blockCheck :=
        Detector.isBlocked (raw_html raw) (raw_statusCode raw) url in
      (Returns {| html := raw_html raw;
                  statusCode := raw_statusCode raw;
                  engine := engineName;
                  blocked := Detector.blocked blockCheck;
                  blockReason := Detector.reason blockCheck;
                  finalUrl := raw_finalUrl raw |},
       st1, w1)
  end.

Definition fetchWithEngine (url : string) (engineName : EngineName)
    (options : EngineOptions) (st : State) (w : World)
  : result EngineResult * State * World :=
  match engineName with
  | Fetch => callEngine url engineName options st w
  | Playwright | Rebrowser =>
      let '(ok, st1, w1) := ensureBrowserInstalled st w in
      if ok then callEngine url engineName options st1 w1
      else (Throws, st1, w1)          (* "Browser not available" *)
  end.

(** The loop [for (const engineConfig of enginesToTry)] and what follows it. *)
Fixpoint tryEngines (enginesToTry : list EngineConfig) (url : string)
    (options : EngineOptions) (st : State) (w : World)
  : result EngineResult * State * World :=
  match enginesToTry with
  | [] =>
      (* All engines failed *)
      (Throws,
       {| engines := engines st; stats := bumpBlocked (stats st);
          browserInstallPromise := browserInstallPromise st;
          invoked := invoked st |},
       w)
  | engineConfig :: rest =>
      let '(r, st1, w1) :=
        fetchWithEngine url (name engineConfig)
          (withTimeout options
             (Some (timeoutOr options (defaultTimeout engineConfig))))
          st w in
      match r with
      | Returns res =>
          if blocked res then tryEngines rest url options st1 w1
          else (Returns res,
                {| engines := engines st1;
                   stats := bump (name engineConfig) (stats st1);
                   browserInstallPromise := browserInstallPromise st1;
                   invoked := invoked st1 |},
                w1)
      | Throws => tryEngines rest url options st1 w1
      end
  end.

Definition fetch (url : string) (options : EngineOptions)
    (st : State) (w : World)
  : result EngineResult * State * World :=
  match forceEngine options with
  | Some forced => fetchWithEngine url forced options st w
  | None =>
      let startIndex := if Detector.needsBrowser url then 1 else 0 in
      tryEngines (drop startIndex ENGINES) url options st w
  end.

End WithWorld.

End Waterfall.

(** ** robots.txt (src/crawler/robots.ts) *)

Module Robots.

Record RobotsRule : Type := {
  userAgent : string;
  allow : list string;
  disallow : list string;
  crawlDelay : option Q
}.

Record RobotsParser : Type := {
  rules : gmap string (list RobotsRule);
  sitemaps : gmap string (list string)
}.

Definition empty : RobotsParser := {| rules := ∅; sitemaps := ∅ |}.

(** The RegExp source [pathMatches] builds from a pattern: the characters
    it escapes (the dot, plus, question mark, caret, dollar, braces,
    parentheses, bar, brackets and backslash) and every other character but
    the star stand for themselves; the star becomes [.*].  Such a source
    always compiles, so the [startsWith] fallback of the handler is never
    taken. *)
Fixpoint convert (patternToConvert : string) : list Re.atom :=
  match patternToConvert with
  | EmptyString => []
  | String c rest =>
      (if Ascii.eqb c "*" then Re.AnyStar else Re.Chr c) :: convert rest
  end.

Definition pathMatches (path pattern : string) : bool :=
  if bool_decide (pattern = "/") then true
  else
    let hasEndAnchor := Str.endsWith pattern "$" in
    let patternToConvert :=
      if hasEndAnchor then Str.dropLast pattern else pattern in
    Re.matchHere false hasEndAnchor (convert patternToConvert) path.

(** The state of the loop of [parseRobotsTxt]. *)
Record Acc : Type := {
  acc_rules : list RobotsRule;
  acc_sitemaps : list string;
  currentRule : option RobotsRule
}.

Definition closeRule (a : Acc) : list RobotsRule :=
  match currentRule a with
  | Some r => acc_rules a ++ [r]
  | None => acc_rules a
  end.

Definition nonEmpty (s : string) : bool := negb (bool_decide (s = EmptyString)).

Section WithPlatform.
Context {P : Platform}.

(** One iteration of the loop over the lines. *)
Definition parseLine (a : Acc) (line : string) : Acc :=
  let trimmed := Str.trim line in
  if negb (nonEmpty trimmed) || Str.startsWith trimmed "#" then a
  else
    match Str.indexOf trimmed ":" with
    | None => a
    | Some colonIndex =>
        let directive :=
          Str.trim (Str.toLowerCase (Str.take colonIndex trimmed)) in
        let value := Str.trim (Str.drop (S colonIndex) trimmed) in
        let upd (f : RobotsRule → RobotsRule) : Acc :=
          {| acc_rules := acc_rules a; acc_sitemaps := acc_sitemaps a;
             currentRule := f <$> currentRule a |} in
        if bool_decide (directive = "user-agent") then
          {| acc_rules := closeRule a; acc_sitemaps := acc_sitemaps a;
             currentRule :=
               Some {| userAgent := Str.toLowerCase value; allow := [];
                       disallow := []; crawlDelay := None |} |}
        else if bool_decide (directive = "allow") then
          if nonEmpty value then
            upd (λ r, {| userAgent := userAgent r; allow := allow r ++ [value];
                         disallow := disallow r; crawlDelay := crawlDelay r |})
          else a
        else if bool_decide (directive = "disallow") then
          if nonEmpty value then
            upd (λ r, {| userAgent := userAgent r; allow := allow r;
                         disallow := disallow r ++ [value];
                         crawlDelay := crawlDelay r |})
          else a
        else if bool_decide (directive = "crawl-delay") then
          match parseFloat value with
          | Some delay =>
              upd (λ r, {| userAgent := userAgent r; allow := allow r;
                           disallow := disallow r; crawlDelay := Some delay |})
          | None => a
          end
        else if bool_decide (directive = "sitemap") then
          if nonEmpty value then
            {| acc_rules := acc_rules a;
               acc_sitemaps := acc_sitemaps a ++ [value];
               currentRule := currentRule a |}
          else a
        else a
    end.

Definition parseRobotsTxt (rp : RobotsParser) (host text : string)
  : RobotsParser :=
  let a := fold_left parseLine (Str.split Re.LF text)
             {| acc_rules := []; acc_sitemaps := []; currentRule := None |} in
  {| rules := <[host := closeRule a]> (rules rp);
     sitemaps := <[host := acc_sitemaps a]> (sitemaps rp) |}.

(** [parse(url)]; [resp] is what the fetch of [{origin}/robots.txt]
    answers, consulted only when the host has no record yet.  [Throws]:
    the promise rejects ([new URL(url)] throws again in the handler). *)
Definition parse (rp : RobotsParser) (url : string) (resp : HttpOutcome)
  : result RobotsParser :=
  match url_parse url with
  | None => Throws
  | Some parsedUrl =>
      let host := hostname parsedUrl in
      match rules rp !! host with
      | Some _ => Returns rp                         (* Already parsed *)
      | None =>
          match resp with
          | Response true (Returns text) =>
              Returns (parseRobotsTxt rp host text)
          | Response false _ | Response true Throws | NetworkError =>
              Returns {| rules := <[host := []]> (rules rp);
                         sitemaps := sitemaps rp |}
          end
      end
  end.

Record Match : Type := { pattern : string; isAllow : bool }.

(** The matching patterns of the matching rules, in the order pushed. *)
Definition collect (path : string) (matchingRules : list RobotsRule)
  : list Match :=
  flat_map
    (λ rule,
       map (λ p, {| pattern := p; isAllow := true |})
           (List.filter (pathMatches path) (allow rule)) ++
       map (λ p, {| pattern := p; isAllow := false |})
           (List.filter (pathMatches path) (disallow rule)))
    matchingRules.

(** The callback of [matches.reduce]. *)
Definition pick (best current : Match) : Match :=
  if (Str.length (pattern best) <? Str.length (pattern current))%N then current
  else if (Str.length (pattern current) =? Str.length (pattern best))%N
          && isAllow current then current
  else best.

(** The rule blocks [isAllowed] keeps for a user agent. *)
Definition matchingRules (agent : string) (hostRules : list RobotsRule)
  : list RobotsRule :=
  List.filter
    (λ r, bool_decide (userAgent r = Str.toLowerCase agent)
          || bool_decide (userAgent r = "*"))
    hostRules.

Definition isAllowed (rp : RobotsParser) (url agent : string) : bool :=
  match url_parse url with
  | None => true
  | Some parsedUrl =>
      let host := hostname parsedUrl in
      let path := pathname parsedUrl +:+ search parsedUrl in
      match rules rp !! host with
      | None | Some [] => true                     (* No rules = allow *)
      | Some hostRules =>
          match collect path (matchingRules agent hostRules) with
          | [] => true
          | first :: rest => isAllow (fold_left pick rest first)
          end
      end
  end.

Definition getCrawlDelay (rp : RobotsParser) (url agent : string)
  : option Q :=
  match url_parse url with
  | None => None
  | Some parsedUrl =>
      match rules rp !! hostname parsedUrl with
      | None => None
      | Some hostRules =>
          match List.find
                  (λ r, bool_decide (userAgent r = Str.toLowerCase agent)
                        || bool_decide (userAgent r = "*")) hostRules with
          | Some rule => crawlDelay rule
          | None => None
          end
      end
  end.

Definition getSitemaps (rp : RobotsParser) (url : string) : list string :=
  match url_parse url with
  | None => []
  | Some parsedUrl => default [] (sitemaps rp !! hostname parsedUrl)
  end.

Definition len (m : Match) : N := Str.length (pattern m).

End WithPlatform.

End Robots.

(** ** Sitemaps (src/crawler/sitemap.ts) *)

Module Sitemap.

Definition MAX_URLS : nat := 200.

Section WithWorld.
Context {P : Platform} {World : Type}.

(** [fetch(url, ...)] and [response.text()], acting on the world. *)
Variable http : string → World → HttpOutcome * World.

(** cheerio in XML mode: the text of every element the selector matches,
    in document order. *)
Variable select_text : string → string → list string.

(** The world, with a ghost log of the URLs requested so far. *)
Record Net : Type := { world : World; requested : list string }.

Record SitemapParser : Type := { cache : gmap string (list string) }.

Definition fetchSitemap (url : string) (n : Net) : option string * Net :=
  let '(o, w) := http url (world n) in
  (match o with
   | Response true (Returns text) => Some text
   | Response true Throws | Response false _ | NetworkError => None
   end,
   {| world := w; requested := requested n ++ [url] |}).

(** [$(selector).each(...)]: keep the trimmed, non-empty texts. *)
Definition locs (selector content : string) : list string :=
  List.filter (λ loc, negb (bool_decide (loc = EmptyString)))
              (map Str.trim (select_text selector content)).

Definition parseSitemapIndex (content : string) : list string :=
  locs "sitemap loc" content.

Definition parseUrlset (content : string) : list string :=
  locs "url loc" content.

(** The loop over [indexUrls.slice(0, 2)]. *)
Fixpoint expand (indexUrls : list string) (urls : list string) (n : Net)
  : list string * Net :=
  match indexUrls with
  | [] => (urls, n)
  | indexUrl :: rest =>
      if MAX_URLS <=? length urls then (urls, n)         (* Early exit *)
      else
        let '(subContent, n1) := fetchSitemap indexUrl n in
        match subContent with
        | Some (String c sub) =>
            let subUrls := parseUrlset (String c sub) in
            expand rest
              (urls ++ take (MAX_URLS - length urls) subUrls) n1
        | Some EmptyString | None => expand rest urls n1
        end
  end.

Definition parseSitemapContent (content _origin : string) (n : Net)
  : list string * Net :=
  if Str.includes content "<sitemapindex" then
    let indexUrls := parseSitemapIndex content in
    let '(urls, n1) := expand (take 2 indexUrls) [] n in
    (take MAX_URLS urls, n1)
  else
    let parsed := parseUrlset content in
    (take MAX_URLS (take MAX_URLS parsed), n).

(** [parseUrl(sitemapUrl)] *)
Definition parseUrl (sitemapUrl : string) (n : Net) : list string * Net :=
  let '(content, n1) := fetchSitemap sitemapUrl n in
  match content with
  | Some (String c rest) =>
      match url_parse sitemapUrl with
      | Some u => parseSitemapContent (String c rest) (origin u) n1
      | None => ([], n1)
      end
  | Some EmptyString | None => ([], n1)
  end.

(** The loop of [parse] over the well-known locations. *)
Fixpoint tryLocations (sitemapUrls : list string) (origin_ : string)
    (urls : list string) (n : Net) : list string * Net :=
  match sitemapUrls with
  | [] => (urls, n)
  | sitemapUrl :: rest =>
      let '(sitemapContent, n1) := fetchSitemap sitemapUrl n in
      match sitemapContent with
      | Some (String c content) =>
          let '(parsed, n2) :=
            parseSitemapContent (String c content) origin_ n1 in
          let urls' := urls ++ parsed in
          if 0 <? length urls' then (urls', n2)
          else tryLocations rest origin_ urls' n2
      | Some EmptyString | None => tryLocations rest origin_ urls n1
      end
  end.

(** [parse(url)] *)
Definition parse (sp : SitemapParser) (url : string) (n : Net)
  : list string * SitemapParser * Net :=
  match url_parse url with
  | None => ([], sp, n)
  | Some parsedUrl =>
      let host := hostname parsedUrl in
      match cache sp !! host with
      | Some cached => (cached, sp, n)
      | None =>
          let '(urls, n1) :=
            tryLocations
              [ origin parsedUrl +:+ "/sitemap.xml";
                origin parsedUrl +:+ "/sitemap_index.xml";
                origin parsedUrl +:+ "/sitemap/sitemap.xml" ]
              (origin parsedUrl) [] n in
          (urls, {| cache := <[host := urls]> (cache sp) |}, n1)
      end
  end.

(** [u] is one of the URLs of the urlset a request of [child] answered. *)
Definition fromChild (child u : string) : Prop :=
  ∃ w0 w1 body, http child w0 = (Response true (Returns body), w1)
                ∧ u ∈ parseUrlset body.

End WithWorld.

End Sitemap.

(** ** Locale-aware duplicate detection (src/utils/dedup.ts) *)

Module Dedup.

(** Known language codes (ISO 639-1) *)
Definition LANGUAGE_CODES : list string :=
  [ "en"; "de"; "fr"; "es"; "it"; "pt"; "nl"; "pl"; "ru"; "ja"; "ko"; "zh";
    "ar"; "hi"; "tr"; "vi"; "th"; "id"; "ms"; "sv"; "no"; "da"; "fi"; "cs";
    "el"; "he"; "hu"; "ro"; "sk"; "uk"; "bg"; "hr"; "lt"; "lv"; "et"; "sl";
    "bn"; "ta"; "te"; "mr"; "gu"; "kn"; "ml"; "pa"; "ur"; "km"; "lo"; "ne";
    "si"; "tl"; "mn"; "fa"; "ps"; "sq"; "mk"; "sr"; "bs"; "is"; "mt"; "cy";
    "ga"; "eu"; "gl"; "sw"; "am"; "af"; "ha"; "yo"; "ig"; "zu"; "az"; "uz";
    "kk"; "ka"; "hy"; "tg" ].

(** Known country codes (ISO 3166-1 alpha-2) *)
Definition COUNTRY_CODES : list string :=
  [ "us"; "gb"; "uk"; "ca"; "au"; "nz"; "ie"; "de"; "at"; "ch"; "fr"; "be";
    "es"; "it"; "pt"; "nl"; "pl"; "ru"; "se"; "no"; "dk"; "fi"; "cz"; "gr";
    "hu"; "ro"; "sk"; "ua"; "bg"; "hr"; "rs"; "si"; "lt"; "lv"; "ee"; "jp";
    "kr"; "cn"; "tw"; "hk"; "sg"; "my"; "th"; "vn"; "ph"; "mm"; "kh"; "la";
    "np"; "lk"; "bd"; "pk"; "in"; "ae"; "sa"; "il"; "eg"; "ma"; "dz"; "tn";
    "lb"; "jo"; "kw"; "qa"; "bh"; "om"; "iq"; "ir"; "tr"; "za"; "ng"; "ke";
    "gh"; "tz"; "ug"; "et"; "sn"; "ci"; "mx"; "ar"; "br"; "co"; "cl"; "pe";
    "ec"; "ve"; "bo"; "py"; "uy"; "cr"; "pa"; "gt"; "hn"; "ni"; "cu"; "do";
    "pr"; "jm" ].

(** The mid-path segments that are common English words. *)
Definition FALSE_POSITIVES : list string :=
  [ "us"; "uk"; "my"; "in"; "at"; "be"; "to"; "do"; "go"; "so"; "no";
    "id"; "am"; "is"; "it"; "me"; "or"; "as"; "if"; "an"; "on"; "up";
    "la"; "ha"; "pa"; "om" ].

(** [set.has(x)], [array.includes(x)] *)
Definition has (xs : list string) (x : string) : bool := bool_decide (x ∈ xs).

Record LocaleInfo : Type := {
  hasLocale : bool;
  locale : option string;
  language : option string;
  country : option string;
  canonicalPath : string
}.

Definition isSlash (c : ascii) : bool := Ascii.eqb c "/".
Definition isDashOrUnderscore (c : ascii) : bool :=
  Ascii.eqb c "-" || Ascii.eqb c "_".

Definition two (a b : ascii) : string := String a (String b EmptyString).

(** [/\/([a-z]{2})([-_]([a-z]{2}))?/i] at the head of [s], followed by the
    lookahead [ahead]: the captures 1 and 3 and what follows the match.
    The optional group is tried first, then given up. *)
Definition localeAt (ahead : string → bool) (s : string)
  : option (string * option string * string) :=
  match s with
  | String sl (String a (String b rest)) =>
      if isSlash sl && Str.isLetter a && Str.isLetter b then
        let short :=
          if ahead rest then Some (two a b, None, rest) else None in
        match rest with
        | String sep (String c (String d rest')) =>
            if isDashOrUnderscore sep && Str.isLetter c && Str.isLetter d
               && ahead rest'
            then Some (two a b, Some (two c d), rest')
            else short
        | _ => short
        end
      else None
  | _ => None
  end.

(** [(?=\/|$)] *)
Definition slashOrEnd (s : string) : bool :=
  match s with
  | EmptyString => true
  | String c _ => isSlash c
  end.

(** [(?=\/)] *)
Definition slashAhead (s : string) : bool :=
  match s with
  | EmptyString => false
  | String c _ => isSlash c
  end.

(** [path.match(/^\/([a-z]{2})([-_]([a-z]{2}))?(?=\/|$)/i)] *)
Definition pathMatch (path : string) : option (string * option string) :=
  match localeAt slashOrEnd path with
  | Some (m1, m3, _) => Some (m1, m3)
  | None => None
  end.

(** [path.replace(/^\/[a-z]{2}([-_][a-z]{2})?/i, empty)] *)
Definition stripLeadingLocale (path : string) : string :=
  match localeAt (λ _, true) path with
  | Some (_, _, rest) => rest
  | None => path
  end.

(** [path.match(/\/([a-z]{2})([-_]([a-z]{2}))?(?=\/)/i)] *)
Fixpoint midPathMatch (path : string) : option (string * option string) :=
  match localeAt slashAhead path with
  | Some (m1, m3, _) => Some (m1, m3)
  | None =>
      match path with
      | EmptyString => None
      | String _ rest => midPathMatch rest
      end
  end.

(** [path.replace(/\/[a-z]{2}([-_][a-z]{2})?(?=\/)/i, empty)] *)
Fixpoint stripMidLocale (path : string) : string :=
  match localeAt slashAhead path with
  | Some (_, _, rest) => rest
  | None =>
      match path with
      | EmptyString => EmptyString
      | String c rest => String c (stripMidLocale rest)
      end
  end.

(** The variables [path], [locale], [language], [country] of
    [extractLocale]. *)
Record Vars : Type := {
  path : string;
  v_locale : option string;
  v_language : option string;
  v_country : option string
}.

Definition tag (first second : string) : string := first +:+ "-" +:+ second.

(** Check for locale in path (most common patterns) *)
Definition leadingSegment (v : Vars) : Vars :=
  match pathMatch (path v) with
  | None => v
  | Some (m1, m3) =>
      let first := Str.toLowerCase m1 in
      let second := Str.toLowerCase <$> m3 in
      let isLanguage := has LANGUAGE_CODES first in
      let isCountry := has COUNTRY_CODES first in
      if isLanguage || isCountry then
        let language' := if isLanguage then Some first else v_language v in
        let country' := if isLanguage then v_country v else Some first in
        let '(country'', locale') :=
          match second with
          | Some sec =>
              if has COUNTRY_CODES sec then (Some sec, tag first sec)
              else if has LANGUAGE_CODES sec then (Some sec, tag first sec)
              else (country', first)
          | None => (country', first)
          end in
        let stripped := stripLeadingLocale (path v) in
        {| path := if bool_decide (stripped = EmptyString) then "/" else stripped;
           v_locale := Some locale';
           v_language := language';
           v_country := country'' |}
      else v
  end.

Definition truthy (o : option string) : bool :=
  match o with
  | Some (String _ _) => true
  | Some EmptyString | None => false
  end.

(** Also check for locale anywhere in path (not just at start) *)
Definition midSegment (v : Vars) : Vars :=
  if truthy (v_locale v) then v
  else
    match midPathMatch (path v) with
    | None => v
    | Some (m1, m3) =>
        let first := Str.toLowerCase m1 in
        let second := Str.toLowerCase <$> m3 in
        let isLanguage := has LANGUAGE_CODES first in
        let isCountry := has COUNTRY_CODES first in
        let isFalsePositive := has FALSE_POSITIVES first in
        if (isLanguage || isCountry) && negb isFalsePositive then
          let language' := if isLanguage then Some first else v_language v in
          let country' := if isLanguage then v_country v else Some first in
          let '(country'', locale') :=
            match second with
            | Some sec =>
                if has COUNTRY_CODES sec then (Some sec, tag first sec)
                else (country', first)
            | None => (country', first)
            end in
          {| path := stripMidLocale (path v);
             v_locale := Some locale';
             v_language := language';
             v_country := country'' |}
        else v
    end.

(** [a || b] on strings that may be null *)
Definition orElse (a b : option string) : option string :=
  if truthy a then a else b.

Definition LOCALE_PARAMS : list string := [ "lang"; "locale"; "hl"; "language" ].

(** Check query params for locale *)
Definition queryParam (ps : list (string * string)) (v : Vars) : Vars :=
  let langParam :=
    orElse (params_get ps "lang")
      (orElse (params_get ps "locale")
         (orElse (params_get ps "hl") (params_get ps "language"))) in
  match langParam with
  | Some (String c rest) =>
      if truthy (v_locale v) then v
      else
        let parts :=
          Str.splitBy isDashOrUnderscore (Str.toLowerCase (String c rest)) in
        let p0 := default EmptyString (parts !! 0) in
        if has LANGUAGE_CODES p0 then
          match parts !! 1 with
          | Some (String d rest1) =>
              let p1 := String d rest1 in
              if has COUNTRY_CODES p1 then
                {| path := path v; v_locale := Some (tag p0 p1);
                   v_language := Some p0; v_country := Some p1 |}
              else
                {| path := path v; v_locale := Some p0;
                   v_language := Some p0; v_country := v_country v |}
          | Some EmptyString | None =>
              {| path := path v; v_locale := Some p0;
                 v_language := Some p0; v_country := v_country v |}
          end
        else v
  | Some EmptyString | None => v
  end.

Record Entry : Type := { url : string; entry_locale : option string }.

Record Stats : Type := {
  localeSkipped : nat;
  similarSkipped : nat;
  total : nat
}.

Record DedupTracker : Type := {
  canonicalPaths : gmap string Entry;
  fingerprints : gmap string string;
  stats : Stats;
  preferredLanguage : string
}.

(** [new DedupTracker(preferredLanguage)] *)
Definition create (preferredLanguage : string) : DedupTracker :=
  {| canonicalPaths := ∅; fingerprints := ∅;
     stats := {| localeSkipped := 0; similarSkipped := 0; total := 0 |};
     preferredLanguage := preferredLanguage |}.

Record Verdict : Type := { skip : bool; reason : option string }.

Section WithPlatform.
Context {P : Platform}.

(** The query part of a canonical path. *)
Definition querySuffix (ps : list (string * string)) : string :=
  let queryString := params_toString (params_delete LOCALE_PARAMS ps) in
  if bool_decide (queryString = EmptyString) then EmptyString
  else "?" +:+ queryString.

Definition extractLocale (url : string) : LocaleInfo :=
  match url_parse url with
  | None =>
      {| hasLocale := false; locale := None; language := None;
         country := None; canonicalPath := url |}
  | Some parsed =>
      let v0 := {| path := pathname parsed; v_locale := None;
                   v_language := None; v_country := None |} in
      let v := queryParam (searchParams parsed)
                 (midSegment (leadingSegment v0)) in
      {| hasLocale := truthy (v_locale v);
         locale := v_locale v;
         language := v_language v;
         country := v_country v;
         canonicalPath := path v +:+ querySuffix (searchParams parsed) |}
  end.

(** [this.stats.localeSkipped++; return { skip: true, reason }] *)
Definition skipLocale (t : DedupTracker) (localeInfo : LocaleInfo)
  : Verdict * DedupTracker :=
  ({| skip := true;
      reason := Some ("locale:" +:+ default "undefined" (locale localeInfo)) |},
   {| canonicalPaths := canonicalPaths t; fingerprints := fingerprints t;
      stats := {| localeSkipped := S (localeSkipped (stats t));
                  similarSkipped := similarSkipped (stats t);
                  total := total (stats t) |};
      preferredLanguage := preferredLanguage t |}).

(** [this.canonicalPaths.set(key, { url, locale: localeInfo.locale })] *)
Definition record (t : DedupTracker) (key url_ : string)
    (localeInfo : LocaleInfo) (stats' : Stats) : DedupTracker :=
  {| canonicalPaths :=
       <[key := {| url := url_; entry_locale := locale localeInfo |}]>
         (canonicalPaths t);
     fingerprints := fingerprints t;
     stats := stats';
     preferredLanguage := preferredLanguage t |}.

Definition shouldSkip (t : DedupTracker) (url_ : string)
  : result (Verdict * DedupTracker) :=
  let localeInfo := extractLocale url_ in
  match url_parse url_ with
  | None => Throws
  | Some parsed =>
      let domain := hostname parsed in
      let key := domain +:+ canonicalPath localeInfo in
      let track :=
        ({| skip := false; reason := None |},
         record t key url_ localeInfo
           {| localeSkipped := localeSkipped (stats t);
              similarSkipped := similarSkipped (stats t);
              total := S (total (stats t)) |}) in
      Returns
        match canonicalPaths t !! key with
        | Some existing =>
            if hasLocale localeInfo then
              let existingLocale := extractLocale (url existing) in
              if bool_decide (language existingLocale
                              = Some (preferredLanguage t))
                 || negb (hasLocale existingLocale)
              then skipLocale t localeInfo
              else if bool_decide (language localeInfo
                                   = Some (preferredLanguage t))
              then ({| skip := false; reason := None |},
                    record t key url_ localeInfo (stats t))
              else skipLocale t localeInfo
            else track
        | None => track
        end
  end.

(** The representative is in the preferred language or carries no locale:
    the test under which [shouldSkip] turns a localized URL down. *)
Definition preferred (pref : string) (existing : Entry) : bool :=
  bool_decide (language (extractLocale (url existing)) = Some pref)
  || negb (hasLocale (extractLocale (url existing))).

Definition entryOf (url_ : string) : Entry :=
  {| url := url_; entry_locale := locale (extractLocale url_) |}.

Definition localeReason (url_ : string) : option string :=
  Some ("locale:" +:+ default "undefined" (locale (extractLocale url_))).

End WithPlatform.

End Dedup.

(** ** URL utilities (src/utils/url.ts) *)

Module UrlUtil.

Definition TRACKING_PARAMS : list string :=
  [ "utm_source"; "utm_medium"; "utm_campaign"; "utm_content"; "utm_term";
    "ref"; "fbclid"; "gclid" ].

Definition SKIP_EXTENSIONS : list string :=
  [ ".pdf"; ".jpg"; ".jpeg"; ".png"; ".gif"; ".svg"; ".ico"; ".webp";
    ".avif"; ".css"; ".js"; ".mjs"; ".cjs"; ".ts"; ".tsx"; ".jsx"; ".woff";
    ".woff2"; ".ttf"; ".eot"; ".otf"; ".mp4"; ".mp3"; ".wav"; ".ogg";
    ".webm"; ".avi"; ".mov"; ".zip"; ".tar"; ".gz"; ".rar"; ".7z"; ".exe";
    ".dmg"; ".pkg"; ".deb"; ".rpm"; ".json"; ".xml"; ".yaml"; ".yml";
    ".toml"; ".doc"; ".docx"; ".xls"; ".xlsx"; ".ppt"; ".pptx" ].

(** [url.startsWith("http") ? url : `https://${url}`] *)
Definition withScheme (url : string) : string :=
  if Str.startsWith url "http" then url else "https://" +:+ url.

Section WithPlatform.
Context {P : Platform}.

Definition normalizeUrl (url : string) : string :=
  match url_parse (withScheme url) with
  | None => url
  | Some parsed =>
      let path := pathname parsed in
      let path' :=
        if Str.endsWith path "/" && negb (bool_decide (path = "/"))
        then Str.dropLast path else path in
      (* the deletions rewrite [parsed.search]; the hash is dropped *)
      let query :=
        params_toString (params_delete TRACKING_PARAMS (searchParams parsed)) in
      origin parsed +:+ path' +:+
      (if bool_decide (query = EmptyString) then EmptyString
       else "?" +:+ query)
  end.

Definition getBaseDomain (url : string) : string :=
  match url_parse (withScheme url) with
  | None => url
  | Some parsed =>
      if Str.startsWith (hostname parsed) "www."
      then Str.drop 4 (hostname parsed) else hostname parsed
  end.

Definition shouldSkipUrl (url : string) : bool :=
  match url_parse url with
  | None => true
  | Some parsed =>
      let pathname_ := Str.toLowerCase (pathname parsed) in
      if existsb (Str.endsWith pathname_) SKIP_EXTENSIONS then true
      else Str.startsWith url "mailto:" || Str.startsWith url "javascript:"
           || Str.startsWith url "tel:"
  end.

End WithPlatform.

End UrlUtil.

(** ** The crawler (src/crawler/index.ts) *)

(** [depth] and [maxPages] are counts: the command line fills them with
    [Number.parseInt], single-page mode with the number of start URLs. *)
Module CrawlOptions.
Record t : Type := {
  depth : nat;
  concurrency : nat;
  maxPages : nat;
  rateLimit : nat;
  timeout : N;
  respectRobots : bool;
  useSitemap : bool;
  includePattern : option (string → bool);   (* [re.test], no [g] flag *)
  excludePattern : option (string → bool);
  forceEngine : option Waterfall.EngineName;
  useAuth : option bool
}.
End CrawlOptions.

Module ExtractResult.
Record t : Type := {
  title : string;
  markdown : string;
  description : string;
  author : option string;
  publishedDate : option string;
  links : list string;
  wordCount : nat;
  byteSize : nat
}.
End ExtractResult.

Module CrawlResult.
Record t : Type := {
  url : string;
  finalUrl : string;
  extracted : ExtractResult.t;
  depth : nat;
  engine : Waterfall.EngineName
}.
End CrawlResult.

Module Crawler.

Definition DEFAULT_OPTIONS : CrawlOptions.t :=
  {| CrawlOptions.depth := 2;
     CrawlOptions.concurrency := 10;
     CrawlOptions.maxPages := 150;
     CrawlOptions.rateLimit := 10;
     CrawlOptions.timeout := 10000;
     CrawlOptions.respectRobots := true;
     CrawlOptions.useSitemap := true;
     CrawlOptions.includePattern := None;
     CrawlOptions.excludePattern := None;
     CrawlOptions.forceEngine := None;
     CrawlOptions.useAuth := None |}.

(** Where the generator [crawl] stands. *)
Inductive Phase : Type :=
| Discover      (* seeded; robots.txt and sitemaps being awaited *)
| Drain         (* in the loop that yields results as they arrive *)
| Flush         (* in the final loop over the remaining results *)
| Done.

(** The crawler object.  [queue] holds the tasks given to the PQueue that
    have not completed; [phase] is the program point of [crawl]; [yielded]
    is a ghost field: the results yielded so far, in order. *)
Record State : Type := {
  options : CrawlOptions.t;
  robots : Robots.RobotsParser;
  dedup : Dedup.DedupTracker;
  visited : gset string;
  queue : list (string * nat);
  baseHosts : gset string;
  results : list CrawlResult.t;
  phase : Phase;
  yielded : list CrawlResult.t
}.

(** [new Crawler(options)] *)
Definition create (options : CrawlOptions.t) : State :=
  {| options := options;
     robots := Robots.empty;
     dedup := Dedup.create "en";          (* Prefer English content *)
     visited := ∅;
     queue := [];
     baseHosts := ∅;
     results := [];
     phase := Discover;
     yielded := [] |}.

Definition withRobots (c : State) (rp : Robots.RobotsParser) : State :=
  {| options := options c; robots := rp; dedup := dedup c;
     visited := visited c; queue := queue c; baseHosts := baseHosts c;
     results := results c; phase := phase c; yielded := yielded c |}.

Definition withDedup (c : State) (d : Dedup.DedupTracker) : State :=
  {| options := options c; robots := robots c; dedup := d;
     visited := visited c; queue := queue c; baseHosts := baseHosts c;
     results := results c; phase := phase c; yielded := yielded c |}.

Definition withBaseHosts (c : State) (hosts : gset string) : State :=
  {| options := options c; robots := robots c; dedup := dedup c;
     visited := visited c; queue := queue c; baseHosts := hosts;
     results := results c; phase := phase c; yielded := yielded c |}.

Definition withQueue (c : State) (q : list (string * nat)) : State :=
  {| options := options c; robots := robots c; dedup := dedup c;
     visited := visited c; queue := q; baseHosts := baseHosts c;
     results := results c; phase := phase c; yielded := yielded c |}.

Definition withResults (c : State) (rs : list CrawlResult.t) : State :=
  {| options := options c; robots := robots c; dedup := dedup c;
     visited := visited c; queue := queue c; baseHosts := baseHosts c;
     results := rs; phase := phase c; yielded := yielded c |}.

Definition withPhase (c : State) (p : Phase) : State :=
  {| options := options c; robots := robots c; dedup := dedup c;
     visited := visited c; queue := queue c; baseHosts := baseHosts c;
     results := results c; phase := p; yielded := yielded c |}.

(** [const result = this.results.shift(); yield result] *)
Definition yieldResult (c : State) (r : CrawlResult.t)
    (rest : list CrawlResult.t) : State :=
  {| options := options c; robots := robots c; dedup := dedup c;
     visited := visited c; queue := queue c; baseHosts := baseHosts c;
     results := rest; phase := phase c; yielded := yielded c ++ [r] |}.

Section WithPlatform.
Context {P : Platform}.

Definition addToQueue (c : State) (url : string) (depth : nat) : State :=
  let normalized := UrlUtil.normalizeUrl url in
  if bool_decide (normalized ∈ visited c) then c
  else if CrawlOptions.maxPages (options c) <=? size (visited c) then c
  else
    {| options := options c; robots := robots c; dedup := dedup c;
       visited := {[normalized]} ∪ visited c;
       queue := queue c ++ [(url, depth)];
       baseHosts := baseHosts c;
       results := results c; phase := phase c; yielded := yielded c |}.

(** [pattern.test(url)] for an optional pattern; [missing] is the answer
    when there is none. *)
Definition testPattern (p : option (string → bool)) (missing : bool)
    (url : string) : bool :=
  match p with
  | Some test => test url
  | None => missing
  end.

Definition shouldCrawl (c : State) (url : string) (depth : nat)
  : bool * State :=
  let normalized := UrlUtil.normalizeUrl url in
  (* Already visited *)
  if bool_decide (normalized ∈ visited c) then (false, c)
  (* Max pages *)
  else if CrawlOptions.maxPages (options c) <=? size (visited c)
    then (false, c)
  (* Depth check *)
  else if CrawlOptions.depth (options c) <? depth then (false, c)
  (* Skip non-HTML *)
  else if UrlUtil.shouldSkipUrl url then (false, c)
  (* Same domain only *)
  else if negb (bool_decide (UrlUtil.getBaseDomain url ∈ baseHosts c))
    then (false, c)
  (* Robots.txt *)
  else if CrawlOptions.respectRobots (options c)
          && negb (Robots.isAllowed (robots c) url "*")
    then (false, c)
  (* Include/exclude patterns *)
  else if negb (testPattern (CrawlOptions.includePattern (options c)) true url)
    then (false, c)
  else if testPattern (CrawlOptions.excludePattern (options c)) false url
    then (false, c)
  (* Smart dedup - skip localized versions *)
  else
    match Dedup.shouldSkip (dedup c) url with
    | Throws => (false, c)
    | Returns (dedupResult, d) =>
        if Dedup.skip dedupResult then (false, withDedup c d)
        else (true, withDedup c d)
    end.

(** [if (this.shouldCrawl(u, depth)) this.addToQueue(u, depth)] *)
Definition enqueueIfAllowed (depth : nat) (c : State) (u : string) : State :=
  let '(ok, c1) := shouldCrawl c u depth in
  if ok then addToQueue c1 u depth else c1.

(** What [processUrl(url, depth)] does to the crawler once the engine
    has answered [fetched] and the extractor [extraction] ([Throws]: the
    call threw and the handler logged it). *)
Definition processUrl (c : State) (url : string) (depth : nat)
    (fetched : result Waterfall.EngineResult)
    (extraction : result ExtractResult.t) : State :=
  match fetched with
  | Throws => c
  | Returns result =>
      if Waterfall.blocked result then c
      else if 400 <=? Waterfall.statusCode result then c
      else
        match extraction with
        | Throws => c
        | Returns extracted =>
            (* Skip pages with very little content *)
            if ExtractResult.wordCount extracted <? 20 then c
            else
              (* Add to results *)
              let c1 :=
                withResults c
                  (results c ++
                   [ {| CrawlResult.url := url;
                        CrawlResult.finalUrl := Waterfall.finalUrl result;
                        CrawlResult.extracted := extracted;
                        CrawlResult.depth := depth;
                        CrawlResult.engine := Waterfall.engine result |} ]) in
              (* Queue discovered links *)
              if depth <? CrawlOptions.depth (options c1) then
                fold_left (enqueueIfAllowed (depth + 1))
                  (ExtractResult.links extracted) c1
              else c1
        end
  end.

(** One turn of the loop of [parseSitemaps]: the URLs a sitemap gave for
    one start URL are admitted at depth 1. *)
Definition addSitemapUrls (c : State) (sitemapUrls : list string) : State :=
  let limit := Nat.min (CrawlOptions.maxPages (options c)) 50 in
  fold_left (enqueueIfAllowed 1) (take limit sitemapUrls) c.

(** The head of [crawl]: the start URLs enter the queue at depth 0. *)
Definition seed (c : State) (startUrls : list string) : State :=
  let normalizedUrls := map UrlUtil.normalizeUrl startUrls in
  let c1 :=
    withBaseHosts c (list_to_set (map UrlUtil.getBaseDomain normalizedUrls)) in
  fold_left (λ c u, addToQueue c u 0) normalizedUrls c1.

(** The moves of a crawl.  Queue tasks, robots.txt fetches and sitemap
    batches complete in any order and at any time (a timed-out
    [Promise.race] does not cancel them); a task touches the crawler only
    in its last synchronous stretch, so it is one move.  The generator
    yields whenever results are buffered; it leaves the drain loop only
    with an empty buffer (queue drained, page budget reached or idle
    timeout), and returns from the final loop with an empty buffer. *)
Inductive step (c : State) : State → Prop :=
| step_robots url resp rp :
    CrawlOptions.respectRobots (options c) = true →
    Robots.parse (robots c) url resp = Returns rp →
    step c (withRobots c rp)
| step_sitemap sitemapUrls :
    CrawlOptions.useSitemap (options c) = true →
    step c (addSitemapUrls c sitemapUrls)
| step_task before url depth after fetched extraction :
    queue c = before ++ (url, depth) :: after →
    step c (processUrl (withQueue c (before ++ after)) url depth
              fetched extraction)
| step_drain :
    phase c = Discover →
    step c (withPhase c Drain)
| step_yield r rest :
    phase c = Drain ∨ phase c = Flush →
    results c = r :: rest →
    step c (yieldResult c r rest)
| step_break :
    phase c = Drain →
    results c = [] →
    step c (withPhase c Flush)
| step_return :
    phase c = Flush →
    results c = [] →
    step c (withPhase c Done).

(** The states of a crawl of [startUrls] with [options]. *)
Definition reachable (options : CrawlOptions.t) (startUrls : list string)
  : State → Prop :=
  rtc step (seed (create options) startUrls).

(** The page budget, with [k] tasks taken out of the queue and not yet
    accounted for. *)
Definition Budget (k : nat) (c : State) : Prop :=
  length (yielded c) + length (results c) + length (queue c) + k
    ≤ size (visited c)
  ∧ size (visited c) ≤ CrawlOptions.maxPages (options c).

(** Every task and every result lies within the configured depth. *)
Definition Depths (c : State) : Prop :=
  Forall (λ task, task.2 ≤ CrawlOptions.depth (options c)) (queue c)
  ∧ Forall (λ r, CrawlResult.depth r ≤ CrawlOptions.depth (options c))
           (results c)
  ∧ Forall (λ r, CrawlResult.depth r ≤ CrawlOptions.depth (options c))
           (yielded c).

(** The checks of [shouldCrawl] that come before the dedup tracker. *)
Definition guards (c : State) (url : string) (depth : nat) : bool :=
  negb (bool_decide (UrlUtil.normalizeUrl url ∈ visited c))
  && negb (CrawlOptions.maxPages (options c) <=? size (visited c))
  && negb (CrawlOptions.depth (options c) <? depth)
  && negb (UrlUtil.shouldSkipUrl url)
  && bool_decide (UrlUtil.getBaseDomain url ∈ baseHosts c)
  && negb (CrawlOptions.respectRobots (options c)
           && negb (Robots.isAllowed (robots c) url "*"))
  && testPattern (CrawlOptions.includePattern (options c)) true url
  && negb (testPattern (CrawlOptions.excludePattern (options c)) false url).

End WithPlatform.

End Crawler.

(** ** The entry point (src/index.ts) *)

Module Clippy.

(** The options of [clippy] the crawl depends on; [None]: left out. *)
Record ClippyOptions : Type := {
  depth : option nat;
  concurrency : option nat;
  maxPages : option nat;
  rateLimit : option nat;
  timeout : option N;
  includePattern : option (string → bool);
  excludePattern : option (string → bool);
  useSitemap : option bool;
  respectRobots : option bool;
  forceEngine : option Waterfall.EngineName;
  useAuth : option bool
}.

(** The paths of
    [/^\/(index\.(html?|php|aspx?)|default\.(html?|aspx?))$/i]. *)
Definition INDEX_PAGES : list string :=
  [ "/index.htm"; "/index.html"; "/index.php"; "/index.asp"; "/index.aspx";
    "/default.htm"; "/default.html"; "/default.asp"; "/default.aspx" ].

Section WithPlatform.
Context {P : Platform}.

Definition isSpecificPage (url : string) : bool :=
  match url_parse url with
  | None => false
  | Some parsed =>
      let path := pathname parsed in
      if bool_decide (path = "/") || bool_decide (path = EmptyString) then false
      else if existsb (λ page, Re.matchHere true true (Re.lit page) path)
                      INDEX_PAGES then false
      else true
  end.

(** [allSpecificPages && options.depth === undefined] *)
Definition singlePageMode (options : ClippyOptions) (webInputs : list string)
  : bool :=
  forallb isSpecificPage webInputs && bool_decide (depth options = None).

(** The options [clippy] builds its crawler with. *)
Definition crawlerOptions (options : ClippyOptions) (webInputs : list string)
  : CrawlOptions.t :=
  let single := singlePageMode options webInputs in
  {| CrawlOptions.depth := if single then 0 else default 2 (depth options);
     CrawlOptions.concurrency := default 10 (concurrency options);
     CrawlOptions.maxPages :=
       if single then length webInputs else default 150 (maxPages options);
     CrawlOptions.rateLimit := default 10 (rateLimit options);
     CrawlOptions.timeout := default 10000%N (timeout options);
     CrawlOptions.respectRobots := default true (respectRobots options);
     CrawlOptions.useSitemap :=
       if single then false else default true (useSitemap options);
     CrawlOptions.includePattern := includePattern options;
     CrawlOptions.excludePattern := excludePattern options;
     CrawlOptions.forceEngine := forceEngine options;
     CrawlOptions.useAuth := Some (default true (useAuth options)) |}.

End WithPlatform.

End Clippy.

(** ** Link extraction (src/extractor/links.ts, src/utils/url.ts) *)

Module Links.

Section WithPlatform.
Context {P : Platform}.

(** [new URL(href, base).href], [None] when it throws. *)
Variable resolve : string → string → option string.

Definition resolveUrl (href baseUrl : string) : option string :=
  if Str.startsWith href "#" then None
  else if Str.startsWith href "mailto:" || Str.startsWith href "javascript:"
          || Str.startsWith href "tel:" then None
  else
    match url_parse baseUrl with
    | None => None
    | Some base => resolve href (origin base)
    end.

(** One turn of [$("a[href]").each(...)] on the value of the attribute:
    the links pushed so far, and the set [seen]. *)
Definition visit (baseUrl : string) (acc : list string * gset string)
    (href : string) : list string * gset string :=
  if bool_decide (href = EmptyString) then acc
  else
    match resolveUrl href baseUrl with
    | Some (String c rest) =>
        let resolved := String c rest in
        (* Skip non-HTML resources *)
        if UrlUtil.shouldSkipUrl resolved then acc
        (* Deduplicate *)
        else if bool_decide (resolved ∈ acc.2) then acc
        else (acc.1 ++ [resolved], {[resolved]} ∪ acc.2)
    | Some EmptyString | None => acc
    end.

(** [extractLinks($, baseUrl)], [hrefs] being the [href] attributes of the
    elements [a[href]] in document order. *)
Definition extractLinks (hrefs : list string) (baseUrl : string) : list string :=
  (fold_left (visit baseUrl) hrefs ([], ∅)).1.

End WithPlatform.

End Links.

(** ** Display helpers (src/utils/ui.ts) *)

Module Ui.

(** An index of [slice] brought into the string. *)
Definition clampIndex (len i : Z) : Z :=
  if (i <? 0)%Z then Z.max (len + i) 0 else Z.min i len.

(** [s.slice(start, end)] *)
Definition slice (s : string) (start end_ : Z) : string :=
  let len := Z.of_nat (String.length s) in
  let from := clampIndex len start in
  let to := clampIndex len end_ in
  Str.take (Z.to_nat (to - from)) (Str.drop (Z.to_nat from) s).

(** [s.slice(start)] *)
Definition sliceFrom (s : string) (start : Z) : string :=
  slice s start (Z.of_nat (String.length s)).

Section WithPlatform.
Context {P : Platform}.

Definition truncateUrl (url : string) (maxLen : Z) : string :=
  if (Z.of_nat (String.length url) <=? maxLen)%Z then url
  else
    let cut := slice url 0 (maxLen - 3) +:+ "..." in
    match url_parse url with
    | None => cut
    | Some parsed =>
        let host := hostname parsed in
        let path := pathname parsed in
        (* Show host + truncated path *)
        let availableForPath := (maxLen - Z.of_nat (String.length host) - 5)%Z in
        if (10 <? availableForPath)%Z
        then host +:+ "/..." +:+ sliceFrom path (- availableForPath)
        else cut
    end.

End WithPlatform.

End Ui.

(** ** Content similarity (src/utils/dedup.ts) *)

Module Similarity.

(** [\s] on 8-bit code units. *)
Definition isWhite (c : ascii) : bool :=
  Ascii.is_space c || (N_of_ascii c =? 160)%N.

(** [fp.split(/\s+/).filter((w) => w.length > 3)]: the filter drops the
    empty strings, so splitting at every white-space character gives the
    same list as splitting at every run of them. *)
Definition longWords (fp : string) : list string :=
  List.filter (λ w, 3 <? String.length w) (Str.splitBy isWhite fp).

(** The quotient of the two counts is kept exact. *)
Definition calculateSimilarity (fp1 fp2 : string) : Q :=
  if bool_decide (fp1 = fp2) then 1
  else if bool_decide (fp1 = EmptyString) || bool_decide (fp2 = EmptyString)
    then 0
  else
    (* Use Jaccard similarity on word sets *)
    let words1 : gset string := list_to_set (longWords fp1) in
    let words2 : gset string := list_to_set (longWords fp2) in
    if (size words1 =? 0) || (size words2 =? 0) then 0
    else
      let intersection := size (filter (λ word, word ∈ words2) words1) in
      let union := size words1 + size words2 - intersection in
      (inject_Z (Z.of_nat intersection) / inject_Z (Z.of_nat union))%Q.

End Similarity.

(** ** What the parsers and the crawl keep true

    The predicates the properties below are stated with. *)


Module RobotsShape.
Import Robots.

(** A rule block as [parseRobotsTxt] builds it: the user agent in lower
    case, no empty pattern. *)
Definition wellFormed (r : RobotsRule) : Prop :=
  Str.toLowerCase (userAgent r) = userAgent r
  ∧ Forall (λ p, p ≠ EmptyString) (allow r)
  ∧ Forall (λ p, p ≠ EmptyString) (disallow r).

Definition wellFormedAcc (a : Acc) : Prop :=
  Forall wellFormed (acc_rules a)
  ∧ Forall (λ s, s ≠ EmptyString) (acc_sitemaps a)
  ∧ from_option wellFormed True (currentRule a).

End RobotsShape.

Module LocaleShape.
Import Dedup.

(** The variables of [extractLocale] agree: without a locale nothing is
    set; a locale is not empty, comes with a language or a country, and
    the language is a known language code. *)
Definition consistent (v : Vars) : Prop :=
  match v_locale v with
  | None => v_language v = None ∧ v_country v = None
  | Some l =>
      l ≠ EmptyString
      ∧ (is_Some (v_language v) ∨ is_Some (v_country v))
      ∧ ∀ lang, v_language v = Some lang → has LANGUAGE_CODES lang = true
  end.

End LocaleShape.

Module CrawlShape.
Import Crawler.

Definition taskOf (r : CrawlResult.t) : string * nat :=
  (CrawlResult.url r, CrawlResult.depth r).

(** The pages a crawler has taken on, as (URL, depth): those yielded,
    those buffered and those still a task of the queue. *)
Definition owned (c : State) : list (string * nat) :=
  (taskOf <$> yielded c) ++ (taskOf <$> results c) ++ queue c.

Section WithPlatform.
Context {P : Platform}.

(** The entry of the visited set a page was taken on under. *)
Definition key (task : string * nat) : string := UrlUtil.normalizeUrl task.1.

(** What admission guarantees for a page: it lies on a base host; at
    depth 0 it is a start URL (normalized); at any other depth it parsed,
    is no resource to skip and passed the include and exclude patterns. *)
Definition Legit (opts : CrawlOptions.t) (seeds : list string)
    (task : string * nat) : Prop :=
  (UrlUtil.getBaseDomain task.1
     ∈ (list_to_set (map UrlUtil.getBaseDomain seeds) : gset string))
  ∧ (task.2 = 0 → task.1 ∈ seeds)
  ∧ (task.2 ≠ 0 →
     UrlUtil.shouldSkipUrl task.1 = false
     ∧ testPattern (CrawlOptions.includePattern opts) true task.1 = true
     ∧ testPattern (CrawlOptions.excludePattern opts) false task.1 = false).

(** A list of pages, each admitted and marked visited, no two under the
    same entry of the visited set. *)
Definition Tracked (opts : CrawlOptions.t) (seeds : list string)
    (seen : gset string) (pages : list (string * nat)) : Prop :=
  Forall (Legit opts seeds) pages
  ∧ Forall (λ task, key task ∈ seen) pages
  ∧ NoDup (key <$> pages).

(** What a crawl keeps true of its state. *)
Definition Kept (opts : CrawlOptions.t) (seeds : list string) (c : State)
  : Prop :=
  options c = opts
  ∧ baseHosts c = list_to_set (map UrlUtil.getBaseDomain seeds)
  ∧ Tracked opts seeds (visited c) (owned c)
  ∧ Forall (λ r, 20 ≤ ExtractResult.wordCount (CrawlResult.extracted r))
           (yielded c ++ results c).

End WithPlatform.

End CrawlShape.

(** ** A small runtime, to run the model on concrete URLs

    [scheme://host/path?query#fragment] with scheme [http] or [https], no
    credentials, no port, no percent-encoding. *)

Module SimplePlatform.

(** The longest prefix of [s] whose characters satisfy [p], and the rest. *)
Fixpoint span (p : ascii → bool) (s : string) : string * string :=
  match s with
  | EmptyString => (EmptyString, EmptyString)
  | String c s' =>
      if p c then let '(a, b) := span p s' in (String c a, b)
      else (EmptyString, s)
  end.

Definition isNot (cs : list ascii) (c : ascii) : bool :=
  negb (existsb (Ascii.eqb c) cs).

Definition parseParam (kv : string) : string * string :=
  let '(k, v) := span (isNot ["="%char]) kv in (k, Str.drop 1 v).

Definition parseQuery (query : string) : list (string * string) :=
  map parseParam
    (List.filter (λ kv, negb (bool_decide (kv = EmptyString)))
                 (Str.split "&" query)).

Definition parseAfterScheme (scheme rest : string) : option URL :=
  let '(host, afterHost) := span (isNot ["/"; "?"; "#"]%char) rest in
  if bool_decide (host = EmptyString) then None
  else
    let '(beforeHash, _) := span (isNot ["#"%char]) afterHost in
    let '(path, afterPath) := span (isNot ["?"%char]) beforeHash in
    let query := Str.drop 1 afterPath in
    Some {| origin := scheme +:+ host;
            hostname := Str.toLowerCase host;
            pathname := if bool_decide (path = EmptyString) then "/" else path;
            search := if bool_decide (query = EmptyString) then EmptyString
                      else "?" +:+ query;
            searchParams := parseQuery query |}.

Definition parse (s : string) : option URL :=
  if Str.startsWith s "https://" then parseAfterScheme "https://" (Str.drop 8 s)
  else if Str.startsWith s "http://" then parseAfterScheme "http://" (Str.drop 7 s)
  else None.

Fixpoint join (ps : list (string * string)) : string :=
  match ps with
  | [] => EmptyString
  | [(k, v)] => k +:+ "=" +:+ v
  | (k, v) :: rest => k +:+ "=" +:+ v +:+ "&" +:+ join rest
  end.

(** Unsigned decimals: digits, optionally a point and more digits. *)
Fixpoint digits (acc : N) (s : string) : N * string :=
  match s with
  | EmptyString => (acc, EmptyString)
  | String c s' =>
      match Ascii.is_nat c with
      | Some d => digits (acc * 10 + N.of_nat d) s'
      | None => (acc, s)
      end
  end.

Definition float (s : string) : option Q :=
  match s with
  | EmptyString => None
  | String c _ =>
      match Ascii.is_nat c with
      | None => None
      | Some _ =>
          let '(whole, rest) := digits 0 s in
          match rest with
          | String dot frac =>
              if Ascii.eqb dot "." then
                let '(num, rest') := digits 0 frac in
                let places := (String.length frac - String.length rest')%nat in
                Some (Qred (inject_Z (Z.of_N whole) +
                            (Z.of_N num # Pos.of_nat (10 ^ places))))
              else Some (inject_Z (Z.of_N whole))
          | EmptyString => Some (inject_Z (Z.of_N whole))
          end
      end
  end.

Definition simple : Platform :=
  {| url_parse := parse; params_toString := join; parseFloat := float |}.

End SimplePlatform.

(** ** Concrete inputs

    The pages, rules, engines, sitemaps and crawl the properties below are
    run on. *)

Module Demo.

Import SimplePlatform.

(** *** Block detection *)

Definition px_page : string := "perimeterx".

Definition long_cf_page : string :=
  "cloudflare ray id: " +:+ Str.replicate (N.to_nat 50000) "x".

(** *** Engines: the plain fetch is rate limited, the browser gets the page,
    the stealth browser fails. *)

Definition respond (e : Waterfall.EngineName) (url : string)
    (_ : Waterfall.EngineOptions) (w : unit)
  : result Waterfall.RawResult * unit :=
  match e with
  | Waterfall.Fetch =>
      (Returns {| Waterfall.raw_html := "Too Many Requests";
                  Waterfall.raw_statusCode := 429;
                  Waterfall.raw_finalUrl := url |}, w)
  | Waterfall.Playwright =>
      (Returns {| Waterfall.raw_html := "<main>Welcome to the docs</main>";
                  Waterfall.raw_statusCode := 200;
                  Waterfall.raw_finalUrl := url |}, w)
  | Waterfall.Rebrowser => (Throws, w)
  end.

Definition rt : @Waterfall.Runtime unit :=
  {| Waterfall.engine_fetch := respond;
     Waterfall.isPlaywrightInstalled := λ w, (true, w);
     Waterfall.installBrowser := λ w, (true, w) |}.

Definition engineOptions (forced : option Waterfall.EngineName)
  : Waterfall.EngineOptions :=
  {| Waterfall.timeout := None; Waterfall.userAgent := None;
     Waterfall.headers := []; Waterfall.forceEngine := forced;
     Waterfall.authStatePath := None |}.

Definition home : string := "https://example.com/".

(** *** robots.txt *)

Definition rule_a : Robots.RobotsRule :=
  {| Robots.userAgent := "*"; Robots.allow := ["/a/b"];
     Robots.disallow := ["/a"]; Robots.crawlDelay := None |}.

Definition rule_x : Robots.RobotsRule :=
  {| Robots.userAgent := "*"; Robots.allow := ["/x"];
     Robots.disallow := ["/x"]; Robots.crawlDelay := None |}.

Definition robots_a : string :=
  "# docs
User-agent: *
Disallow: /a
Allow: /a/b
Sitemap: https://example.com/sitemap.xml".

Definition robots_x : string :=
  "User-agent: *
Disallow: /x
Allow: /x".

Definition parsed (text : string) : Robots.RobotsParser :=
  match Robots.parse (P := simple) Robots.empty home
          (Response true (Returns text)) with
  | Returns rp => rp
  | Throws => Robots.empty
  end.

(** *** Sitemaps: an index of 10 children of 500 URLs each *)

Definition childUrl (k : nat) : string :=
  "https://example.com/sitemap-" +:+ pretty k +:+ ".xml".

Definition indexDocument : string := "<sitemapindex>".

(** A child answers with a document that names it. *)
Definition childDocument (url : string) : string := "<urlset>" +:+ url.

Definition pageUrl (child : string) (j : nat) : string :=
  child +:+ "#" +:+ pretty j.

Definition http (url : string) (w : unit) : HttpOutcome * unit :=
  (Response true (Returns (childDocument url)), w).

Definition select_text (selector content : string) : list string :=
  if bool_decide (selector = "sitemap loc") then
    if Str.startsWith content "<sitemapindex" then map childUrl (seq 0 10)
    else []
  else if bool_decide (selector = "url loc") then
    if Str.startsWith content "<urlset>"
    then map (pageUrl (Str.drop 8 content)) (seq 0 500)
    else []
  else [].

Definition net0 : @Sitemap.Net unit :=
  {| Sitemap.world := tt; Sitemap.requested := [] |}.

(** *** Locale variants *)

Definition en_url : string := "https://example.com/en/docs/guide".
Definition de_url : string := "https://example.com/de/docs/guide".
Definition plain_url : string := "https://example.com/docs/guide".

Definition tracker0 : Dedup.DedupTracker := Dedup.create "en".

(** The tracker after [shouldSkip(url)], unchanged if the call throws. *)
Definition seen (t : Dedup.DedupTracker) (url : string) : Dedup.DedupTracker :=
  match Dedup.shouldSkip (P := simple) t url with
  | Returns (_, t') => t'
  | Throws => t
  end.

(** *** A crawl of one start URL with a budget of 2 pages and depth 1 *)

Definition crawlOptions : CrawlOptions.t :=
  {| CrawlOptions.depth := 1;
     CrawlOptions.concurrency := 10;
     CrawlOptions.maxPages := 2;
     CrawlOptions.rateLimit := 10;
     CrawlOptions.timeout := 10000;
     CrawlOptions.respectRobots := true;
     CrawlOptions.useSitemap := true;
     CrawlOptions.includePattern := None;
     CrawlOptions.excludePattern := None;
     CrawlOptions.forceEngine := None;
     CrawlOptions.useAuth := None |}.

Definition seeded : Crawler.State :=
  Crawler.seed (P := simple) (Crawler.create crawlOptions) [home].

Definition homeFetched : Waterfall.EngineResult :=
  {| Waterfall.html := "<main>Welcome to the docs</main>";
     Waterfall.statusCode := 200;
     Waterfall.engine := Waterfall.Fetch;
     Waterfall.blocked := false;
     Waterfall.blockReason := None;
     Waterfall.finalUrl := home |}.

Definition homeExtracted : ExtractResult.t :=
  {| ExtractResult.title := "Docs";
     ExtractResult.markdown := "# Docs";
     ExtractResult.description := "";
     ExtractResult.author := None;
     ExtractResult.publishedDate := None;
     ExtractResult.links := [de_url; en_url; "https://other.org/"];
     ExtractResult.wordCount := 120;
     ExtractResult.byteSize := 900 |}.

(** The task of the start URL completes ... *)
Definition afterHome : Crawler.State :=
  Crawler.processUrl (P := simple) (Crawler.withQueue seeded ([] ++ []))
    home 0 (Returns homeFetched) (Returns homeExtracted).

Definition homeResult : CrawlResult.t :=
  {| CrawlResult.url := home;
     CrawlResult.finalUrl := home;
     CrawlResult.extracted := homeExtracted;
     CrawlResult.depth := 0;
     CrawlResult.engine := Waterfall.Fetch |}.

(** ... the generator enters the drain loop and yields its result. *)
Definition afterYield : Crawler.State :=
  Crawler.yieldResult (Crawler.withPhase afterHome Crawler.Drain) homeResult [].

End Demo.

(** ** More concrete inputs *)

Module Samples.

Import SimplePlatform Demo.

(** *** Engines that all get the page *)

Definition deliver (e : Waterfall.EngineName) (url : string)
    (_ : Waterfall.EngineOptions) (w : unit)
  : result Waterfall.RawResult * unit :=
  (Returns {| Waterfall.raw_html := "<main>Welcome to the docs</main>";
              Waterfall.raw_statusCode := 200;
              Waterfall.raw_finalUrl := url |}, w).

Definition calm : @Waterfall.Runtime unit :=
  {| Waterfall.engine_fetch := deliver;
     Waterfall.isPlaywrightInstalled := λ w, (true, w);
     Waterfall.installBrowser := λ w, (true, w) |}.

Definition welcome (url : string) : Waterfall.RawResult :=
  {| Waterfall.raw_html := "<main>Welcome to the docs</main>";
     Waterfall.raw_statusCode := 200;
     Waterfall.raw_finalUrl := url |}.

(** *** A network that is down *)

Definition offline (url : string) (w : unit) : HttpOutcome * unit :=
  (NetworkError, w).

Definition noCache : Sitemap.SitemapParser := {| Sitemap.cache := ∅ |}.

Definition homeUrl : URL :=
  {| origin := "https://example.com"; hostname := "example.com";
     pathname := "/"; search := ""; searchParams := [] |}.

(** *** The demo crawl goes on: the German page, queued at depth 1, is
    fetched and its result yielded. *)

Definition deFetched : Waterfall.EngineResult :=
  {| Waterfall.html := "<main>Willkommen</main>";
     Waterfall.statusCode := 200;
     Waterfall.engine := Waterfall.Fetch;
     Waterfall.blocked := false;
     Waterfall.blockReason := None;
     Waterfall.finalUrl := de_url |}.

Definition deExtracted : ExtractResult.t :=
  {| ExtractResult.title := "Anleitung";
     ExtractResult.markdown := "# Anleitung";
     ExtractResult.description := "";
     ExtractResult.author := None;
     ExtractResult.publishedDate := None;
     ExtractResult.links := [home];
     ExtractResult.wordCount := 80;
     ExtractResult.byteSize := 600 |}.

Definition deResult : CrawlResult.t :=
  {| CrawlResult.url := de_url;
     CrawlResult.finalUrl := de_url;
     CrawlResult.extracted := deExtracted;
     CrawlResult.depth := 1;
     CrawlResult.engine := Waterfall.Fetch |}.

Definition afterGerman : Crawler.State :=
  Crawler.processUrl (P := simple) (Crawler.withQueue afterYield ([] ++ []))
    de_url 1 (Returns deFetched) (Returns deExtracted).

Definition afterSecondYield : Crawler.State :=
  Crawler.yieldResult afterGerman deResult [].

(** *** [clippy] on one specific page, no option given *)

Definition noOptions : Clippy.ClippyOptions :=
  {| Clippy.depth := None; Clippy.concurrency := None;
     Clippy.maxPages := None; Clippy.rateLimit := None;
     Clippy.timeout := None; Clippy.includePattern := None;
     Clippy.excludePattern := None; Clippy.useSitemap := None;
     Clippy.respectRobots := None; Clippy.forceEngine := None;
     Clippy.useAuth := None |}.

Definition pageOptions : CrawlOptions.t :=
  Clippy.crawlerOptions (P := simple) noOptions [plain_url].

Definition pageSeeded : Crawler.State :=
  Crawler.seed (P := simple) (Crawler.create pageOptions) [plain_url].

Definition pageFetched : Waterfall.EngineResult :=
  {| Waterfall.html := "<main>The guide</main>";
     Waterfall.statusCode := 200;
     Waterfall.engine := Waterfall.Fetch;
     Waterfall.blocked := false;
     Waterfall.blockReason := None;
     Waterfall.finalUrl := plain_url |}.

Definition pageExtracted : ExtractResult.t :=
  {| ExtractResult.title := "Guide";
     ExtractResult.markdown := "# Guide";
     ExtractResult.description := "";
     ExtractResult.author := None;
     ExtractResult.publishedDate := None;
     ExtractResult.links := [home; en_url];
     ExtractResult.wordCount := 300;
     ExtractResult.byteSize := 2000 |}.

Definition pageResult : CrawlResult.t :=
  {| CrawlResult.url := plain_url;
     CrawlResult.finalUrl := plain_url;
     CrawlResult.extracted := pageExtracted;
     CrawlResult.depth := 0;
     CrawlResult.engine := Waterfall.Fetch |}.

Definition afterPage : Crawler.State :=
  Crawler.processUrl (P := simple) (Crawler.withQueue pageSeeded ([] ++ []))
    plain_url 0 (Returns pageFetched) (Returns pageExtracted).

Definition afterPageYield : Crawler.State :=
  Crawler.yieldResult (Crawler.withPhase afterPage Crawler.Drain) pageResult [].

(** *** Links: a relative link is put under the base it is given *)

Definition under (href base : string) : option string :=
  Some (base +:+ "/" +:+ href).

Definition long_url : string :=
  "https://example.com/docs/guides/getting-started/installation/linux/index.html".

(** *** robots.txt: a short Allow and a longer Disallow *)

Definition rule_deep : Robots.RobotsRule :=
  {| Robots.userAgent := "*"; Robots.allow := ["/a"];
     Robots.disallow := ["/a/b"]; Robots.crawlDelay := None |}.

(** *** The start URL redirects to another site *)

Definition elsewhere : string := "https://other.org/".

Definition movedFetched : Waterfall.EngineResult :=
  {| Waterfall.html := "<main>Welcome to the docs</main>";
     Waterfall.statusCode := 200;
     Waterfall.engine := Waterfall.Fetch;
     Waterfall.blocked := false;
     Waterfall.blockReason := None;
     Waterfall.finalUrl := elsewhere |}.

Definition movedResult : CrawlResult.t :=
  {| CrawlResult.url := home;
     CrawlResult.finalUrl := elsewhere;
     CrawlResult.extracted := homeExtracted;
     CrawlResult.depth := 0;
     CrawlResult.engine := Waterfall.Fetch |}.

Definition afterMoved : Crawler.State :=
  Crawler.processUrl (P := simple) (Crawler.withQueue seeded ([] ++ []))
    home 0 (Returns movedFetched) (Returns homeExtracted).

Definition afterMovedYield : Crawler.State :=
  Crawler.yieldResult (Crawler.withPhase afterMoved Crawler.Drain) movedResult [].

End Samples.

(** * Properties *)

(** ** The block detector *)

Section DetectorFacts.
Import Detector Demo.

Lemma matches_cons (p : pattern) (ps : list pattern) (html : string) :
  matches (p :: ps) html = (if test html p then 1 else 0) + matches ps html.
Proof.
  unfold matches. rewrite filter_cons.
  destruct (decide (test html p = true)) as [->|Hn]; [reflexivity|].
  apply not_true_is_false in Hn. rewrite Hn. reflexivity.
Qed.

Lemma matches_nil (html : string) : matches [] html = 0.
Proof. reflexivity. Qed.

Lemma some_matches (ps : list pattern) (html : string) :
  some ps html = true ↔ 1 ≤ matches ps html.
Proof.
  induction ps as [|p ps IH].
  - cbn. split; [discriminate | lia].
  - rewrite matches_cons. unfold some in *. cbn [existsb].
    destruct (test html p); cbn; [split; [lia | reflexivity] | exact IH].
Qed.

(** A page that opens with two Cloudflare markers is classified as a
    Cloudflare block whatever follows, as soon as it has 500 characters. *)
Lemma cloudflare_any_length (pad : string) :
  let html := "cloudflare ray id: " +:+ pad in
  (500 ≤ Str.length html)%N →
  isBlocked html 200 "" = block cloudflare 0.9.
Proof.
  intros html Hlen. unfold isBlocked.
  assert (bool_decide (html = EmptyString) = false) as -> by reflexivity.
  assert ((Str.length html <? 500)%N = false) as -> by (apply N.ltb_ge, Hlen).
  assert ((2 <=? matches CLOUDFLARE_PATTERNS html) = true) as ->.
  { unfold CLOUDFLARE_PATTERNS. rewrite !matches_cons, matches_nil.
    assert (test html (ci "cloudflare") = true) as -> by (vm_compute; reflexivity).
    assert (test html (ci "ray id:") = true) as -> by (vm_compute; reflexivity).
    repeat match goal with
           | |- context [if ?b then 1 else 0] => destruct b
           end; reflexivity. }
  reflexivity.
Qed.

Lemma length_append (a b : string) :
  String.length (a +:+ b) = String.length a + String.length b.
Proof.
  induction a as [|c a IH]; [reflexivity |].
  change (String c a +:+ b) with (String c (a +:+ b)).
  cbn [String.length Nat.add]. rewrite IH. reflexivity.
Qed.

Lemma length_replicate (n : nat) (c : ascii) :
  String.length (Str.replicate n c) = n.
Proof. induction n as [|n IH]; cbn; [reflexivity | rewrite IH; reflexivity]. Qed.

Lemma long_cf_page_length : (50000 ≤ Str.length long_cf_page)%N.
Proof.
  unfold Str.length, long_cf_page.
  rewrite length_append, length_replicate. lia.
Qed.

(** C7, as stated, fails twice: one PerimeterX marker is enough for the
    PerimeterX block, and the Cloudflare block has no ceiling on the body
    length (here a page of more than 50000 characters). *)
Lemma provider_block_counterexample :
  (isBlocked px_page 200 "" = block access_denied 0.85
   ∧ matches PERIMETERX_PATTERNS px_page = 1)
  ∧ (isBlocked long_cf_page 200 "" = block cloudflare 0.9
     ∧ (50000 ≤ Str.length long_cf_page)%N).
Proof.
  split; [split; vm_compute; reflexivity |].
  split; [| exact long_cf_page_length].
  apply cloudflare_any_length.
  pose proof long_cf_page_length as Hl. unfold long_cf_page in Hl. lia.
Qed.

(** C7 (amended): what each provider-specific classification requires.
    DataDome: at least 2 markers and a body under 50000 characters.
    PerimeterX (access_denied, 0.85): at least 1 marker and a body under
    50000 characters.  Akamai (access_denied, 0.8): at least 2 markers and
    a body under 50000 characters.  Cloudflare: at least 2 markers, or
    status 503 and at least 1 marker; no bound on the body. *)
Theorem isBlocked_provider_blocks (html : string) (statusCode : nat) (u : string) :
  let r := isBlocked html statusCode u in
  (reason r = Some datadome →
     2 ≤ matches DATADOME_PATTERNS html ∧ (Str.length html < 50000)%N)
  ∧ (r = block access_denied 0.85 →
     1 ≤ matches PERIMETERX_PATTERNS html ∧ (Str.length html < 50000)%N)
  ∧ (r = block access_denied 0.8 →
     2 ≤ matches AKAMAI_PATTERNS html ∧ (Str.length html < 50000)%N)
  ∧ (reason r = Some cloudflare →
     (statusCode = 503 ∧ 1 ≤ matches CLOUDFLARE_PATTERNS html)
     ∨ 2 ≤ matches CLOUDFLARE_PATTERNS html).
Proof.
  intros r. subst r. unfold isBlocked.
  repeat match goal with
         | |- context [if ?b then block _ _ else _] => destruct b eqn:?
         end;
    (split; [| split; [| split]]); cbn; intros Heq; try discriminate Heq;
    repeat match goal with
           | E : (_ && _) = true |- _ => apply andb_true_iff in E as [? ?]
           | E : (_ <=? _) = true |- _ => apply Nat.leb_le in E
           | E : (_ <? _)%N = true |- _ => apply N.ltb_lt in E
           | E : some _ _ = true |- _ => apply some_matches in E
           | E : bool_decide _ = true |- _ => apply bool_decide_eq_true in E
           end;
    auto.
Qed.

(** The thresholds are met by actual pages. *)
Example datadome_block :
  isBlocked "<script src=dd.js></script> datadome" 200 "" = block datadome 0.9.
Proof. vm_compute. reflexivity. Qed.

Example akamai_block :
  isBlocked "ak_bmsc=1; _abck=2" 200 "" = block access_denied 0.8.
Proof. vm_compute. reflexivity. Qed.

Example akamai_single_marker :
  isBlocked "served by akamai" 200 "" =
  {| blocked := false; reason := None; confidence := 0 |}.
Proof. vm_compute. reflexivity. Qed.

Example rate_limit_block (html u : string) :
  isBlocked html 429 u = block rate_limit 0.95.
Proof. reflexivity. Qed.

End DetectorFacts.

(** ** The engine waterfall *)

Section WaterfallFacts.
Import Waterfall.
Context {P : Platform} {World : Type} (rt : @Runtime World).

Lemma ensureBrowserInstalled_state st w ok st' w' :
  ensureBrowserInstalled rt st w = (ok, st', w') →
  stats st' = stats st ∧ invoked st' = invoked st ∧ engines st' = engines st.
Proof.
  unfold ensureBrowserInstalled.
  destruct (isPlaywrightInstalled rt w) as [b w1].
  destruct b; [intros [= <- <- <-]; auto |].
  destruct (browserInstallPromise st); [intros [= <- <- <-]; auto |].
  destruct (installBrowser rt w1) as [b2 w2]. intros [= <- <- <-]. auto.
Qed.

Lemma callEngine_spec url e o st w r st' w' :
  callEngine rt url e o st w = (r, st', w') →
  stats st' = stats st ∧ invoked st' = invoked st ++ [e] ∧
  ∃ r0, engine_fetch rt e url o w = (r0, w') ∧
    match r0 with
    | Throws => r = Throws
    | Returns raw =>
        ∃ res, r = Returns res ∧ engine res = e ∧
               blocked res = classifiedBlocked url raw ∧
               html res = raw_html raw ∧ statusCode res = raw_statusCode raw
    end.
Proof.
  unfold callEngine. destruct (engine_fetch rt e url o w) as [r0 w1].
  destruct r0 as [raw|]; intros [= <- <- <-]; cbn;
    (split; [reflexivity | split; [reflexivity |]]).
  - exists (Returns raw). split; [reflexivity |]. eexists. split; [reflexivity |].
    cbn. auto.
  - exists Throws. auto.
Qed.

(** [fetchWithEngine] calls no engine but [e], at most once, and leaves
    the counters alone. *)
Lemma fetchWithEngine_spec url e o st w r st' w' :
  fetchWithEngine rt url e o st w = (r, st', w') →
  stats st' = stats st ∧
  ((invoked st' = invoked st ∧ r = Throws ∧ e ≠ Fetch)
   ∨ (invoked st' = invoked st ++ [e] ∧
      ∃ w0 r0, engine_fetch rt e url o w0 = (r0, w') ∧
        match r0 with
        | Throws => r = Throws
        | Returns raw =>
            ∃ res, r = Returns res ∧ engine res = e ∧
                   blocked res = classifiedBlocked url raw ∧
                   html res = raw_html raw ∧
                   statusCode res = raw_statusCode raw
        end)).
Proof.
  unfold fetchWithEngine. intros Hf.
  assert (∀ st0 w0, callEngine rt url e o st0 w0 = (r, st', w') →
            stats st0 = stats st → invoked st0 = invoked st →
            stats st' = stats st ∧
            ((invoked st' = invoked st ∧ r = Throws ∧ e ≠ Fetch)
             ∨ (invoked st' = invoked st ++ [e] ∧
                ∃ w0 r0, engine_fetch rt e url o w0 = (r0, w') ∧
                  match r0 with
                  | Throws => r = Throws
                  | Returns raw =>
                      ∃ res, r = Returns res ∧ engine res = e ∧
                             blocked res = classifiedBlocked url raw ∧
                             html res = raw_html raw ∧
                             statusCode res = raw_statusCode raw
                  end))) as Hcall.
  { intros st0 w0 Hc Hs Hi.
    apply callEngine_spec in Hc as (Hs' & Hi' & r0 & Hr0 & Hm).
    split; [congruence |]. right. split; [congruence |]. eauto. }
  destruct e.
  - eapply Hcall; eauto.
  - destruct (ensureBrowserInstalled rt st w) as [[ok st1] w1] eqn:He.
    apply ensureBrowserInstalled_state in He as (Hs & Hi & _).
    destruct ok; [eapply Hcall; eauto |].
    injection Hf as <- <- <-. split; [exact Hs |]. left. auto.
  - destruct (ensureBrowserInstalled rt st w) as [[ok st1] w1] eqn:He.
    apply ensureBrowserInstalled_state in He as (Hs & Hi & _).
    destruct ok; [eapply Hcall; eauto |].
    injection Hf as <- <- <-. split; [exact Hs |]. left. auto.
Qed.

(** The escalation loop returns a result only from an engine of the chain
    whose response was classified not blocked. *)
Lemma tryEngines_returns enginesToTry url o st w res st' w' :
  tryEngines rt enginesToTry url o st w = (Returns res, st', w') →
  blocked res = false ∧
  ∃ cfg o' w0 raw w1,
    cfg ∈ enginesToTry ∧ engine res = name cfg ∧
    engine_fetch rt (name cfg) url o' w0 = (Returns raw, w1) ∧
    classifiedBlocked url raw = false.
Proof.
  revert st w. induction enginesToTry as [|cfg rest IH]; intros st w; cbn.
  - discriminate.
  - destruct (fetchWithEngine rt url (name cfg) _ st w) as [[r st1] w1] eqn:Hf.
    assert (tryEngines rt rest url o st1 w1 = (Returns res, st', w') →
            blocked res = false ∧
            ∃ cfg0 o' w0 raw w2,
              cfg0 ∈ cfg :: rest ∧ engine res = name cfg0 ∧
              engine_fetch rt (name cfg0) url o' w0 = (Returns raw, w2) ∧
              classifiedBlocked url raw = false) as Hrest.
    { intros Ht. apply IH in Ht as (Hb & cfg0 & o' & w0 & raw & w2 & Hin & ?).
      split; [exact Hb |]. exists cfg0, o', w0, raw, w2.
      split; [right; exact Hin | assumption]. }
    destruct r as [res1|]; [| exact Hrest].
    destruct (blocked res1) eqn:Hb; [exact Hrest |].
    intros [= <- <- <-]. split; [exact Hb |].
    apply fetchWithEngine_spec in Hf
      as (_ & [(_ & [=] & _) | (_ & w0 & r0 & Hr0 & Hm)]).
    destruct r0 as [raw|]; [| discriminate Hm].
    destruct Hm as (res2 & [= <-] & He & Hbl & _).
    exists cfg. eexists. exists w0, raw, w1. split; [left |].
    split; [exact He |]. split; [exact Hr0 | congruence].
Qed.

(** C6: without a forced engine the waterfall returns only an answer
    classified not blocked, and when the answer the cheap strategy gives for
    the URL in this call is classified blocked (status 429, say), the
    result returned is not the cheap strategy's; with a forced engine the
    waterfall is one call of [fetchWithEngine] for that engine, whose answer
    is returned blocked or not: the counters stay as they are, and no engine
    is invoked but the forced one, once (or not at all, the call failing,
    when the browser runtime is missing). *)
Theorem waterfall_escalation (url : string) (options : EngineOptions)
    (st : State) (w : World) :
  (forceEngine options = None →
   ∀ res st' w', fetch rt url options st w = (Returns res, st', w') →
     blocked res = false
     ∧ ∀ raw w1,
         engine_fetch rt Fetch url
           (withTimeout options (Some (timeoutOr options 5000))) w
         = (Returns raw, w1) →
         classifiedBlocked url raw = true →
         engine res ≠ Fetch)
  ∧ (∀ forced, forceEngine options = Some forced →
     fetch rt url options st w = fetchWithEngine rt url forced options st w
     ∧ ∀ r st' w', fetch rt url options st w = (r, st', w') →
         stats st' = stats st
         ∧ (invoked st' = invoked st ++ [forced]
            ∨ (invoked st' = invoked st ∧ r = Throws ∧ forced ≠ Fetch))
         ∧ (∀ res, r = Returns res → engine res = forced)).
Proof.
  split.
  - intros Hnone res st' w' Hf. unfold fetch in Hf. rewrite Hnone in Hf.
    split.
    { apply tryEngines_returns in Hf as (Hb & _). exact Hb. }
    intros raw w1 Hcheap Hblocked.
    assert (∀ st0 w0,
              tryEngines rt (drop 1 ENGINES) url options st0 w0
              = (Returns res, st', w') → engine res ≠ Fetch) as Hbrowsers.
    { intros st0 w0 Ht.
      apply tryEngines_returns in Ht as (_ & cfg & _ & _ & _ & _ & Hin & He & _).
      rewrite He. cbn in Hin.
      apply elem_of_cons in Hin as [-> | Hin]; [discriminate |].
      apply elem_of_cons in Hin as [-> | Hin]; [discriminate | inversion Hin]. }
    destruct (Detector.needsBrowser url); [eapply Hbrowsers; exact Hf |].
    cbn [drop ENGINES tryEngines name defaultTimeout fetchWithEngine] in Hf.
    unfold callEngine in Hf. rewrite Hcheap in Hf.
    fold (classifiedBlocked url raw) in Hf. cbn [blocked] in Hf.
    rewrite Hblocked in Hf. eapply Hbrowsers. exact Hf.
  - intros forced Hforced. unfold fetch. rewrite Hforced.
    split; [reflexivity |]. intros r st' w' Hf.
    apply fetchWithEngine_spec in Hf
      as (Hs & [(Hi & Hr & Hne) | (Hi & w0 & r0 & Hr0 & Hm)]).
    + split; [exact Hs |]. split; [right; auto |]. intros res ->. discriminate.
    + split; [exact Hs |]. split; [left; exact Hi |].
      intros res ->. destruct r0 as [raw|]; [| discriminate].
      destruct Hm as (res' & [= <-] & He & _). exact He.
Qed.

End WaterfallFacts.

(** ** robots.txt *)

Section RobotsFacts.
Import Robots Demo.
Context {P : Platform}.

Lemma pick_cases (best current : Match) :
  (pick best current = current ∧ (len best ≤ len current)%N
     ∧ (len best = len current → isAllow current = true))
  ∨ (pick best current = best ∧ (len current ≤ len best)%N
     ∧ (len best = len current → isAllow current = false)).
Proof.
  unfold pick, len.
  destruct (Str.length (pattern best) <? Str.length (pattern current))%N eqn:E1.
  - apply N.ltb_lt in E1. left. split; [reflexivity |]. split; lia.
  - apply N.ltb_ge in E1.
    destruct (Str.length (pattern current) =? Str.length (pattern best))%N eqn:E2;
      cbn.
    + apply N.eqb_eq in E2. destruct (isAllow current) eqn:E3.
      * left. split; [reflexivity |]. split; [lia | auto].
      * right. split; [reflexivity |]. split; [lia | auto].
    + apply N.eqb_neq in E2. right. split; [reflexivity |]. split; [lia |].
      intros Heq. congruence.
Qed.

(** What [matches.reduce] returns: an element of maximal length, and an
    allow pattern as soon as some allow pattern has that length. *)
Lemma reduce_pick (rest : list Match) (first : Match) :
  let best := fold_left pick rest first in
  (best = first ∨ best ∈ rest)
  ∧ (∀ m, m = first ∨ m ∈ rest → (len m ≤ len best)%N)
  ∧ (∀ m, m = first ∨ m ∈ rest →
          isAllow m = true → len m = len best → isAllow best = true).
Proof.
  revert first. induction rest as [|c rest IH]; intros first; cbn.
  - split; [left; reflexivity |]. split.
    + intros m [-> | Hin]; [lia | inversion Hin].
    + intros m [-> | Hin]; [auto | inversion Hin].
  - destruct (IH (pick first c)) as (Hin & Hmax & Hallow).
    set (best := fold_left pick rest (pick first c)) in *.
    assert (len (pick first c) ≤ len best)%N as Hp by (apply Hmax; left; reflexivity).
    destruct (pick_cases first c) as [(Hpk & Hle & Hal) | (Hpk & Hle & Hal)];
      rewrite Hpk in *.
    + split; [destruct Hin as [-> | Hin]; right; [left | right; exact Hin] |].
      split.
      * intros m [-> | Hm]; [lia |].
        apply elem_of_cons in Hm as [-> | Hm]; [exact Hp | apply Hmax; right; exact Hm].
      * intros m [-> | Hm] Ha Hl.
        -- apply (Hallow c); [left; reflexivity | apply Hal; lia | lia].
        -- apply elem_of_cons in Hm as [-> | Hm];
             [apply (Hallow c); auto | apply (Hallow m); auto].
    + split; [destruct Hin as [-> | Hin]; [left; reflexivity | right; right; exact Hin] |].
      split.
      * intros m [-> | Hm]; [exact Hp |].
        apply elem_of_cons in Hm as [-> | Hm]; [lia | apply Hmax; right; exact Hm].
      * intros m [-> | Hm] Ha Hl.
        -- apply (Hallow first); auto.
        -- apply elem_of_cons in Hm as [-> | Hm]; [| apply (Hallow m); auto].
           assert (len first = len c) as Heq by lia.
           apply Hal in Heq. congruence.
Qed.

Lemma isAllowed_unfold (rp : RobotsParser) (url agent : string) (u : URL)
    (hostRules : list RobotsRule) :
  url_parse url = Some u →
  rules rp !! hostname u = Some hostRules →
  isAllowed rp url agent =
  match collect (pathname u +:+ search u) (matchingRules agent hostRules) with
  | [] => true
  | first :: rest => isAllow (fold_left pick rest first)
  end.
Proof.
  intros Hu Hr. unfold isAllowed. rewrite Hu, Hr.
  destruct hostRules as [|r0 rs]; reflexivity.
Qed.

(** The patterns [isAllowed] collects are exactly the allow and disallow
    patterns of the given blocks that match the path. *)
Lemma collect_elem (path : string) (rs : list RobotsRule) (m : Match) :
  m ∈ collect path rs ↔
  ∃ rule, rule ∈ rs
    ∧ pathMatches path (pattern m) = true
    ∧ ((isAllow m = true ∧ pattern m ∈ allow rule)
       ∨ (isAllow m = false ∧ pattern m ∈ disallow rule)).
Proof.
  unfold collect. rewrite list_elem_of_In, in_flat_map. split.
  - intros (rule & Hr & Hin). exists rule. rewrite list_elem_of_In.
    split; [exact Hr |]. apply in_app_iff in Hin as [Hin | Hin];
      apply in_map_iff in Hin as (p & <- & Hp); apply filter_In in Hp as [Hp Hm];
      cbn; rewrite !list_elem_of_In; auto.
  - intros (rule & Hr & Hm & Hcase). exists rule. rewrite <- list_elem_of_In.
    split; [exact Hr |]. apply in_app_iff.
    destruct m as [p a]. cbn in *.
    destruct Hcase as [[-> Hp] | [-> Hp]]; [left | right];
      apply in_map_iff; exists p; (split; [reflexivity |]);
      apply filter_In; rewrite <- list_elem_of_In; auto.
Qed.

Lemma matchingRules_elem (agent : string) (hostRules : list RobotsRule)
    (rule : RobotsRule) :
  rule ∈ matchingRules agent hostRules ↔
  rule ∈ hostRules
  ∧ (userAgent rule = Str.toLowerCase agent ∨ userAgent rule = "*").
Proof.
  unfold matchingRules. rewrite list_elem_of_In, filter_In, <- list_elem_of_In.
  rewrite orb_true_iff, !bool_decide_eq_true. reflexivity.
Qed.

(** C4: the answer of [isAllowed] is decided by the longest pattern, of
    the rule blocks for the user agent or for the star, that matches the
    path and query, an allow pattern winning a tie.  The URL is refused
    exactly when some matching disallow pattern is strictly longer than
    every matching allow pattern, and allowed exactly when every matching
    disallow pattern is at most as long as some matching allow pattern.
    With Disallow: /a and Allow: /a/b the path /a/b/c is allowed and /a/c
    is refused; with Disallow: /x and Allow: /x the path /x is allowed;
    with Allow: /a and Disallow: /a/b the path /a/b/c is refused. *)
Theorem isAllowed_longest_match :
  (∀ (rp : RobotsParser) (url agent : string) (u : URL)
     (hostRules : list RobotsRule),
     url_parse url = Some u →
     rules rp !! hostname u = Some hostRules →
     let path := pathname u +:+ search u in
     let applies (rule : RobotsRule) :=
       rule ∈ hostRules
       ∧ (userAgent rule = Str.toLowerCase agent ∨ userAgent rule = "*") in
     let allows (p : string) :=
       ∃ rule, applies rule ∧ p ∈ allow rule ∧ pathMatches path p = true in
     let disallows (q : string) :=
       ∃ rule, applies rule ∧ q ∈ disallow rule ∧ pathMatches path q = true in
     (isAllowed rp url agent = false ↔
      ∃ q, disallows q ∧ ∀ p, allows p → (Str.length p < Str.length q)%N)
     ∧ (isAllowed rp url agent = true ↔
        ∀ q, disallows q → ∃ p, allows p ∧ (Str.length q ≤ Str.length p)%N))
  ∧ (∀ (rp : RobotsParser) (url : string) (u : URL),
       url_parse url = Some u →
       rules rp !! hostname u = Some [rule_a] →
       (pathname u +:+ search u = "/a/b/c" → isAllowed rp url "*" = true)
       ∧ (pathname u +:+ search u = "/a/c" → isAllowed rp url "*" = false))
  ∧ (∀ (rp : RobotsParser) (url : string) (u : URL),
       url_parse url = Some u →
       pathname u +:+ search u = "/x" →
       rules rp !! hostname u = Some [rule_x] →
       isAllowed rp url "*" = true)
  ∧ (∀ (rp : RobotsParser) (url : string) (u : URL),
       url_parse url = Some u →
       pathname u +:+ search u = "/a/b/c" →
       rules rp !! hostname u = Some [Samples.rule_deep] →
       isAllowed rp url "*" = false).
Proof.
  split; [| split; [| split]].
  - intros rp url agent u hostRules Hu Hr path applies allows disallows.
    rewrite (isAllowed_unfold _ _ _ _ _ Hu Hr). fold path.
    set (ms := collect path (matchingRules agent hostRules)).
    assert (∀ p, allows p ↔ {| pattern := p; isAllow := true |} ∈ ms) as Hal.
    { intros p. subst ms. rewrite collect_elem. cbn. split.
      - intros (rule & Ha & Hp & Hm). exists rule.
        rewrite matchingRules_elem. auto.
      - intros (rule & Hin & Hm & [[_ Hp] | [[=] _]]). exists rule.
        apply matchingRules_elem in Hin. auto. }
    assert (∀ q, disallows q ↔ {| pattern := q; isAllow := false |} ∈ ms) as Hdis.
    { intros q. subst ms. rewrite collect_elem. cbn. split.
      - intros (rule & Ha & Hq & Hm). exists rule.
        rewrite matchingRules_elem. auto.
      - intros (rule & Hin & Hm & [[[=] _] | [_ Hq]]). exists rule.
        apply matchingRules_elem in Hin. auto. }
    destruct ms as [|first rest] eqn:Hms.
    { split.
      - split; [discriminate |]. intros (q & Hq & _). apply Hdis in Hq. inversion Hq.
      - split; [| reflexivity]. intros _ q Hq. apply Hdis in Hq. inversion Hq. }
    destruct (reduce_pick rest first) as (Hin & Hmax & Hallow).
    set (best := fold_left pick rest first) in *.
    assert (best ∈ first :: rest) as Hbest
      by (destruct Hin as [-> | Hin]; [left | right; exact Hin]).
    assert (∀ m, m ∈ first :: rest → (len m ≤ len best)%N) as Hmax'
      by (intros m Hm; apply Hmax; apply elem_of_cons in Hm; exact Hm).
    assert (∀ m, m ∈ first :: rest → isAllow m = true → len m = len best →
                 isAllow best = true) as Hallow'
      by (intros m Hm; apply Hallow; apply elem_of_cons in Hm; exact Hm).
    split.
    + split.
      * intros Hb. exists (pattern best). split.
        { apply Hdis. destruct best as [p a]. cbn in Hb. subst a. exact Hbest. }
        intros p Hp. apply Hal in Hp. pose proof (Hmax' _ Hp) as Hle.
        unfold len in Hle. cbn in Hle.
        destruct (N.eq_dec (Str.length p) (Str.length (pattern best))) as [Heq | Hne];
          [| lia].
        pose proof (Hallow' _ Hp eq_refl Heq) as Ht. congruence.
      * intros (q & Hq & Hshort). apply Hdis in Hq.
        destruct (isAllow best) eqn:Hb; [| reflexivity]. exfalso.
        assert (allows (pattern best)) as Hp.
        { apply Hal. destruct best as [p a]. cbn in Hb. subst a. exact Hbest. }
        apply Hshort in Hp. pose proof (Hmax' _ Hq) as Hle.
        unfold len in Hle. cbn in Hle. lia.
    + split.
      * intros Hb q Hq. apply Hdis in Hq. exists (pattern best). split.
        { apply Hal. destruct best as [p a]. cbn in Hb. subst a. exact Hbest. }
        apply (Hmax' _ Hq).
      * intros Hcover. destruct (isAllow best) eqn:Hb; [reflexivity |]. exfalso.
        assert (disallows (pattern best)) as Hq.
        { apply Hdis. destruct best as [p a]. cbn in Hb. subst a. exact Hbest. }
        destruct (Hcover _ Hq) as (p & Hp & Hle). apply Hal in Hp.
        pose proof (Hmax' _ Hp) as Hle'. unfold len in Hle'. cbn in Hle'.
        assert (len {| pattern := p; isAllow := true |} = len best) as Heq
          by (unfold len in *; cbn in *; lia).
        pose proof (Hallow' _ Hp eq_refl Heq) as Ht. congruence.
  - intros rp url u Hu Hr. split; intros Hp;
      rewrite (isAllowed_unfold _ _ _ _ _ Hu Hr), Hp; reflexivity.
  - intros rp url u Hu Hp Hr.
    rewrite (isAllowed_unfold _ _ _ _ _ Hu Hr), Hp. reflexivity.
  - intros rp url u Hu Hp Hr.
    rewrite (isAllowed_unfold _ _ _ _ _ Hu Hr), Hp. reflexivity.
Qed.

(** C9: when the fetch of robots.txt fails, times out, answers with a
    non-OK status or its body cannot be read, [parse] records the empty
    rule set for the host, and [isAllowed] then allows every URL of that
    host; it also allows every URL of a host without a record. *)
Theorem robots_fail_open :
  (∀ (rp : RobotsParser) (url : string) (resp : HttpOutcome) (u : URL),
     url_parse url = Some u →
     rules rp !! hostname u = None →
     (resp = NetworkError ∨ (∃ body, resp = Response false body)
      ∨ resp = Response true Throws) →
     ∃ rp', parse rp url resp = Returns rp'
            ∧ rules rp' !! hostname u = Some []
            ∧ ∀ (url' agent : string) (u' : URL),
                url_parse url' = Some u' → hostname u' = hostname u →
                isAllowed rp' url' agent = true)
  ∧ (∀ (rp : RobotsParser) (url' agent : string) (u' : URL),
       url_parse url' = Some u' →
       rules rp !! hostname u' = None →
       isAllowed rp url' agent = true).
Proof.
  split.
  - intros rp url resp u Hu Hnone Hresp.
    exists {| rules := <[hostname u := []]> (rules rp); sitemaps := sitemaps rp |}.
    split; [| split].
    + unfold parse. rewrite Hu, Hnone.
      destruct Hresp as [-> | [[body ->] | ->]]; reflexivity.
    + cbn. apply lookup_insert_eq.
    + intros url' agent u' Hu' Hh. unfold isAllowed. rewrite Hu'. cbn.
      rewrite Hh, lookup_insert_eq. reflexivity.
  - intros rp url' agent u' Hu' Hnone. unfold isAllowed.
    rewrite Hu', Hnone. reflexivity.
Qed.

(** A string that is not a URL is allowed as well. *)
Lemma isAllowed_unparsable (rp : RobotsParser) (url agent : string) :
  url_parse url = None → isAllowed rp url agent = true.
Proof. intros Hu. unfold isAllowed. rewrite Hu. reflexivity. Qed.

End RobotsFacts.

(** ** Sitemaps *)

Section SitemapFacts.
Import Sitemap.
Context {P : Platform} {World : Type}.
Variable http : string → World → HttpOutcome * World.
Variable select_text : string → string → list string.

Lemma fetchSitemap_spec (url : string) (n : Net) content n' :
  fetchSitemap http url n = (content, n') →
  requested n' = requested n ++ [url]
  ∧ ∀ body, content = Some body →
      ∃ w1, http url (world n) = (Response true (Returns body), w1).
Proof.
  unfold fetchSitemap. destruct (http url (world n)) as [o w] eqn:Hh.
  intros [= <- <-]. split; [reflexivity |].
  intros body Hb. destruct o as [|[] [text|]]; try discriminate.
  injection Hb as ->. eauto.
Qed.

Lemma expand_spec (indexUrls urls : list string) (n : Net) urls' n' :
  expand http select_text indexUrls urls n = (urls', n') →
  length urls ≤ MAX_URLS →
  length urls' ≤ MAX_URLS
  ∧ ∃ asked, requested n' = requested n ++ asked
      ∧ asked `prefix_of` indexUrls
      ∧ ∀ u, u ∈ urls' → u ∈ urls ∨ ∃ child, child ∈ asked ∧ fromChild http select_text child u.
Proof.
  revert urls n.
  induction indexUrls as [|indexUrl rest IH]; intros urls n; cbn [expand].
  - intros [= <- <-] Hlen. split; [exact Hlen |]. exists [].
    rewrite app_nil_r. split; [reflexivity |]. split; [reflexivity | auto].
  - destruct (MAX_URLS <=? length urls) eqn:Hmax.
    { intros [= <- <-] Hlen. split; [exact Hlen |]. exists [].
      rewrite app_nil_r. split; [reflexivity |].
      split; [apply prefix_nil | auto]. }
    apply Nat.leb_gt in Hmax.
    destruct (fetchSitemap http indexUrl n) as [subContent n1] eqn:Hf.
    apply fetchSitemap_spec in Hf as [Hreq Hbody].
    assert (∀ urls1,
              expand http select_text rest urls1 n1 = (urls', n') →
              length urls1 ≤ MAX_URLS →
              (∀ u, u ∈ urls1 → u ∈ urls ∨ fromChild http select_text indexUrl u) →
              length urls' ≤ MAX_URLS
              ∧ ∃ asked, requested n' = requested n ++ asked
                  ∧ asked `prefix_of` indexUrl :: rest
                  ∧ ∀ u, u ∈ urls' →
                      u ∈ urls ∨ ∃ child, child ∈ asked ∧ fromChild http select_text child u)
      as Hstep.
    { intros urls1 He Hl1 Hfrom.
      apply IH in He as (Hl & asked & Ha & Hpre & Hu); [| exact Hl1].
      split; [exact Hl |]. exists (indexUrl :: asked).
      split; [rewrite Ha, Hreq, <- app_assoc; reflexivity |].
      split; [apply prefix_cons; exact Hpre |].
      intros u Hin. apply Hu in Hin as [Hin | (child & Hc & Hfc)].
      - apply Hfrom in Hin as [Hin | Hin]; [left; exact Hin |].
        right. exists indexUrl. split; [left | exact Hin].
      - right. exists child. split; [right; exact Hc | exact Hfc]. }
    destruct subContent as [[|c sub]|]; intros He Hlen.
    + apply (Hstep urls He Hlen). auto.
    + apply (Hstep _ He).
      * rewrite length_app, length_take. lia.
      * intros u Hin. apply elem_of_app in Hin as [Hin | Hin]; [left; exact Hin |].
        right. destruct (Hbody _ eq_refl) as [w1 Hw].
        exists (world n), w1, (String c sub). split; [exact Hw |].
        eapply subseteq_take. exact Hin.
    + apply (Hstep urls He Hlen). auto.
Qed.

Lemma parseSitemapContent_length (content origin_ : string) (n : Net) :
  length (fst (parseSitemapContent http select_text content origin_ n)) ≤ MAX_URLS.
Proof.
  unfold parseSitemapContent. destruct (Str.includes content "<sitemapindex").
  - destruct (expand http select_text _ [] n) as [urls n1]. cbn [fst].
    rewrite length_take. lia.
  - cbn [fst]. rewrite length_take. lia.
Qed.

(** A sitemap named by robots.txt gives at most 200 URLs. *)
Lemma parseUrl_length (sitemapUrl : string) (n : Net) :
  length (fst (parseUrl http select_text sitemapUrl n)) ≤ MAX_URLS.
Proof.
  unfold parseUrl. destruct (fetchSitemap http sitemapUrl n) as [content n1].
  destruct content as [[|c rest]|]; cbn [fst length]; try lia.
  destruct (url_parse sitemapUrl); [apply parseSitemapContent_length | cbn; lia].
Qed.

(** So does the probe of the well-known locations, which stops at the first
    location that gives a URL. *)
Lemma tryLocations_length (sitemapUrls : list string) (origin_ : string) (n : Net) :
  length (fst (tryLocations http select_text sitemapUrls origin_ [] n)) ≤ MAX_URLS.
Proof.
  revert n. induction sitemapUrls as [|sitemapUrl rest IH]; intros n;
    cbn [tryLocations]; [cbn; lia |].
  destruct (fetchSitemap http sitemapUrl n) as [content n1].
  destruct content as [[|c body]|]; [apply IH | | apply IH].
  pose proof (parseSitemapContent_length (String c body) origin_ n1) as Hlen.
  destruct (parseSitemapContent http select_text (String c body) origin_ n1)
    as [parsed n2].
  cbn [fst] in Hlen. rewrite app_nil_l.
  destruct parsed as [|u parsed]; [apply IH | exact Hlen].
Qed.

(** C8: [parseSitemapContent] returns at most 200 URLs.  For a sitemap
    index it requests child sitemaps only among the first 2 listed, in
    order, and every URL it returns comes from the urlset one of those
    requests answered; a plain urlset is cut to its first 200 URLs without
    any request. *)
Theorem sitemap_cap (content origin_ : string) (n : Net) :
  let r := parseSitemapContent http select_text content origin_ n in
  length r.1 ≤ 200
  ∧ (if Str.includes content "<sitemapindex" then
       ∃ asked,
         requested r.2 = requested n ++ asked
         ∧ asked `prefix_of` take 2 (parseSitemapIndex select_text content)
         ∧ length asked ≤ 2
         ∧ ∀ u, u ∈ r.1 → ∃ child, child ∈ asked ∧ fromChild http select_text child u
     else
       requested r.2 = requested n
       ∧ r.1 = take 200 (parseUrlset select_text content)).
Proof.
  intros r. subst r. unfold parseSitemapContent.
  destruct (Str.includes content "<sitemapindex").
  - destruct (expand http select_text _ [] n) as [urls n1] eqn:He. cbn.
    apply expand_spec in He as (Hl & asked & Ha & Hpre & Hu);
      [| cbn; unfold MAX_URLS; lia].
    split; [rewrite length_take; unfold MAX_URLS in *; lia |].
    exists asked. split; [exact Ha |]. split; [exact Hpre |]. split.
    + apply prefix_length in Hpre. rewrite length_take in Hpre. lia.
    + intros u Hin. apply subseteq_take in Hin.
      apply Hu in Hin as [Hin | Hin]; [inversion Hin | exact Hin].
  - cbn. split; [rewrite !length_take; unfold MAX_URLS; lia |].
    split; [reflexivity |]. unfold MAX_URLS. apply take_idemp.
Qed.

End SitemapFacts.

(** ** Locale-aware duplicate detection *)

Section DedupFacts.
Import Dedup.
Context {P : Platform}.

Lemma shouldSkip_unparsable (t : DedupTracker) (url_ : string) :
  url_parse url_ = None → shouldSkip t url_ = Throws.
Proof. intros Hu. unfold shouldSkip. rewrite Hu. reflexivity. Qed.

(** The two outcomes of [shouldSkip] on a URL that parses. *)
Lemma shouldSkip_spec (t : DedupTracker) (url_ : string) (u : URL) :
  url_parse url_ = Some u →
  let key := hostname u +:+ canonicalPath (extractLocale url_) in
  ∃ v t',
    shouldSkip t url_ = Returns (v, t')
    ∧ preferredLanguage t' = preferredLanguage t
    ∧ ((v = {| skip := true; reason := localeReason url_ |}
        ∧ canonicalPaths t' = canonicalPaths t
        ∧ hasLocale (extractLocale url_) = true
        ∧ ∃ existing, canonicalPaths t !! key = Some existing
            ∧ (preferred (preferredLanguage t) existing = true
               ∨ language (extractLocale url_) ≠ Some (preferredLanguage t)))
       ∨ (v = {| skip := false; reason := None |}
          ∧ canonicalPaths t' = <[key := entryOf url_]> (canonicalPaths t)
          ∧ (canonicalPaths t !! key = None
             ∨ hasLocale (extractLocale url_) = false
             ∨ ∃ existing, canonicalPaths t !! key = Some existing
                 ∧ preferred (preferredLanguage t) existing = false
                 ∧ language (extractLocale url_) = Some (preferredLanguage t)))).
Proof.
  intros Hu key. unfold shouldSkip. rewrite Hu. fold key.
  destruct (canonicalPaths t !! key) as [existing|] eqn:Hex.
  - destruct (hasLocale (extractLocale url_)) eqn:Hloc.
    + fold (preferred (preferredLanguage t) existing).
      destruct (preferred (preferredLanguage t) existing) eqn:Hpref.
      * eexists _, _. split; [reflexivity |]. split; [reflexivity |].
        left. repeat split; eauto.
      * destruct (bool_decide (language (extractLocale url_)
                               = Some (preferredLanguage t))) eqn:Hlang.
        -- apply bool_decide_eq_true in Hlang.
           eexists _, _. split; [reflexivity |]. split; [reflexivity |].
           right. repeat split. right. right. eauto.
        -- apply bool_decide_eq_false in Hlang.
           eexists _, _. split; [reflexivity |]. split; [reflexivity |].
           left. repeat split; eauto.
    + eexists _, _. split; [reflexivity |]. split; [reflexivity |].
      right. repeat split. right. left. reflexivity.
  - eexists _, _. split; [reflexivity |]. split; [reflexivity |].
    right. repeat split. left. reflexivity.
Qed.

(** C10: a URL in which no locale is detected is never skipped: if it
    parses, [shouldSkip] answers skip = false and stores it as the
    representative of its key, replacing whatever was there; if it does not
    parse, [shouldSkip] throws.  So only URLs with a detected locale are
    ever skipped. *)
Theorem shouldSkip_no_locale (t : DedupTracker) (url_ : string) :
  hasLocale (extractLocale url_) = false →
  match url_parse url_ with
  | Some u =>
      ∃ t', shouldSkip t url_ = Returns ({| skip := false; reason := None |}, t')
            ∧ canonicalPaths t' =
              <[hostname u +:+ canonicalPath (extractLocale url_) := entryOf url_]>
                (canonicalPaths t)
  | None => shouldSkip t url_ = Throws
  end.
Proof.
  intros Hno. destruct (url_parse url_) as [u|] eqn:Hu.
  - destruct (shouldSkip_spec t url_ u Hu)
      as (v & t' & Hs & _ & [(_ & _ & Hyes & _) | (-> & Hc & _)]).
    + congruence.
    + exists t'. split; [exact Hs | exact Hc].
  - apply shouldSkip_unparsable. exact Hu.
Qed.

Lemma skipped_has_locale (t : DedupTracker) (url_ : string) v t' :
  shouldSkip t url_ = Returns (v, t') → skip v = true →
  hasLocale (extractLocale url_) = true.
Proof.
  intros Hs Hv. destruct (url_parse url_) as [u|] eqn:Hu;
    [| rewrite (shouldSkip_unparsable t url_ Hu) in Hs; discriminate Hs].
  destruct (shouldSkip_spec t url_ u Hu)
    as (v0 & t0 & Hs0 & _ & [(_ & _ & Hl & _) | (-> & _)]); [exact Hl |].
  rewrite Hs in Hs0. injection Hs0 as -> _. discriminate Hv.
Qed.

Lemma midSegment_found (v : Vars) :
  truthy (v_locale v) = true → midSegment v = v.
Proof. intros Ht. unfold midSegment. rewrite Ht. reflexivity. Qed.

Lemma queryParam_found (ps : list (string * string)) (v : Vars) :
  truthy (v_locale v) = true → queryParam ps v = v.
Proof.
  intros Ht. unfold queryParam. rewrite Ht.
  destruct (orElse _ _) as [[|c rest]|]; reflexivity.
Qed.

(** A locale found in the leading path segment settles [extractLocale]. *)
Lemma extractLocale_leading (url_ : string) (u : URL) (v : Vars) :
  url_parse url_ = Some u →
  leadingSegment {| path := pathname u; v_locale := None;
                    v_language := None; v_country := None |} = v →
  truthy (v_locale v) = true →
  extractLocale url_ =
  {| hasLocale := true; locale := v_locale v; language := v_language v;
     country := v_country v;
     canonicalPath := path v +:+ querySuffix (searchParams u) |}.
Proof.
  intros Hu Hv Ht. unfold extractLocale. rewrite Hu, Hv.
  rewrite (midSegment_found v Ht), (queryParam_found _ v Ht), Ht.
  reflexivity.
Qed.

Lemma extractLocale_en (url_ : string) (u : URL) :
  url_parse url_ = Some u → pathname u = "/en/docs/guide" →
  extractLocale url_ =
  {| hasLocale := true; locale := Some "en"; language := Some "en";
     country := None;
     canonicalPath := "/docs/guide" +:+ querySuffix (searchParams u) |}.
Proof.
  intros Hu Hp.
  apply (extractLocale_leading url_ u
           {| path := "/docs/guide"; v_locale := Some "en";
              v_language := Some "en"; v_country := None |} Hu);
    [rewrite Hp |]; reflexivity.
Qed.

Lemma extractLocale_de (url_ : string) (u : URL) :
  url_parse url_ = Some u → pathname u = "/de/docs/guide" →
  extractLocale url_ =
  {| hasLocale := true; locale := Some "de"; language := Some "de";
     country := None;
     canonicalPath := "/docs/guide" +:+ querySuffix (searchParams u) |}.
Proof.
  intros Hu Hp.
  apply (extractLocale_leading url_ u
           {| path := "/docs/guide"; v_locale := Some "de";
              v_language := Some "de"; v_country := None |} Hu);
    [rewrite Hp |]; reflexivity.
Qed.

(** C5 (amended): with preferred language en, while the representative of the key
    is the /en/docs/guide URL, the /de/docs/guide URL of the same host is
    skipped with reason locale:de and the map is left as it is; while the
    representative is the /de/docs/guide URL, the /en/docs/guide URL is
    accepted and becomes the representative; both URLs have the same
    canonical path.  In general the map keeps one entry per key, an entry
    never disappears, and it is replaced only by a URL in the preferred
    language or by a URL without locale. *)
Theorem locale_suppression :
  (∀ (t : DedupTracker) (en de : string) (uen ude : URL) (existing : Entry),
     preferredLanguage t = "en" →
     url_parse en = Some uen → pathname uen = "/en/docs/guide" →
     url_parse de = Some ude → pathname ude = "/de/docs/guide" →
     canonicalPaths t !! (hostname ude +:+ canonicalPath (extractLocale de))
       = Some existing →
     url existing = en →
     ∃ t', shouldSkip t de
           = Returns ({| skip := true; reason := Some "locale:de" |}, t')
           ∧ canonicalPaths t' = canonicalPaths t)
  ∧ (∀ (t : DedupTracker) (en de : string) (uen ude : URL) (existing : Entry),
       preferredLanguage t = "en" →
       url_parse en = Some uen → pathname uen = "/en/docs/guide" →
       url_parse de = Some ude → pathname ude = "/de/docs/guide" →
       canonicalPaths t !! (hostname uen +:+ canonicalPath (extractLocale en))
         = Some existing →
       url existing = de →
       ∃ t', shouldSkip t en
             = Returns ({| skip := false; reason := None |}, t')
             ∧ canonicalPaths t' =
               <[hostname uen +:+ canonicalPath (extractLocale en) :=
                   {| url := en; entry_locale := Some "en" |}]>
                 (canonicalPaths t))
  ∧ (∀ (en de : string) (uen ude : URL),
       url_parse en = Some uen → pathname uen = "/en/docs/guide" →
       url_parse de = Some ude → pathname ude = "/de/docs/guide" →
       searchParams uen = searchParams ude →
       canonicalPath (extractLocale en) = canonicalPath (extractLocale de))
  ∧ (∀ (t : DedupTracker) (url_ : string) v t' (key : string) (existing : Entry),
       shouldSkip t url_ = Returns (v, t') →
       canonicalPaths t !! key = Some existing →
       ∃ now, canonicalPaths t' !! key = Some now
              ∧ (now = existing
                 ∨ (now = entryOf url_
                    ∧ (language (extractLocale url_) = Some (preferredLanguage t)
                       ∨ hasLocale (extractLocale url_) = false)))).
Proof.
  split; [| split; [| split]].
  - intros t en de uen ude existing Hpref Hen Hpen Hde Hpde Hex Hurl.
    pose proof (extractLocale_en en uen Hen Hpen) as Een.
    pose proof (extractLocale_de de ude Hde Hpde) as Ede.
    destruct (shouldSkip_spec t de ude Hde)
      as (v & t' & Hs & _ & [(-> & Hc & _) | (_ & _ & Hacc)]).
    + exists t'. split; [| exact Hc]. rewrite Hs.
      unfold localeReason. rewrite Ede. reflexivity.
    + exfalso. rewrite Hex in Hacc.
      destruct Hacc as [[=] | [Hno | (e & [= <-] & Hnp & _)]].
      * rewrite Ede in Hno. discriminate Hno.
      * unfold preferred in Hnp. rewrite Hurl, Een, Hpref in Hnp.
        discriminate Hnp.
  - intros t en de uen ude existing Hpref Hen Hpen Hde Hpde Hex Hurl.
    pose proof (extractLocale_en en uen Hen Hpen) as Een.
    pose proof (extractLocale_de de ude Hde Hpde) as Ede.
    destruct (shouldSkip_spec t en uen Hen)
      as (v & t' & Hs & _ & [(_ & _ & _ & e & He & Hrej) | (-> & Hc & _)]).
    + exfalso. rewrite Hex in He. injection He as <-.
      destruct Hrej as [Hp | Hl].
      * unfold preferred in Hp. rewrite Hurl, Ede, Hpref in Hp. discriminate Hp.
      * apply Hl. rewrite Een, Hpref. reflexivity.
    + exists t'. split; [exact Hs |]. rewrite Hc. unfold entryOf.
      rewrite Een. reflexivity.
  - intros en de uen ude Hen Hpen Hde Hpde Hps.
    rewrite (extractLocale_en en uen Hen Hpen), (extractLocale_de de ude Hde Hpde).
    cbn. rewrite Hps. reflexivity.
  - intros t url_ v t' key existing Hs Hex.
    destruct (url_parse url_) as [u|] eqn:Hu;
      [| rewrite (shouldSkip_unparsable t url_ Hu) in Hs; discriminate Hs].
    destruct (shouldSkip_spec t url_ u Hu)
      as (v0 & t0 & Hs0 & _ & Hcases).
    rewrite Hs in Hs0. injection Hs0 as <- <-.
    destruct Hcases as [(_ & Hc & _) | (_ & Hc & Hwhy)]; rewrite Hc.
    + exists existing. auto.
    + destruct (decide (hostname u +:+ canonicalPath (extractLocale url_) = key))
        as [<- | Hne].
      * exists (entryOf url_). split; [apply lookup_insert_eq |]. right.
        split; [reflexivity |].
        destruct Hwhy as [Hnone | [Hno | (e & _ & _ & Hl)]]; [congruence | auto..].
      * exists existing. split; [| auto].
        rewrite lookup_insert_ne; [exact Hex | exact Hne].
Qed.

End DedupFacts.

(** ** The crawler *)

Section CrawlerFacts.
Import Crawler.
Context {P : Platform}.

Lemma shouldCrawl_unfold (c : State) (url : string) (depth : nat) :
  shouldCrawl c url depth =
  if guards c url depth then
    match Dedup.shouldSkip (dedup c) url with
    | Throws => (false, c)
    | Returns (dedupResult, d) => (negb (Dedup.skip dedupResult), withDedup c d)
    end
  else (false, c).
Proof.
  unfold shouldCrawl, guards.
  destruct (bool_decide (UrlUtil.normalizeUrl url ∈ visited c)); [reflexivity |].
  destruct (CrawlOptions.maxPages (options c) <=? size (visited c));
    [reflexivity |].
  destruct (CrawlOptions.depth (options c) <? depth); [reflexivity |].
  destruct (UrlUtil.shouldSkipUrl url); [reflexivity |].
  destruct (bool_decide (UrlUtil.getBaseDomain url ∈ baseHosts c));
    [| reflexivity].
  destruct (CrawlOptions.respectRobots (options c) &&
            negb (Robots.isAllowed (robots c) url "*")); [reflexivity |].
  destruct (testPattern (CrawlOptions.includePattern (options c)) true url);
    [| reflexivity].
  destruct (testPattern (CrawlOptions.excludePattern (options c)) false url);
    [reflexivity |].
  cbn. destruct (Dedup.shouldSkip (dedup c) url) as [[v d]|]; [| reflexivity].
  destruct (Dedup.skip v); reflexivity.
Qed.

Lemma guards_withDedup (c : State) (d : Dedup.DedupTracker) url depth :
  guards (withDedup c d) url depth = guards c url depth.
Proof. reflexivity. Qed.

(** [shouldCrawl] touches nothing but the dedup tracker. *)
Lemma shouldCrawl_state (c : State) (url : string) (depth : nat) :
  ∃ d, snd (shouldCrawl c url depth) = withDedup c d.
Proof.
  rewrite shouldCrawl_unfold. destruct (guards c url depth).
  - destruct (Dedup.shouldSkip (dedup c) url) as [[v d]|]; cbn; [eauto |].
    exists (dedup c). destruct c; reflexivity.
  - exists (dedup c). destruct c; reflexivity.
Qed.

Lemma shouldCrawl_accepts (c : State) (url : string) (depth : nat) :
  fst (shouldCrawl c url depth) = true →
  (UrlUtil.normalizeUrl url ∉ visited c)
  ∧ size (visited c) < CrawlOptions.maxPages (options c)
  ∧ depth ≤ CrawlOptions.depth (options c).
Proof.
  rewrite shouldCrawl_unfold. destruct (guards c url depth) eqn:Hg;
    [intros _ | discriminate].
  unfold guards in Hg. repeat (apply andb_true_iff in Hg as [Hg ?]).
  repeat split.
  - apply negb_true_iff, bool_decide_eq_false in Hg. exact Hg.
  - match goal with
    | E : negb (_ <=? _) = true |- _ =>
        apply negb_true_iff, Nat.leb_gt in E; exact E
    end.
  - match goal with
    | E : negb (_ <? _) = true |- _ =>
        apply negb_true_iff, Nat.ltb_ge in E; exact E
    end.
Qed.

Lemma shouldCrawl_visited (c : State) (url : string) (depth : nat) :
  UrlUtil.normalizeUrl url ∈ visited c → shouldCrawl c url depth = (false, c).
Proof.
  intros Hin. unfold shouldCrawl. rewrite bool_decide_eq_true_2 by exact Hin.
  reflexivity.
Qed.

(** [addToQueue] either does nothing or takes one fresh place in the
    visited set for one new task. *)
Lemma addToQueue_spec (c : State) (url : string) (depth : nat) :
  addToQueue c url depth = c
  ∨ ((UrlUtil.normalizeUrl url ∉ visited c)
     ∧ size (visited c) < CrawlOptions.maxPages (options c)
     ∧ addToQueue c url depth =
       {| options := options c; robots := robots c; dedup := dedup c;
          visited := {[UrlUtil.normalizeUrl url]} ∪ visited c;
          queue := queue c ++ [(url, depth)];
          baseHosts := baseHosts c;
          results := results c; phase := phase c; yielded := yielded c |}).
Proof.
  unfold addToQueue.
  destruct (bool_decide (UrlUtil.normalizeUrl url ∈ visited c)) eqn:Hv;
    [left; reflexivity |].
  destruct (CrawlOptions.maxPages (options c) <=? size (visited c)) eqn:Hm;
    [left; reflexivity |].
  right. apply bool_decide_eq_false in Hv. apply Nat.leb_gt in Hm. auto.
Qed.

Lemma size_add_fresh (x : string) (X : gset string) :
  x ∉ X → size ({[x]} ∪ X) = S (size X).
Proof.
  intros Hx. rewrite size_union by set_solver. rewrite size_singleton. reflexivity.
Qed.

Lemma addToQueue_options c url depth : options (addToQueue c url depth) = options c.
Proof. destruct (addToQueue_spec c url depth) as [-> | (_ & _ & ->)]; reflexivity. Qed.

Lemma addToQueue_Budget k c url depth :
  Budget k c → Budget k (addToQueue c url depth).
Proof.
  intros [Hb Hm]. destruct (addToQueue_spec c url depth) as [-> | (Hf & Hlt & ->)];
    [split; assumption |].
  unfold Budget. cbn. rewrite length_app, size_add_fresh by exact Hf. cbn. lia.
Qed.

Lemma addToQueue_Depths c url depth :
  depth ≤ CrawlOptions.depth (options c) →
  Depths c → Depths (addToQueue c url depth).
Proof.
  intros Hd (Hq & Hr & Hy).
  destruct (addToQueue_spec c url depth) as [-> | (_ & _ & ->)];
    [repeat split; assumption |].
  unfold Depths. cbn. repeat split; try assumption.
  apply Forall_app. split; [exact Hq |]. constructor; [exact Hd | constructor].
Qed.

Lemma addToQueue_visited c url depth : visited c ⊆ visited (addToQueue c url depth).
Proof.
  destruct (addToQueue_spec c url depth) as [-> | (_ & _ & ->)]; cbn; set_solver.
Qed.

(** After an accepted admission check, [addToQueue] marks the URL visited. *)
Lemma addToQueue_marks c url depth :
  UrlUtil.normalizeUrl url ∉ visited c →
  size (visited c) < CrawlOptions.maxPages (options c) →
  UrlUtil.normalizeUrl url ∈ visited (addToQueue c url depth).
Proof.
  intros Hf Hlt. unfold addToQueue.
  rewrite bool_decide_eq_false_2 by exact Hf.
  destruct (CrawlOptions.maxPages (options c) <=? size (visited c)) eqn:Hm.
  - apply Nat.leb_le in Hm. lia.
  - cbn. set_solver.
Qed.

Lemma enqueueIfAllowed_preserves depth c u k :
  (Budget k c → Budget k (enqueueIfAllowed depth c u))
  ∧ (Depths c → Depths (enqueueIfAllowed depth c u))
  ∧ options (enqueueIfAllowed depth c u) = options c
  ∧ visited c ⊆ visited (enqueueIfAllowed depth c u).
Proof.
  unfold enqueueIfAllowed. destruct (shouldCrawl c u depth) as [ok c1] eqn:Hs.
  destruct (shouldCrawl_state c u depth) as [d Hd]. rewrite Hs in Hd. cbn in Hd.
  subst c1. destruct ok.
  - pose proof (shouldCrawl_accepts c u depth) as Hacc. rewrite Hs in Hacc.
    destruct (Hacc eq_refl) as (_ & _ & Hdepth).
    split; [| split; [| split]].
    + intros Hb. apply addToQueue_Budget. exact Hb.
    + intros Hdp. apply addToQueue_Depths; [exact Hdepth | exact Hdp].
    + rewrite addToQueue_options. reflexivity.
    + apply (addToQueue_visited (withDedup c d)).
  - split; [| split; [| split]];
      [intros Hb; exact Hb | intros Hd; exact Hd | reflexivity | reflexivity].
Qed.

Lemma enqueueAll_preserves depth us c k :
  (Budget k c → Budget k (fold_left (enqueueIfAllowed depth) us c))
  ∧ (Depths c → Depths (fold_left (enqueueIfAllowed depth) us c))
  ∧ options (fold_left (enqueueIfAllowed depth) us c) = options c
  ∧ visited c ⊆ visited (fold_left (enqueueIfAllowed depth) us c).
Proof.
  revert c. induction us as [|u us IH]; intros c; cbn [fold_left].
  { split; [| split; [| split]];
      [intros Hb; exact Hb | intros Hd; exact Hd | reflexivity | reflexivity]. }
  destruct (enqueueIfAllowed_preserves depth c u k) as (Hb & Hd & Ho & Hv).
  destruct (IH (enqueueIfAllowed depth c u)) as (Hb' & Hd' & Ho' & Hv').
  split; [| split; [| split]];
    [intros; auto | intros; auto | congruence | etrans; [exact Hv | exact Hv']].
Qed.

Lemma Budget_weaken k c : Budget (S k) c → Budget k c.
Proof. unfold Budget. lia. Qed.

Lemma processUrl_preserves c before url depth after fetched extraction :
  queue c = before ++ (url, depth) :: after →
  let c' := processUrl (withQueue c (before ++ after)) url depth
              fetched extraction in
  (Budget 0 c → Budget 0 c')
  ∧ (Depths c → Depths c')
  ∧ options c' = options c
  ∧ visited c ⊆ visited c'.
Proof.
  intros Hq c'. set (c0 := withQueue c (before ++ after)).
  assert (Budget 0 c → Budget 1 c0) as Hb0.
  { unfold Budget. cbn. rewrite Hq, !length_app. cbn. lia. }
  assert (Depths c → Depths c0 ∧ depth ≤ CrawlOptions.depth (options c)) as Hd0.
  { intros (Hqd & Hr & Hy). rewrite Hq in Hqd.
    apply Forall_app in Hqd as [Hbef Haft]. inversion Haft as [|? ? Ht Haft']; subst.
    split; [| exact Ht]. split; [apply Forall_app; split; assumption |].
    split; assumption. }
  assert ((Budget 0 c → Budget 0 c0) ∧ (Depths c → Depths c0)
          ∧ options c0 = options c ∧ visited c ⊆ visited c0) as Hsame.
  { split; [intros Hb; apply Budget_weaken, Hb0, Hb |].
    split; [intros Hd; apply Hd0, Hd |]. split; reflexivity. }
  subst c'. unfold processUrl. fold c0.
  destruct fetched as [result|]; [| exact Hsame].
  destruct (Waterfall.blocked result); [exact Hsame |].
  destruct (400 <=? Waterfall.statusCode result); [exact Hsame |].
  destruct extraction as [extracted|]; [| exact Hsame].
  destruct (ExtractResult.wordCount extracted <? 20); [exact Hsame |].
  set (r := {| CrawlResult.url := url;
               CrawlResult.finalUrl := Waterfall.finalUrl result;
               CrawlResult.extracted := extracted;
               CrawlResult.depth := depth;
               CrawlResult.engine := Waterfall.engine result |}).
  set (c1 := withResults c0 (results c0 ++ [r])).
  assert (Budget 0 c → Budget 0 c1) as Hb1.
  { intros Hb. apply Hb0 in Hb. unfold Budget in *. cbn in *.
    rewrite length_app. cbn. lia. }
  assert (Depths c → Depths c1) as Hd1.
  { intros Hd. apply Hd0 in Hd as ((Hqd & Hr & Hy) & Ht).
    split; [exact Hqd |]. split; [| exact Hy].
    cbn. apply Forall_app. split; [exact Hr |]. constructor; [exact Ht | constructor]. }
  fold r. fold c1. destruct (depth <? CrawlOptions.depth (options c1)).
  - destruct (enqueueAll_preserves (depth + 1) (ExtractResult.links extracted) c1 0)
      as (Hb & Hd & Ho & Hv).
    split; [| split; [| split]]; [intros; auto | intros; auto | exact Ho | exact Hv].
  - split; [| split; [| split]]; [exact Hb1 | exact Hd1 | reflexivity | reflexivity].
Qed.

(** What every move of a crawl preserves. *)
Lemma step_preserves c c' :
  step c c' →
  (Budget 0 c → Budget 0 c')
  ∧ (Depths c → Depths c')
  ∧ options c' = options c
  ∧ visited c ⊆ visited c'.
Proof.
  intros Hstep. destruct Hstep.
  - split; [| split; [| split]];
      [intros Hb; exact Hb | intros Hd; exact Hd | reflexivity | reflexivity].
  - apply enqueueAll_preserves.
  - apply processUrl_preserves. assumption.
  - split; [| split; [| split]];
      [intros Hb; exact Hb | intros Hd; exact Hd | reflexivity | reflexivity].
  - split; [| split; [| split]]; [| | reflexivity | reflexivity].
    + unfold Budget. cbn. match goal with E : results c = _ |- _ => rewrite E end.
      rewrite length_app. cbn. lia.
    + intros (Hq & Hr & Hy).
      match goal with E : results c = _ |- _ => rewrite E in Hr end.
      inversion Hr as [|? ? Hr0 Hrest]; subst.
      split; [exact Hq |]. split; [exact Hrest |].
      cbn. apply Forall_app. split; [exact Hy |]. constructor; [exact Hr0 | constructor].
  - split; [| split; [| split]];
      [intros Hb; exact Hb | intros Hd; exact Hd | reflexivity | reflexivity].
  - split; [| split; [| split]];
      [intros Hb; exact Hb | intros Hd; exact Hd | reflexivity | reflexivity].
Qed.

Lemma seed_establishes (opts : CrawlOptions.t) (startUrls : list string) :
  let c := seed (create opts) startUrls in
  Budget 0 c ∧ Depths c ∧ options c = opts.
Proof.
  unfold seed.
  set (c1 := withBaseHosts (create opts) _).
  assert (Budget 0 c1 ∧ Depths c1 ∧ options c1 = opts) as Hinit.
  { split; [| split; [| reflexivity]].
    - unfold Budget. cbn. rewrite size_empty. lia.
    - split; [| split]; constructor. }
  generalize (map UrlUtil.normalizeUrl startUrls) as us. revert Hinit.
  generalize c1 as c. clear c1.
  intros c Hinit us. revert c Hinit.
  induction us as [|u us IH]; intros c (Hb & Hd & Ho); cbn [fold_left];
    [auto |].
  apply IH. split; [| split].
  - apply addToQueue_Budget, Hb.
  - apply addToQueue_Depths; [lia | exact Hd].
  - rewrite addToQueue_options. exact Ho.
Qed.

Lemma reachable_invariant (opts : CrawlOptions.t) (startUrls : list string) c :
  reachable opts startUrls c →
  Budget 0 c ∧ Depths c ∧ options c = opts.
Proof.
  unfold reachable. intros Hr.
  refine (rtc_ind_r (λ c, Budget 0 c ∧ Depths c ∧ options c = opts)
            _ _ _ c Hr).
  - apply seed_establishes.
  - (* the last move *)
    intros c1 c2 _ Hstep (Hb & Hd & Ho).
    destruct (step_preserves _ _ Hstep) as (Hb' & Hd' & Ho' & _).
    split; [auto | split; [auto | congruence]].
Qed.

(** C1: in every state of a crawl with maxPages = M, at most M results
    have been yielded, whether in the drain loop or in the final flush;
    indeed the results yielded and those still buffered are at most M
    together. *)
Theorem page_budget (opts : CrawlOptions.t) (startUrls : list string) (c : State) :
  reachable opts startUrls c →
  length (yielded c) ≤ CrawlOptions.maxPages opts
  ∧ length (yielded c) + length (results c) ≤ CrawlOptions.maxPages opts.
Proof.
  intros Hr. destruct (reachable_invariant _ _ _ Hr) as ((Hb & Hm) & _ & Ho).
  rewrite <- Ho. lia.
Qed.

(** C2: in every state of a crawl with depth = N, every result yielded
    has depth at most N, and so has every task in the queue (start URLs
    enter at depth 0, sitemap URLs at depth 1 and only when 1 <= N, links of
    a page of depth d at depth d + 1 and only when d < N). *)
Theorem depth_bound (opts : CrawlOptions.t) (startUrls : list string) (c : State) :
  reachable opts startUrls c →
  (∀ r, r ∈ yielded c → CrawlResult.depth r ≤ CrawlOptions.depth opts)
  ∧ (∀ task, task ∈ queue c → task.2 ≤ CrawlOptions.depth opts).
Proof.
  intros Hr.
  destruct (reachable_invariant _ _ _ Hr) as (_ & (Hq & _ & Hy) & Ho).
  rewrite <- Ho. split.
  - intros r Hin. rewrite Forall_forall in Hy. apply Hy. exact Hin.
  - intros task Hin. rewrite Forall_forall in Hq. apply Hq. exact Hin.
Qed.

Lemma steps_visited c c' : rtc step c c' → visited c ⊆ visited c'.
Proof.
  induction 1 as [| c0 c1 c2 Hstep _ IH]; [reflexivity |].
  destruct (step_preserves _ _ Hstep) as (_ & _ & _ & Hv).
  etrans; [exact Hv | exact IH].
Qed.

(** C3 (amended): a second admission check on the same URL, the visited
    set unchanged, answers as the first did whenever the first rejected or no
    locale is detected in the URL; after a first check that accepted a URL
    with a detected locale, the dedup tracker holds that URL and the second
    check rejects.  An accepted URL is in the visited set once [addToQueue]
    has run, and a URL in the visited set is rejected by every later check,
    at any depth and in any later state of the crawl. *)
Theorem admission_twice (c : State) (url : string) (depth : nat) :
  let first := shouldCrawl c url depth in
  let second := shouldCrawl (snd first) url depth in
  visited (snd first) = visited c
  ∧ fst second
    = fst first && negb (Dedup.hasLocale (Dedup.extractLocale url))
  ∧ (fst first = true →
     UrlUtil.normalizeUrl url ∈ visited (addToQueue (snd first) url depth))
  ∧ (∀ c' c'' depth',
       UrlUtil.normalizeUrl url ∈ visited c' → rtc step c' c'' →
       shouldCrawl c'' url depth' = (false, c'')).
Proof.
  intros first second.
  destruct (shouldCrawl_state c url depth) as [d Hd]. fold first in Hd.
  split; [rewrite Hd; reflexivity |]. split; [| split].
  - subst second. subst first. rewrite (shouldCrawl_unfold c url depth).
    destruct (guards c url depth) eqn:Hg; cbn [snd fst];
      [| rewrite shouldCrawl_unfold, Hg; reflexivity].
    destruct (url_parse url) as [u|] eqn:Hu.
    2:{ rewrite (shouldSkip_unparsable _ _ Hu). cbn [snd fst].
        rewrite shouldCrawl_unfold, Hg, (shouldSkip_unparsable _ _ Hu).
        reflexivity. }
    destruct (shouldSkip_spec (dedup c) url u Hu) as (v & t1 & Hs & Hp & Hcase).
    rewrite Hs. cbn [snd fst].
    rewrite shouldCrawl_unfold, guards_withDedup, Hg. cbn [dedup withDedup].
    destruct (shouldSkip_spec t1 url u Hu) as (v2 & t2 & Hs2 & _ & Hcase2).
    rewrite Hs2. cbn [fst].
    destruct Hcase as [(-> & Hc & Hl & e & He & Hrej) | (-> & Hc & Hwhy)]; cbn.
    + (* rejected by the tracker: rejected again *)
      destruct Hcase2 as [(-> & _) | (-> & _ & Hwhy2)]; [reflexivity |].
      exfalso. rewrite Hc, He, Hp in Hwhy2.
      destruct Hwhy2 as [[=] | [Hno | (e' & [= <-] & Hnp & Hlang)]];
        [congruence |].
      destruct Hrej as [Hpref | Hne]; congruence.
    + (* accepted: the tracker now holds this very URL *)
      destruct (Dedup.hasLocale (Dedup.extractLocale url)) eqn:Hl; cbn.
      * destruct Hcase2 as [(-> & _) | (-> & _ & Hwhy2)]; [reflexivity |].
        exfalso. rewrite Hc, lookup_insert_eq in Hwhy2.
        destruct Hwhy2 as [[=] | [[=] | (e' & [= <-] & Hnp & Hlang)]].
        unfold Dedup.preferred, Dedup.entryOf in Hnp. cbn in Hnp.
        rewrite Hlang in Hnp. rewrite bool_decide_eq_true_2 in Hnp by reflexivity.
        discriminate Hnp.
      * destruct Hcase2 as [(_ & _ & Hl2 & _) | (-> & _)]; [congruence | reflexivity].
  - intros Hacc. destruct (shouldCrawl_accepts c url depth Hacc) as (Hf & Hlt & _).
    fold first in Hd. rewrite Hd. apply addToQueue_marks; assumption.
  - intros c' c'' depth' Hin Hsteps. apply shouldCrawl_visited.
    apply (steps_visited _ _ Hsteps). exact Hin.
Qed.

End CrawlerFacts.

(** ** The properties on the concrete inputs *)

Section Runs.
Import Demo SimplePlatform.

(** C3, as stated, fails: in the seeded crawler the German page is
    accepted by a first admission check and rejected by a second one, the
    visited set being the same for both. *)
Lemma admission_twice_counterexample :
  Crawler.visited (snd (Crawler.shouldCrawl (P := simple) seeded de_url 1))
  = Crawler.visited seeded
  ∧ fst (Crawler.shouldCrawl (P := simple) seeded de_url 1) = true
  ∧ fst (Crawler.shouldCrawl (P := simple)
           (snd (Crawler.shouldCrawl (P := simple) seeded de_url 1)) de_url 1)
    = false.
Proof. vm_compute. repeat split; reflexivity. Qed.

(** The demo crawl: the task of the start URL completes, the generator
    enters the drain loop and yields the result. *)
Lemma demo_reachable :
  Crawler.reachable (P := simple) crawlOptions [home] afterYield.
Proof.
  unfold Crawler.reachable.
  eapply rtc_l.
  { apply (Crawler.step_task (P := simple) _ [] home 0 []
             (Returns homeFetched) (Returns homeExtracted)).
    vm_compute. reflexivity. }
  eapply rtc_l; [apply Crawler.step_drain; vm_compute; reflexivity |].
  eapply rtc_l.
  { apply (Crawler.step_yield (P := simple) _ homeResult []);
      [left |]; vm_compute; reflexivity. }
  apply rtc_refl.
Defined.

(** C1 on the demo crawl: one result yielded, the budget being 2. *)
Lemma page_budget_witness :
  Crawler.reachable (P := simple) crawlOptions [home] afterYield
  ∧ length (Crawler.yielded afterYield) = 1
  ∧ length (Crawler.yielded afterYield) ≤ 2.
Proof.
  split; [exact demo_reachable |]. split; [vm_compute; reflexivity |].
  exact (proj1 (page_budget (P := simple) crawlOptions [home] afterYield
                  demo_reachable)).
Defined.

(** C2 on the demo crawl: the yielded result has depth 0, the bound being 1. *)
Lemma depth_bound_witness :
  Crawler.reachable (P := simple) crawlOptions [home] afterYield
  ∧ homeResult ∈ Crawler.yielded afterYield
  ∧ CrawlResult.depth homeResult ≤ 1.
Proof.
  split; [exact demo_reachable |].
  assert (homeResult ∈ Crawler.yielded afterYield) as Hin
    by (vm_compute; constructor).
  split; [exact Hin |].
  exact (proj1 (depth_bound (P := simple) crawlOptions [home] afterYield
                  demo_reachable) homeResult Hin).
Defined.

(** C4 on the two robots.txt files of the claim, parsed from their text. *)
Lemma isAllowed_longest_match_witness :
  Robots.isAllowed (P := simple) (parsed robots_a) "https://example.com/a/b/c" "*"
  = true
  ∧ Robots.isAllowed (P := simple) (parsed robots_a) "https://example.com/a/c" "*"
    = false
  ∧ Robots.isAllowed (P := simple) (parsed robots_x) "https://example.com/x" "*"
    = true.
Proof.
  destruct (isAllowed_longest_match (P := simple)) as (_ & Ha & Hx & _).
  split; [| split].
  - eapply (proj1 (Ha (parsed robots_a) "https://example.com/a/b/c"
                      {| origin := "https://example.com"; hostname := "example.com";
                         pathname := "/a/b/c"; search := ""; searchParams := [] |}
                      eq_refl eq_refl)).
    reflexivity.
  - eapply (proj2 (Ha (parsed robots_a) "https://example.com/a/c"
                      {| origin := "https://example.com"; hostname := "example.com";
                         pathname := "/a/c"; search := ""; searchParams := [] |}
                      eq_refl eq_refl)).
    reflexivity.
  - eapply Hx; vm_compute; reflexivity.
Defined.

(** A longer disallow pattern decides against a shorter allow pattern, and
    the wildcards of a pattern are honoured. *)
Example disallow_decides :
  Robots.isAllowed (P := simple) (parsed robots_a) "https://example.com/a/c" "*"
  = false.
Proof. vm_compute. reflexivity. Qed.

Example pathMatches_wildcards :
  Robots.pathMatches "/index.php" "/*.php$" = true
  ∧ Robots.pathMatches "/index.php?page=2" "/*.php$" = false
  ∧ Robots.pathMatches "/index.php?page=2" "/*.php" = true
  ∧ Robots.pathMatches "/a.php" "/a?php" = false.
Proof. vm_compute. repeat split; reflexivity. Qed.

(** C9 on a network error for example.com. *)
Lemma robots_fail_open_witness :
  ∃ rp', Robots.parse (P := simple) Robots.empty home NetworkError = Returns rp'
         ∧ Robots.rules rp' !! "example.com" = Some []
         ∧ Robots.isAllowed (P := simple) rp' "https://example.com/private" "*"
           = true.
Proof.
  destruct (robots_fail_open (P := simple)) as (Hfail & _).
  destruct (Hfail Robots.empty home NetworkError
              {| origin := "https://example.com"; hostname := "example.com";
                 pathname := "/"; search := ""; searchParams := [] |}
              eq_refl eq_refl (or_introl eq_refl))
    as (rp' & Hparse & Hrules & Hall).
  exists rp'. split; [exact Hparse |]. split; [exact Hrules |].
  eapply Hall; vm_compute; reflexivity.
Defined.

(** C6 on the demo engines: the plain fetch answers 429, the waterfall
    returns the answer of the browser. *)
Lemma waterfall_escalation_witness :
  ∃ res st' w',
    Waterfall.fetch (P := simple) rt home (engineOptions None)
      Waterfall.initial tt = (Returns res, st', w')
    ∧ Waterfall.engine res = Waterfall.Playwright
    ∧ Waterfall.engine res ≠ Waterfall.Fetch
    ∧ Waterfall.blocked res = false.
Proof.
  destruct (waterfall_escalation (P := simple) rt home (engineOptions None)
              Waterfall.initial tt) as (Hescalate & _).
  eexists _, _, _. split; [vm_compute; reflexivity |].
  split; [reflexivity |].
  destruct (Hescalate eq_refl _ _ _ eq_refl) as (Hnot & Hcheap).
  split; [| exact Hnot].
  eapply Hcheap; [vm_compute; reflexivity | vm_compute; reflexivity].
Defined.

(** A forced engine is called once and its answer returned, blocked or not. *)
Example waterfall_forced :
  ∃ res st',
    Waterfall.fetch (P := simple) rt home (engineOptions (Some Waterfall.Fetch))
      Waterfall.initial tt = (Returns res, st', tt)
    ∧ Waterfall.engine res = Waterfall.Fetch
    ∧ Waterfall.blocked res = true
    ∧ Waterfall.invoked st' = [Waterfall.Fetch].
Proof. eexists _, _. vm_compute. repeat split; reflexivity. Qed.

(** C8 on the index of 10 children of 500 URLs each. *)
Lemma sitemap_cap_witness :
  length (fst (Sitemap.parseSitemapContent http select_text
                 indexDocument "" net0)) ≤ 200.
Proof.
  exact (proj1 (sitemap_cap http select_text indexDocument "" net0)).
Defined.

(** The index of 10 children of 500 URLs each: one child is requested, the
    first, and its first 200 URLs are the result. *)
Example sitemap_index_of_ten :
  Sitemap.parseSitemapContent http select_text indexDocument "" net0
  = (map (pageUrl (childUrl 0)) (seq 0 200),
     {| Sitemap.world := tt; Sitemap.requested := [childUrl 0] |}).
Proof. vm_compute. reflexivity. Qed.

(** C5 on example.com, each URL seen first in turn. *)
Lemma locale_suppression_witness :
  (∃ t', Dedup.shouldSkip (P := simple) (seen tracker0 en_url) de_url
         = Returns ({| Dedup.skip := true; Dedup.reason := Some "locale:de" |}, t')
         ∧ Dedup.canonicalPaths t' = Dedup.canonicalPaths (seen tracker0 en_url))
  ∧ (∃ t', Dedup.shouldSkip (P := simple) (seen tracker0 de_url) en_url
           = Returns ({| Dedup.skip := false; Dedup.reason := None |}, t')
           ∧ Dedup.canonicalPaths t' !! "example.com/docs/guide"
             = Some {| Dedup.url := en_url; Dedup.entry_locale := Some "en" |}).
Proof.
  destruct (locale_suppression (P := simple)) as (Hskip & Hreplace & _ & _).
  split.
  - eapply (Hskip (seen tracker0 en_url) en_url de_url); vm_compute; reflexivity.
  - destruct (Hreplace (seen tracker0 de_url) en_url de_url
                {| origin := "https://example.com"; hostname := "example.com";
                   pathname := "/en/docs/guide"; search := ""; searchParams := [] |}
                {| origin := "https://example.com"; hostname := "example.com";
                   pathname := "/de/docs/guide"; search := ""; searchParams := [] |}
                {| Dedup.url := de_url; Dedup.entry_locale := Some "de" |})
      as (t' & Hcall & Hmap); try (vm_compute; reflexivity).
    exists t'. split; [exact Hcall |]. rewrite Hmap. vm_compute. reflexivity.
Defined.

(** C5, as stated, fails: replacement is not monotonic toward the
    preferred language.  The English page is the representative of its key;
    the page without locale replaces it; the English page, met again, is
    then skipped with reason locale:en. *)
Lemma locale_suppression_counterexample :
  Dedup.canonicalPaths (seen tracker0 en_url) !! "example.com/docs/guide"
  = Some {| Dedup.url := en_url; Dedup.entry_locale := Some "en" |}
  ∧ Dedup.shouldSkip (P := simple) (seen tracker0 en_url) plain_url
    = Returns ({| Dedup.skip := false; Dedup.reason := None |},
               seen (seen tracker0 en_url) plain_url)
  ∧ Dedup.canonicalPaths (seen (seen tracker0 en_url) plain_url)
      !! "example.com/docs/guide"
    = Some {| Dedup.url := plain_url; Dedup.entry_locale := None |}
  ∧ Dedup.language (Dedup.extractLocale (P := simple) en_url) = Some "en"
  ∧ ∃ t', Dedup.shouldSkip (P := simple)
            (seen (seen tracker0 en_url) plain_url) en_url
          = Returns ({| Dedup.skip := true; Dedup.reason := Some "locale:en" |},
                     t').
Proof.
  split; [vm_compute; reflexivity |]. split; [vm_compute; reflexivity |].
  split; [vm_compute; reflexivity |]. split; [vm_compute; reflexivity |].
  eexists. vm_compute. reflexivity.
Qed.

(** C10 on the plain URL, its key held by the English one. *)
Lemma shouldSkip_no_locale_witness :
  Dedup.hasLocale (Dedup.extractLocale (P := simple) plain_url) = false
  ∧ ∃ t', Dedup.shouldSkip (P := simple) (seen tracker0 en_url) plain_url
          = Returns ({| Dedup.skip := false; Dedup.reason := None |}, t')
          ∧ Dedup.canonicalPaths t' !! "example.com/docs/guide"
            = Some {| Dedup.url := plain_url; Dedup.entry_locale := None |}.
Proof.
  split; [vm_compute; reflexivity |].
  pose proof (shouldSkip_no_locale (P := simple) (seen tracker0 en_url)
                plain_url eq_refl) as Hno.
  change (url_parse plain_url) with (SimplePlatform.parse plain_url) in Hno.
  vm_compute SimplePlatform.parse in Hno.
  destruct Hno as (t' & Hcall & Hmap).
  exists t'. split; [exact Hcall |]. rewrite Hmap. vm_compute. reflexivity.
Defined.

End Runs.

(** ** String reversal and concatenation *)

Section StringFacts.

Lemma str_append_nil_r (s : string) : s +:+ EmptyString = s.
Proof.
  induction s as [|c s IH]; [reflexivity |].
  change (String c s +:+ EmptyString) with (String c (s +:+ EmptyString)).
  rewrite IH. reflexivity.
Qed.

Lemma str_append_assoc (a b c : string) : (a +:+ b) +:+ c = a +:+ (b +:+ c).
Proof.
  induction a as [|x a IH]; [reflexivity |].
  change ((String x a +:+ b) +:+ c) with (String x ((a +:+ b) +:+ c)).
  rewrite IH. reflexivity.
Qed.

Lemma str_rev_app_spec (s acc : string) :
  String.rev_app s acc = String.rev s +:+ acc.
Proof.
  revert acc. induction s as [|c s IH]; intros acc; [reflexivity |].
  unfold String.rev. cbn [String.rev_app].
  rewrite (IH (String c acc)), (IH (String c EmptyString)), str_append_assoc.
  reflexivity.
Qed.

Lemma str_rev_cons (c : ascii) (s : string) :
  String.rev (String c s) = String.rev s +:+ String c EmptyString.
Proof. unfold String.rev at 1. cbn [String.rev_app]. apply str_rev_app_spec. Qed.

Lemma str_rev_append (a b : string) :
  String.rev (a +:+ b) = String.rev b +:+ String.rev a.
Proof.
  induction a as [|c a IH].
  - change (EmptyString +:+ b) with b. symmetry. apply str_append_nil_r.
  - change (String c a +:+ b) with (String c (a +:+ b)).
    rewrite !str_rev_cons, IH, str_append_assoc. reflexivity.
Qed.

Lemma str_rev_involutive (s : string) : String.rev (String.rev s) = s.
Proof.
  induction s as [|c s IH]; [reflexivity |].
  rewrite str_rev_cons, str_rev_append, IH. reflexivity.
Qed.

Lemma startsWith_nil (s : string) : Str.startsWith s EmptyString = true.
Proof. destruct s; reflexivity. Qed.

Lemma endsWith_snoc (s : string) (c : ascii) :
  Str.endsWith (s +:+ String c EmptyString) (String c EmptyString) = true.
Proof.
  unfold Str.endsWith. rewrite str_rev_append.
  change (String.rev (String c EmptyString)) with (String c EmptyString).
  change (String c EmptyString +:+ String.rev s) with (String c (String.rev s)).
  cbn [Str.startsWith]. rewrite Ascii.eqb_refl, startsWith_nil. reflexivity.
Qed.

Lemma dropLast_snoc (s : string) (c : ascii) :
  Str.dropLast (s +:+ String c EmptyString) = s.
Proof.
  unfold Str.dropLast. rewrite str_rev_append.
  change (String.rev (String c EmptyString)) with (String c EmptyString).
  change (String c EmptyString +:+ String.rev s) with (String c (String.rev s)).
  cbn [Str.drop]. apply str_rev_involutive.
Qed.

End StringFacts.

(** ** More on the block detector *)

Section DetectorMore.
Import Detector Demo.

(** X1: every answer of [isBlocked] is either the not-blocked answer (no
    reason, confidence 0) or a block with a reason and a confidence between
    0.6 and 0.95. *)
Theorem isBlocked_wellformed (html : string) (statusCode : nat) (u : string) :
  let r := isBlocked html statusCode u in
  r = {| blocked := false; reason := None; confidence := 0 |}
  ∨ (blocked r = true ∧ (∃ why, reason r = Some why)
     ∧ (0.6 <= confidence r)%Q ∧ (confidence r <= 0.95)%Q).
Proof.
  intros r. subst r. unfold isBlocked.
  repeat match goal with
         | |- context [if ?b then block _ _ else _] => destruct b
         end;
    first [ left; reflexivity
          | right; cbn; (split; [reflexivity |]); (split; [eauto |]);
            split; vm_compute; discriminate ].
Qed.

(** X2: a body of 50000 characters or more is classified blocked only on
    the status codes 403 and 429 or as a Cloudflare challenge (status 503
    with one Cloudflare marker, or two markers): no other rule of the
    detector applies to it, whatever it contains. *)
Theorem isBlocked_long_page (html : string) (statusCode : nat) (u : string) :
  (50000 ≤ Str.length html)%N →
  let r := isBlocked html statusCode u in
  (blocked r = true ↔
     statusCode = 403 ∨ statusCode = 429
     ∨ (statusCode = 503 ∧ 1 ≤ matches CLOUDFLARE_PATTERNS html)
     ∨ 2 ≤ matches CLOUDFLARE_PATTERNS html)
  ∧ (reason r = None ∨ reason r = Some forbidden ∨ reason r = Some rate_limit
     ∨ reason r = Some cloudflare).
Proof.
  intros Hlen r. subst r. unfold isBlocked.
  assert (bool_decide (html = EmptyString) = false) as ->.
  { apply bool_decide_eq_false. intros ->. change (Str.length EmptyString) with 0%N in Hlen. lia. }
  assert (∀ k, (k ≤ 50000)%N → (Str.length html <? k)%N = false) as Hk
    by (intros k Hk; apply N.ltb_ge; lia).
  rewrite !Hk by lia. rewrite !andb_false_r. cbn [orb andb].
  destruct (decide (statusCode = 403)) as [E403 | E403].
  { rewrite (bool_decide_eq_true_2 _ E403). cbn [blocked reason block].
    split; [split; auto | auto]. }
  rewrite (bool_decide_eq_false_2 _ E403).
  destruct (decide (statusCode = 429)) as [E429 | E429].
  { rewrite (bool_decide_eq_true_2 _ E429). cbn [blocked reason block].
    split; [split; auto | auto]. }
  rewrite (bool_decide_eq_false_2 _ E429).
  destruct (bool_decide (statusCode = 503) && some CLOUDFLARE_PATTERNS html) eqn:E503.
  { apply andb_true_iff in E503 as [E503 Hs]. apply bool_decide_eq_true in E503.
    apply some_matches in Hs. cbn [blocked reason block]. split; [split; auto | auto]. }
  destruct (2 <=? matches CLOUDFLARE_PATTERNS html) eqn:E2.
  { apply Nat.leb_le in E2. cbn [blocked reason block]. split; [split; auto | auto]. }
  apply Nat.leb_gt in E2. cbn [blocked reason block]. split; [| auto].
  split; [discriminate |].
  intros [? | [? | [[H503 H1] | ?]]]; try lia; try contradiction.
  apply some_matches in H1. rewrite H1, andb_true_r in E503.
  apply bool_decide_eq_false in E503. contradiction.
Qed.

(** X2 on a page of more than 50000 characters that opens with two
    Cloudflare markers. *)
Lemma isBlocked_long_page_witness :
  blocked (isBlocked long_cf_page 200 EmptyString) = true ↔
    200 = 403 ∨ 200 = 429
    ∨ (200 = 503 ∧ 1 ≤ matches CLOUDFLARE_PATTERNS long_cf_page)
    ∨ 2 ≤ matches CLOUDFLARE_PATTERNS long_cf_page.
Proof.
  exact (proj1 (isBlocked_long_page long_cf_page 200 EmptyString long_cf_page_length)).
Defined.

(** X3: the reason empty_body is given only to a body that is not empty,
    shorter than 500 characters and contains challenge or captcha; an empty
    body is not classified blocked unless the status is 403 or 429. *)
Theorem isBlocked_empty_body :
  (∀ (html : string) (statusCode : nat) (u : string),
     reason (isBlocked html statusCode u) = Some empty_body →
     html ≠ EmptyString ∧ (Str.length html < 500)%N
     ∧ (Str.includes html "challenge" = true ∨ Str.includes html "captcha" = true))
  ∧ (∀ (statusCode : nat) (u : string),
       statusCode ≠ 403 → statusCode ≠ 429 →
       isBlocked EmptyString statusCode u
       = {| blocked := false; reason := None; confidence := 0 |}).
Proof.
  split.
  - intros html statusCode u. unfold isBlocked.
    repeat match goal with
           | |- context [if ?b then block _ _ else _] => destruct b eqn:?
           end; cbn; intros Heq; try discriminate Heq.
    repeat match goal with
           | E : (_ && _) = true |- _ => apply andb_true_iff in E as [? ?]
           end.
    match goal with
    | E : negb (bool_decide (html = EmptyString)) = true |- _ =>
        apply negb_true_iff in E; rewrite E in *;
        apply bool_decide_eq_false in E
    end.
    cbn [orb] in *.
    repeat match goal with
           | E : (_ <? _)%N = true |- _ => apply N.ltb_lt in E
           | E : (_ || _) = true |- _ => apply orb_true_iff in E
           end.
    auto.
  - intros statusCode u H403 H429. unfold isBlocked.
    rewrite (bool_decide_eq_false_2 _ H403), (bool_decide_eq_false_2 _ H429).
    assert (some CLOUDFLARE_PATTERNS EmptyString = false) as -> by (vm_compute; reflexivity).
    rewrite andb_false_r. vm_compute. reflexivity.
Qed.

(** X3 on the body captcha and on the empty body with status 200. *)
Lemma isBlocked_empty_body_witness :
  (Str.length "captcha" < 500)%N
  ∧ isBlocked EmptyString 200 EmptyString
    = {| blocked := false; reason := None; confidence := 0 |}.
Proof.
  destruct isBlocked_empty_body as [Hsmall Hempty]. split.
  - apply (Hsmall "captcha" 200 EmptyString). vm_compute. reflexivity.
  - apply Hempty; lia.
Defined.

End DetectorMore.

(** ** More on the engine waterfall *)

Section WaterfallMore.
Import Waterfall.
Context {P : Platform} {World : Type} (rt : @Runtime World).

(** The escalation loop: the engines invoked are engines of the chain, in
    its order, each at most once, the last one being the engine whose answer
    is returned; one counter is incremented. *)
Lemma tryEngines_spec enginesToTry url o st w r st' w' :
  tryEngines rt enginesToTry url o st w = (r, st', w') →
  ∃ called,
    invoked st' = invoked st ++ called
    ∧ called `sublist_of` map name enginesToTry
    ∧ match r with
      | Returns res =>
          stats st' = bump (engine res) (stats st)
          ∧ last called = Some (engine res)
      | Throws => stats st' = bumpBlocked (stats st)
      end.
Proof.
  revert st w. induction enginesToTry as [|cfg rest IH]; intros st w;
    cbn [tryEngines].
  - intros [= <- <- <-]. exists []. rewrite app_nil_r. cbn. auto.
  - destruct (fetchWithEngine rt url (name cfg) _ st w) as [[r1 st1] w1] eqn:Hf.
    apply fetchWithEngine_spec in Hf as (Hs & Hcall).
    assert (tryEngines rt rest url o st1 w1 = (r, st', w') →
            ∃ called,
              invoked st' = invoked st ++ called
              ∧ called `sublist_of` map name (cfg :: rest)
              ∧ match r with
                | Returns res =>
                    stats st' = bump (engine res) (stats st)
                    ∧ last called = Some (engine res)
                | Throws => stats st' = bumpBlocked (stats st)
                end) as Hrest.
    { intros Ht. apply IH in Ht as (called & Hi & Hsub & Hr).
      rewrite Hs in Hr.
      destruct Hcall as [(Hi1 & _) | (Hi1 & _)]; rewrite Hi1 in Hi.
      - exists called. split; [exact Hi |]. split; [| exact Hr].
        cbn [map]. apply sublist_cons, Hsub.
      - exists (name cfg :: called). rewrite <- app_assoc in Hi.
        split; [exact Hi |]. split; [cbn [map]; apply sublist_skip, Hsub |].
        destruct r as [res|]; [| exact Hr]. destruct Hr as [Hst Hl].
        split; [exact Hst |]. destruct called; [discriminate Hl | exact Hl]. }
    destruct r1 as [res1|]; [| exact Hrest].
    destruct (blocked res1) eqn:Hb; [exact Hrest |].
    intros [= <- <- <-]. cbn [stats invoked].
    destruct Hcall as [(_ & [=] & _) | (Hi1 & w0 & r0 & Hr0 & Hm)].
    destruct r0 as [raw|]; [| discriminate Hm].
    destruct Hm as (res2 & [= <-] & He & _).
    exists [name cfg]. split; [exact Hi1 |]. split.
    + cbn [map]. apply sublist_skip, sublist_nil_l.
    + rewrite He, Hs. auto.
Qed.

(** X4: without a forced engine, one call of [fetch] invokes engines only
    in the order fetch, playwright, rebrowser, each at most once; for a
    host that [needsBrowser] names the plain fetch engine is not invoked;
    and the engine whose answer is returned is the last one invoked. *)
Theorem waterfall_order (url : string) (options : EngineOptions)
    (st : State) (w : World) r st' w' :
  forceEngine options = None →
  fetch rt url options st w = (r, st', w') →
  ∃ called,
    invoked st' = invoked st ++ called
    ∧ called `sublist_of` [Fetch; Playwright; Rebrowser]
    ∧ (Detector.needsBrowser url = true → Fetch ∉ called)
    ∧ (∀ res, r = Returns res → last called = Some (engine res)).
Proof.
  intros Hnone Hf. unfold fetch in Hf. rewrite Hnone in Hf.
  apply tryEngines_spec in Hf as (called & Hi & Hsub & Hr).
  exists called. split; [exact Hi |].
  destruct (Detector.needsBrowser url); cbn in Hsub.
  - split; [apply sublist_cons, Hsub |]. split.
    + intros _ Hin. eapply elem_of_sublist in Hin; [| exact Hsub].
      apply elem_of_cons in Hin as [[=] | Hin].
      apply elem_of_cons in Hin as [[=] | Hin]. inversion Hin.
    + intros res ->. apply Hr.
  - split; [exact Hsub |]. split; [discriminate |]. intros res ->. apply Hr.
Qed.

(** X5: without a forced engine, one call of [fetch] adds one to exactly
    one counter: that of the engine whose answer it returns, or
    [blocked] when it throws. *)
Theorem waterfall_stats (url : string) (options : EngineOptions)
    (st : State) (w : World) r st' w' :
  forceEngine options = None →
  fetch rt url options st w = (r, st', w') →
  match r with
  | Returns res => stats st' = bump (engine res) (stats st)
  | Throws => stats st' = bumpBlocked (stats st)
  end
  ∧ fetchCount (stats st') + playwrightCount (stats st')
    + rebrowserCount (stats st') + blockedCount (stats st')
    = S (fetchCount (stats st) + playwrightCount (stats st)
         + rebrowserCount (stats st) + blockedCount (stats st)).
Proof.
  intros Hnone Hf. unfold fetch in Hf. rewrite Hnone in Hf.
  apply tryEngines_spec in Hf as (called & _ & _ & Hr).
  destruct r as [res|].
  - destruct Hr as [Hr _]. split; [exact Hr |]. rewrite Hr.
    destruct (engine res); cbn; lia.
  - split; [exact Hr |]. rewrite Hr. cbn. lia.
Qed.

(** X6: when the URL is not of a protected host and the plain fetch
    engine answers with a response that is classified not blocked, [fetch]
    returns that response, as the result of the fetch engine, and invokes
    no other engine; the browser installation is not started. *)
Theorem waterfall_cheap_first (url : string) (options : EngineOptions)
    (st : State) (w : World) (raw : RawResult) (w1 : World) :
  forceEngine options = None →
  Detector.needsBrowser url = false →
  engine_fetch rt Fetch url
    (withTimeout options (Some (timeoutOr options 5000))) w = (Returns raw, w1) →
  classifiedBlocked url raw = false →
  ∃ res st',
    fetch rt url options st w = (Returns res, st', w1)
    ∧ engine res = Fetch ∧ blocked res = false
    ∧ html res = raw_html raw ∧ statusCode res = raw_statusCode raw
    ∧ finalUrl res = raw_finalUrl raw
    ∧ invoked st' = invoked st ++ [Fetch]
    ∧ browserInstallPromise st' = browserInstallPromise st.
Proof.
  intros Hnone Hnb Hcheap Hok. unfold fetch. rewrite Hnone, Hnb.
  cbn [drop ENGINES tryEngines name defaultTimeout fetchWithEngine].
  unfold callEngine. rewrite Hcheap.
  fold (classifiedBlocked url raw). cbn [blocked]. rewrite Hok.
  eexists _, _. split; [reflexivity |]. cbn. auto 10.
Qed.

End WaterfallMore.

(** ** More on robots.txt *)

Section RobotsMore.
Import Robots Demo.
Context {P : Platform}.

Lemma matchHere_star (ci toEnd : bool) (re : list Re.atom) (s : string) :
  Re.matchHere ci toEnd (Re.AnyStar :: re) s =
  Re.matchHere ci toEnd re s ||
  match s with
  | EmptyString => false
  | String d s' => Re.dot d && Re.matchHere ci toEnd (Re.AnyStar :: re) s'
  end.
Proof. destruct s; reflexivity. Qed.

Lemma convert_literal (pattern : string) :
  Str.includes pattern "*" = false → convert pattern = Re.lit pattern.
Proof.
  induction pattern as [|c rest IH]; [reflexivity |].
  cbn [Str.includes Str.startsWith convert Re.lit].
  intros Hno. apply orb_false_iff in Hno as [Hc Hrest].
  rewrite startsWith_nil, andb_true_r in Hc.
  rewrite Ascii.eqb_sym, Hc, (IH Hrest). reflexivity.
Qed.

Lemma matchHere_literal (p s : string) :
  Re.matchHere false false (Re.lit p) s = Str.startsWith s p.
Proof.
  revert s. induction p as [|c p IH]; intros s; [destruct s; reflexivity |].
  destruct s as [|d s]; [reflexivity |].
  cbn [Re.lit Re.matchHere Re.eqChar Str.startsWith]. rewrite IH. reflexivity.
Qed.

Lemma matchHere_literal_end (p s : string) :
  Re.matchHere false true (Re.lit p) s = bool_decide (s = p).
Proof.
  revert s. induction p as [|c p IH]; intros s; [reflexivity |].
  destruct s as [|d s]; [reflexivity |].
  cbn [Re.lit Re.matchHere Re.eqChar]. rewrite IH.
  destruct (Ascii.eqb_spec c d) as [-> | Hne]; cbn [andb].
  - apply bool_decide_ext. split; [intros ->; reflexivity | intros [= ->]; reflexivity].
  - symmetry. apply bool_decide_eq_false. intros [= -> _]. contradiction.
Qed.

Lemma matchHere_extends (ci : bool) (re : list Re.atom) (s more : string) :
  Re.matchHere ci false re s = true →
  Re.matchHere ci false re (s +:+ more) = true.
Proof.
  revert s. induction re as [|a re IH]; intros s; [reflexivity |].
  destruct a as [c|].
  - destruct s as [|d s]; [discriminate |].
    change (String d s +:+ more) with (String d (s +:+ more)).
    cbn [Re.matchHere]. intros Hm. apply andb_true_iff in Hm as [Hc Hm].
    rewrite Hc, (IH _ Hm). reflexivity.
  - induction s as [|d s IHs].
    + rewrite matchHere_star, orb_false_r. intros Hm.
      rewrite matchHere_star, (IH _ Hm). reflexivity.
    + rewrite matchHere_star. intros Hm.
      change (String d s +:+ more) with (String d (s +:+ more)).
      rewrite matchHere_star.
      apply orb_true_iff in Hm as [Hm | Hm].
      * apply (IH _) in Hm.
        change (String d s +:+ more) with (String d (s +:+ more)) in Hm.
        rewrite Hm. reflexivity.
      * apply andb_true_iff in Hm as [Hd Hm].
        rewrite Hd, (IHs Hm). apply orb_true_r.
Qed.

(** X7: a robots.txt pattern without a star and without a final dollar,
    other than the single slash, matches exactly the paths that start with
    it: the characters special in a regular expression stand for
    themselves. *)
Theorem pathMatches_literal (path pattern : string) :
  Str.includes pattern "*" = false →
  Str.endsWith pattern "$" = false →
  pattern ≠ "/" →
  pathMatches path pattern = Str.startsWith path pattern.
Proof.
  intros Hstar Hend Hroot. unfold pathMatches.
  rewrite (bool_decide_eq_false_2 _ Hroot), Hend, (convert_literal _ Hstar).
  apply matchHere_literal.
Qed.

(** X8: a pattern without a star that ends with a dollar matches one
    path only, the pattern without the dollar. *)
Theorem pathMatches_anchored (path prefix : string) :
  Str.includes prefix "*" = false →
  pathMatches path (prefix +:+ "$") = bool_decide (path = prefix).
Proof.
  intros Hstar. unfold pathMatches.
  rewrite bool_decide_eq_false_2.
  2:{ destruct prefix as [|c [|d rest]]; discriminate. }
  rewrite endsWith_snoc, dropLast_snoc, (convert_literal _ Hstar).
  apply matchHere_literal_end.
Qed.

(** X9: a pattern that does not end with a dollar and matches a path
    matches every extension of that path. *)
Theorem pathMatches_extends (path pattern more : string) :
  Str.endsWith pattern "$" = false →
  pathMatches path pattern = true →
  pathMatches (path +:+ more) pattern = true.
Proof.
  intros Hend. unfold pathMatches.
  destruct (bool_decide (pattern = "/")); [reflexivity |].
  rewrite Hend. apply matchHere_extends.
Qed.

End RobotsMore.

Section RobotsMore2.
Import Robots RobotsShape Demo.
Context {P : Platform}.

Lemma lowerChar_idem (c : ascii) : Str.lowerChar (Str.lowerChar c) = Str.lowerChar c.
Proof. destruct c as [[] [] [] [] [] [] [] []]; reflexivity. Qed.

Lemma toLowerCase_idem (s : string) :
  Str.toLowerCase (Str.toLowerCase s) = Str.toLowerCase s.
Proof.
  induction s as [|c s IH]; [reflexivity |].
  cbn [Str.toLowerCase]. rewrite lowerChar_idem, IH. reflexivity.
Qed.

Lemma nonEmpty_true (s : string) : nonEmpty s = true → s ≠ EmptyString.
Proof.
  unfold nonEmpty. intros Hn. apply negb_true_iff, bool_decide_eq_false in Hn.
  exact Hn.
Qed.

Lemma parseLine_wellFormed (a : Acc) (line : string) :
  wellFormedAcc a → wellFormedAcc (parseLine a line).
Proof.
  intros (Hr & Hs & Hc). unfold parseLine.
  destruct (negb (nonEmpty (Str.trim line)) || Str.startsWith (Str.trim line) "#");
    [repeat split; assumption |].
  destruct (Str.indexOf (Str.trim line) ":") as [colonIndex|];
    [| repeat split; assumption].
  set (value := Str.trim (Str.drop (S colonIndex) (Str.trim line))).
  destruct (bool_decide (_ = "user-agent")).
  { split; [| split]; cbn; [| exact Hs |].
    - unfold closeRule. destruct (currentRule a) as [r|]; [| exact Hr].
      apply Forall_app. split; [exact Hr |]. constructor; [exact Hc | constructor].
    - split; [apply toLowerCase_idem |]. split; constructor. }
  destruct (bool_decide (_ = "allow")).
  { destruct (nonEmpty value) eqn:Hv; [| repeat split; assumption].
    apply nonEmpty_true in Hv.
    split; [exact Hr |]. split; [exact Hs |]. cbn.
    destruct (currentRule a) as [r|]; [| exact I]. cbn in *.
    destruct Hc as (Hu & Ha & Hd). split; [exact Hu |]. split; [| exact Hd].
    apply Forall_app. split; [exact Ha |]. constructor; [exact Hv | constructor]. }
  destruct (bool_decide (_ = "disallow")).
  { destruct (nonEmpty value) eqn:Hv; [| repeat split; assumption].
    apply nonEmpty_true in Hv.
    split; [exact Hr |]. split; [exact Hs |]. cbn.
    destruct (currentRule a) as [r|]; [| exact I]. cbn in *.
    destruct Hc as (Hu & Ha & Hd). split; [exact Hu |]. split; [exact Ha |].
    apply Forall_app. split; [exact Hd |]. constructor; [exact Hv | constructor]. }
  destruct (bool_decide (_ = "crawl-delay")).
  { destruct (parseFloat value) as [delay|]; [| repeat split; assumption].
    split; [exact Hr |]. split; [exact Hs |]. cbn.
    destruct (currentRule a) as [r|]; [| exact I]. exact Hc. }
  destruct (bool_decide (_ = "sitemap")); [| repeat split; assumption].
  destruct (nonEmpty value) eqn:Hv; [| repeat split; assumption].
  apply nonEmpty_true in Hv.
  split; [exact Hr |]. split; [| exact Hc]. cbn.
  apply Forall_app. split; [exact Hs |]. constructor; [exact Hv | constructor].
Qed.

Lemma parseLines_wellFormed (lines : list string) (a : Acc) :
  wellFormedAcc a → wellFormedAcc (fold_left parseLine lines a).
Proof.
  revert a. induction lines as [|l ls IH]; intros a Ha; [exact Ha |].
  cbn [fold_left]. apply IH, parseLine_wellFormed, Ha.
Qed.

(** X10: [parseRobotsTxt] records for the host rule blocks whose user
    agent is in lower case and whose allow and disallow patterns are not
    empty, and sitemap entries that are not empty; the records of the other
    hosts stay as they are. *)
Theorem parseRobotsTxt_wellFormed (rp : RobotsParser) (host text : string) :
  let rp' := parseRobotsTxt rp host text in
  ∃ hostRules hostSitemaps,
    rules rp' !! host = Some hostRules
    ∧ sitemaps rp' !! host = Some hostSitemaps
    ∧ Forall (λ r, Str.toLowerCase (userAgent r) = userAgent r
                   ∧ Forall (λ p, p ≠ EmptyString) (allow r)
                   ∧ Forall (λ p, p ≠ EmptyString) (disallow r)) hostRules
    ∧ Forall (λ s, s ≠ EmptyString) hostSitemaps
    ∧ ∀ h, h ≠ host →
        rules rp' !! h = rules rp !! h ∧ sitemaps rp' !! h = sitemaps rp !! h.
Proof.
  intros rp'. subst rp'. unfold parseRobotsTxt.
  set (a := fold_left parseLine _ _).
  assert (wellFormedAcc a) as (Hr & Hs & Hc).
  { apply parseLines_wellFormed. split; [constructor |]. split; [constructor | exact I]. }
  exists (closeRule a), (acc_sitemaps a). cbn [rules sitemaps].
  split; [apply lookup_insert_eq |]. split; [apply lookup_insert_eq |].
  split; [| split; [exact Hs |]].
  - unfold closeRule. destruct (currentRule a) as [r|]; [| exact Hr].
    apply Forall_app. split; [exact Hr |]. constructor; [exact Hc | constructor].
  - intros h Hne. rewrite !lookup_insert_ne by congruence. auto.
Qed.

(** X11: a call of [parse] that returns leaves a record for the host of
    the URL and the records of the other hosts as they are; if the host had
    a record already, nothing changes; and every later call for a URL of
    that host leaves the parser as it is, whatever the network would
    answer. *)
Theorem robots_parse_once (rp : RobotsParser) (url : string) (resp : HttpOutcome)
    (rp' : RobotsParser) :
  parse rp url resp = Returns rp' →
  ∃ u, url_parse url = Some u
    ∧ is_Some (rules rp' !! hostname u)
    ∧ (is_Some (rules rp !! hostname u) → rp' = rp)
    ∧ (∀ h, h ≠ hostname u →
         rules rp' !! h = rules rp !! h ∧ sitemaps rp' !! h = sitemaps rp !! h)
    ∧ (∀ url2 u2 resp2,
         url_parse url2 = Some u2 → hostname u2 = hostname u →
         parse rp' url2 resp2 = Returns rp').
Proof.
  unfold parse. destruct (url_parse url) as [u|] eqn:Hu; [| discriminate].
  intros Hp. exists u. split; [reflexivity |].
  assert (is_Some (rules rp' !! hostname u)
          ∧ (is_Some (rules rp !! hostname u) → rp' = rp)
          ∧ (∀ h, h ≠ hostname u →
               rules rp' !! h = rules rp !! h
               ∧ sitemaps rp' !! h = sitemaps rp !! h)) as (Hsome & Hsame & Hframe).
  { destruct (rules rp !! hostname u) as [known|] eqn:Hk.
    - injection Hp as <-. rewrite Hk. split; [eauto |]. split; auto.
    - assert (∀ rs sm, (∀ h, h ≠ hostname u → sm !! h = sitemaps rp !! h) →
                rp' = {| rules := <[hostname u := rs]> (rules rp); sitemaps := sm |} →
                is_Some (rules rp' !! hostname u)
                ∧ (is_Some (@None (list RobotsRule)) → rp' = rp)
                ∧ (∀ h, h ≠ hostname u →
                     rules rp' !! h = rules rp !! h
                     ∧ sitemaps rp' !! h = sitemaps rp !! h)) as Hset.
      { intros rs sm Hsm ->. cbn. rewrite lookup_insert_eq. split; [eauto |].
        split; [intros [? [=]] |]. intros h Hne.
        rewrite lookup_insert_ne by congruence. auto. }
      destruct resp as [|[] [text|]]; injection Hp as <-;
        (eapply Hset; revgoals; [unfold parseRobotsTxt; reflexivity |]);
        intros h Hne; rewrite ?lookup_insert_ne by congruence; reflexivity. }
  split; [exact Hsome |]. split; [exact Hsame |]. split; [exact Hframe |].
  intros url2 u2 resp2 Hu2 Hh. rewrite Hu2, Hh.
  destruct Hsome as [known ->]. reflexivity.
Qed.

End RobotsMore2.

(** ** More on sitemaps *)

Section SitemapMore.
Import Sitemap.
Context {P : Platform} {World : Type}.
Variable http : string → World → HttpOutcome * World.
Variable select_text : string → string → list string.

Lemma parseSitemapContent_requests (content origin_ : string) (n : Net) :
  ∃ asked,
    requested (snd (parseSitemapContent http select_text content origin_ n))
    = requested n ++ asked
    ∧ length asked ≤ 2.
Proof.
  unfold parseSitemapContent. destruct (Str.includes content "<sitemapindex").
  - destruct (expand http select_text _ [] n) as [urls n1] eqn:He. cbn [snd].
    apply expand_spec in He as (_ & asked & Ha & Hpre & _);
      [| cbn; unfold MAX_URLS; lia].
    exists asked. split; [exact Ha |].
    apply prefix_length in Hpre. rewrite length_take in Hpre. lia.
  - exists []. cbn. rewrite app_nil_r. split; [reflexivity | lia].
Qed.

Lemma tryLocations_requests (sitemapUrls : list string) (origin_ : string)
    (urls : list string) (n : Net) :
  ∃ asked,
    requested (snd (tryLocations http select_text sitemapUrls origin_ urls n))
    = requested n ++ asked
    ∧ length asked ≤ 3 * length sitemapUrls.
Proof.
  revert urls n. induction sitemapUrls as [|sitemapUrl rest IH]; intros urls n;
    cbn [tryLocations].
  { exists []. cbn. rewrite app_nil_r. split; [reflexivity | lia]. }
  destruct (fetchSitemap http sitemapUrl n) as [content n1] eqn:Hf.
  apply fetchSitemap_spec in Hf as [Hreq _].
  assert (∀ urls1,
            ∃ asked,
              requested (snd (tryLocations http select_text rest origin_ urls1 n1))
              = requested n ++ asked
              ∧ length asked ≤ 3 * length (sitemapUrl :: rest)) as Hnext.
  { intros urls1. destruct (IH urls1 n1) as (asked & Ha & Hl).
    exists (sitemapUrl :: asked). rewrite Ha, Hreq, <- app_assoc.
    split; [reflexivity | cbn [length]; lia]. }
  destruct content as [[|c body]|]; [apply Hnext | | apply Hnext].
  destruct (parseSitemapContent_requests (String c body) origin_ n1)
    as (asked1 & Ha1 & Hl1).
  destruct (parseSitemapContent http select_text (String c body) origin_ n1)
    as [parsed n2]. cbn [snd] in Ha1.
  destruct (0 <? length (urls ++ parsed)).
  - exists (sitemapUrl :: asked1). cbn [snd]. rewrite Ha1, Hreq, <- app_assoc.
    split; [reflexivity | cbn [length]; lia].
  - destruct (IH (urls ++ parsed) n2) as (asked & Ha & Hl).
    exists (sitemapUrl :: asked1 ++ asked).
    rewrite Ha, Ha1, Hreq, <- !app_assoc.
    split; [reflexivity |]. cbn [length]. rewrite length_app. lia.
Qed.

(** X12: [parse] returns at most 200 URLs and caches at most 200 URLs
    per host, provided the cache holds at most 200 URLs per host before the
    call (as the empty cache does). *)
Theorem sitemap_parse_cap (sp : SitemapParser) (url : string) (n : Net) :
  (∀ host cached, cache sp !! host = Some cached → length cached ≤ 200) →
  let r := parse http select_text sp url n in
  length (fst (fst r)) ≤ 200
  ∧ ∀ host cached,
      cache (snd (fst r)) !! host = Some cached → length cached ≤ 200.
Proof.
  intros Hcache r. subst r. unfold parse.
  destruct (url_parse url) as [u|]; [| cbn; split; [lia | exact Hcache]].
  destruct (cache sp !! hostname u) as [cached|] eqn:Hc.
  { cbn. split; [eapply Hcache; exact Hc | exact Hcache]. }
  pose proof (tryLocations_length http select_text
                [origin u +:+ "/sitemap.xml"; origin u +:+ "/sitemap_index.xml";
                 origin u +:+ "/sitemap/sitemap.xml"] (origin u) n) as Hlen.
  destruct (tryLocations http select_text _ (origin u) [] n) as [urls n1].
  cbn [fst snd cache] in *. unfold MAX_URLS in Hlen. split; [exact Hlen |].
  intros host cached Hin.
  destruct (decide (host = hostname u)) as [-> | Hne].
  - rewrite lookup_insert_eq in Hin. injection Hin as <-. exact Hlen.
  - rewrite lookup_insert_ne in Hin by congruence. eapply Hcache. exact Hin.
Qed.

(** X13: after [parse] for a URL that parses, [parse] for any URL of the
    same host returns the same list again, without a request and without
    changing the parser: a host whose sitemaps gave nothing is not asked
    again either. *)
Theorem sitemap_parse_cached (sp : SitemapParser) (url : string) (n : Net) (u : URL) :
  url_parse url = Some u →
  let r := parse http select_text sp url n in
  ∀ (url2 : string) (u2 : URL) (n2 : Net),
    url_parse url2 = Some u2 → hostname u2 = hostname u →
    parse http select_text (snd (fst r)) url2 n2 = (fst (fst r), snd (fst r), n2).
Proof.
  intros Hu r url2 u2 n2 Hu2 Hh. subst r. unfold parse at 2 3 4.
  rewrite Hu.
  destruct (cache sp !! hostname u) as [cached|] eqn:Hc.
  - cbn [fst snd]. unfold parse. rewrite Hu2, Hh, Hc. reflexivity.
  - destruct (tryLocations http select_text _ (origin u) [] n) as [urls n1].
    cbn [fst snd]. unfold parse. rewrite Hu2, Hh. cbn [cache].
    rewrite lookup_insert_eq. reflexivity.
Qed.

(** X14: [parse] issues at most 9 requests, and none when the host is in
    the cache; [parseUrl] issues between 1 and 3 requests, the first one for
    the sitemap URL it is given. *)
Theorem sitemap_requests (sp : SitemapParser) (url : string) (n : Net) :
  (∃ asked,
     requested (snd (parse http select_text sp url n)) = requested n ++ asked
     ∧ length asked ≤ 9
     ∧ (∀ u, url_parse url = Some u → is_Some (cache sp !! hostname u) →
             asked = []))
  ∧ (∃ asked,
       requested (snd (parseUrl http select_text url n)) = requested n ++ asked
       ∧ 1 ≤ length asked ≤ 3
       ∧ head asked = Some url).
Proof.
  split.
  - unfold parse. destruct (url_parse url) as [u|].
    2:{ exists []. cbn. rewrite app_nil_r. split; [reflexivity |].
        split; [lia |]. intros u [=]. }
    destruct (cache sp !! hostname u) as [cached|] eqn:Hc.
    { exists []. cbn. rewrite app_nil_r. split; [reflexivity |].
      split; [lia | reflexivity]. }
    destruct (tryLocations_requests
                [origin u +:+ "/sitemap.xml"; origin u +:+ "/sitemap_index.xml";
                 origin u +:+ "/sitemap/sitemap.xml"] (origin u) [] n)
      as (asked & Ha & Hl).
    destruct (tryLocations http select_text _ (origin u) [] n) as [urls n1].
    exists asked. cbn [snd] in *. split; [exact Ha |]. split; [cbn in Hl; lia |].
    intros u' [= <-] [x Hx]. rewrite Hc in Hx. discriminate Hx.
  - unfold parseUrl.
    destruct (fetchSitemap http url n) as [content n1] eqn:Hf.
    apply fetchSitemap_spec in Hf as [Hreq _].
    assert (∃ asked, requested n1 = requested n ++ asked
                     ∧ 1 ≤ length asked ≤ 3 ∧ head asked = Some url) as Hone.
    { exists [url]. split; [exact Hreq |]. cbn. split; [lia | reflexivity]. }
    destruct content as [[|c rest]|]; [exact Hone | | exact Hone].
    destruct (url_parse url) as [u|]; [| exact Hone].
    destruct (parseSitemapContent_requests (String c rest) (origin u) n1)
      as (asked1 & Ha1 & Hl1).
    exists (url :: asked1). rewrite Ha1, Hreq, <- app_assoc.
    split; [reflexivity |]. cbn. split; [lia | reflexivity].
Qed.

(** X15: when no request answers with a non-empty body, [parse] for a
    host that is not in the cache requests the three well-known locations
    in order, returns the empty list and caches it for the host. *)
Theorem sitemap_parse_offline (sp : SitemapParser) (url : string) (n : Net) (u : URL) :
  (∀ x w c body, fst (http x w) ≠ Response true (Returns (String c body))) →
  url_parse url = Some u →
  cache sp !! hostname u = None →
  ∃ n',
    parse http select_text sp url n
    = ([], {| cache := <[hostname u := []]> (cache sp) |}, n')
    ∧ requested n'
      = requested n ++ [ origin u +:+ "/sitemap.xml";
                         origin u +:+ "/sitemap_index.xml";
                         origin u +:+ "/sitemap/sitemap.xml" ].
Proof.
  intros Hoff Hu Hc. unfold parse. rewrite Hu, Hc.
  assert (∀ x m, ∃ m', (fetchSitemap http x m = (None, m')
                        ∨ fetchSitemap http x m = (Some EmptyString, m'))
                       ∧ requested m' = requested m ++ [x]) as Hfail.
  { intros x m. unfold fetchSitemap.
    pose proof (Hoff x (world m)) as Hx.
    destruct (http x (world m)) as [o w1]. cbn [fst] in Hx.
    exists {| world := w1; requested := requested m ++ [x] |}.
    split; [| reflexivity].
    destruct o as [|[] [[|c body]|]]; auto. exfalso. eapply Hx. reflexivity. }
  cbn [tryLocations].
  destruct (Hfail (origin u +:+ "/sitemap.xml") n) as (n1 & H1 & R1).
  destruct (Hfail (origin u +:+ "/sitemap_index.xml") n1) as (n2 & H2 & R2).
  destruct (Hfail (origin u +:+ "/sitemap/sitemap.xml") n2) as (n3 & H3 & R3).
  exists n3. split.
  - destruct H1 as [-> | ->]; destruct H2 as [-> | ->];
      destruct H3 as [-> | ->]; reflexivity.
  - rewrite R3, R2, R1, <- !app_assoc. reflexivity.
Qed.

End SitemapMore.

(** ** More on locale detection and the dedup tracker *)

Section DedupMore.
Import Dedup LocaleShape.
Context {P : Platform}.

Lemma tag_nonEmpty (first second : string) : tag first second ≠ EmptyString.
Proof. destruct first; discriminate. Qed.

Lemma code_nonEmpty (first : string) :
  has LANGUAGE_CODES first || has COUNTRY_CODES first = true →
  first ≠ EmptyString.
Proof. intros Hc ->. vm_compute in Hc. discriminate Hc. Qed.

Lemma truthy_false (o : option string) :
  truthy o = false → o = None ∨ o = Some EmptyString.
Proof. destruct o as [[|c s]|]; cbn; intros; auto; discriminate. Qed.

Lemma leadingSegment_consistent (p : string) :
  consistent (leadingSegment {| path := p; v_locale := None;
                                v_language := None; v_country := None |}).
Proof.
  unfold leadingSegment. cbn [path v_locale v_language v_country].
  destruct (pathMatch p) as [[m1 m3]|]; [| split; reflexivity].
  set (first := Str.toLowerCase m1).
  destruct (has LANGUAGE_CODES first || has COUNTRY_CODES first) eqn:Hcode;
    [| split; reflexivity].
  pose proof (code_nonEmpty first Hcode) as Hne.
  destruct (has LANGUAGE_CODES first) eqn:Hl;
    destruct m3 as [sec|]; cbn [fmap option_fmap option_map];
    repeat match goal with
           | |- context [if has ?l ?x then _ else _] => destruct (has l x)
           end;
    unfold consistent; cbn [v_locale v_language v_country];
    (split; [first [apply tag_nonEmpty | exact Hne] |]);
    (split; [eauto |]); intros lang [= <-]; assumption.
Qed.

Lemma midSegment_consistent (v : Vars) : consistent v → consistent (midSegment v).
Proof.
  intros Hv. unfold midSegment. destruct (truthy (v_locale v)) eqn:Ht; [exact Hv |].
  destruct (midPathMatch (path v)) as [[m1 m3]|]; [| exact Hv].
  set (first := Str.toLowerCase m1).
  destruct ((has LANGUAGE_CODES first || has COUNTRY_CODES first)
            && negb (has FALSE_POSITIVES first)) eqn:Hcode; [| exact Hv].
  apply andb_true_iff in Hcode as [Hcode _].
  pose proof (code_nonEmpty first Hcode) as Hne.
  assert (∀ lang, v_language v = Some lang → has LANGUAGE_CODES lang = true) as Hlang.
  { unfold consistent in Hv. destruct (v_locale v); [apply Hv |].
    destruct Hv as [-> _]. discriminate. }
  destruct (has LANGUAGE_CODES first) eqn:Hl;
    destruct m3 as [sec|]; cbn [fmap option_fmap option_map];
    repeat match goal with
           | |- context [if has ?l ?x then _ else _] => destruct (has l x)
           end;
    unfold consistent; cbn [v_locale v_language v_country];
    (split; [first [apply tag_nonEmpty | exact Hne] |]);
    (split; [eauto |]); first [intros lang [= <-]; assumption | exact Hlang].
Qed.

Lemma queryParam_consistent (ps : list (string * string)) (v : Vars) :
  consistent v → consistent (queryParam ps v).
Proof.
  intros Hv. unfold queryParam.
  destruct (orElse _ _) as [[|c rest]|]; [exact Hv | | exact Hv].
  destruct (truthy (v_locale v)); [exact Hv |].
  set (parts := Str.splitBy isDashOrUnderscore _).
  set (p0 := default EmptyString (parts !! 0)).
  destruct (has LANGUAGE_CODES p0) eqn:Hl; [| exact Hv].
  assert (p0 ≠ EmptyString) as Hne by (apply code_nonEmpty; rewrite Hl; reflexivity).
  destruct (parts !! 1) as [[|d rest1]|];
    try destruct (has COUNTRY_CODES (String d rest1));
    unfold consistent; cbn [v_locale v_language v_country];
    (split; [first [apply tag_nonEmpty | exact Hne] |]);
    (split; [eauto |]); intros lang [= <-]; assumption.
Qed.

(** X16: the fields [extractLocale] returns agree: when [hasLocale] is
    true, the locale is a non-empty string, a language or a country is set,
    and a language that is set is a known language code; when it is false,
    locale, language and country are all unset. *)
Theorem extractLocale_fields (url_ : string) :
  let info := extractLocale url_ in
  if hasLocale info then
    (∃ l, locale info = Some l ∧ l ≠ EmptyString)
    ∧ (is_Some (language info) ∨ is_Some (country info))
    ∧ (∀ lang, language info = Some lang → has LANGUAGE_CODES lang = true)
  else
    locale info = None ∧ language info = None ∧ country info = None.
Proof.
  intros info. subst info. unfold extractLocale.
  destruct (url_parse url_) as [parsed|]; [| cbn; auto].
  set (v := queryParam _ _).
  assert (consistent v) as Hv.
  { apply queryParam_consistent, midSegment_consistent, leadingSegment_consistent. }
  cbn [hasLocale locale language country]. unfold consistent in Hv.
  destruct (v_locale v) as [[|c l]|]; cbn [truthy].
  - destruct Hv as [Hne _]. contradiction.
  - destruct Hv as (_ & Hset & Hlang). split; [eexists; split; [reflexivity | discriminate] |].
    split; assumption.
  - destruct Hv. auto.
Qed.

(** X17: a call of [shouldSkip] that returns adds one to
    [localeSkipped] exactly when it answers skip, adds at most one to
    [total] and none when it answers skip, leaves [similarSkipped] and the
    fingerprints alone, and keeps the number of canonical paths at most
    [total]. *)
Theorem shouldSkip_counters (t : DedupTracker) (url_ : string)
    (v : Verdict) (t' : DedupTracker) :
  shouldSkip t url_ = Returns (v, t') →
  localeSkipped (stats t')
  = localeSkipped (stats t) + (if skip v then 1 else 0)
  ∧ total (stats t) ≤ total (stats t') ≤ S (total (stats t))
  ∧ (skip v = true → total (stats t') = total (stats t))
  ∧ similarSkipped (stats t') = similarSkipped (stats t)
  ∧ fingerprints t' = fingerprints t
  ∧ (size (canonicalPaths t) ≤ total (stats t) →
     size (canonicalPaths t') ≤ total (stats t')).
Proof.
  unfold shouldSkip. destruct (url_parse url_) as [parsed|]; [| discriminate].
  set (key := hostname parsed +:+ canonicalPath (extractLocale url_)).
  assert (∀ e, size (<[key := e]> (canonicalPaths t)) ≤ S (size (canonicalPaths t)))
    as Hgrow.
  { intros e. destruct (canonicalPaths t !! key) as [old|] eqn:Hk.
    - rewrite <- (insert_delete_id (canonicalPaths t) key old) at 1 by exact Hk.
      rewrite insert_insert_eq.
      rewrite map_size_insert_None by apply lookup_delete_eq.
      rewrite <- (insert_delete_id (canonicalPaths t) key old) at 2 by exact Hk.
      rewrite map_size_insert_None by apply lookup_delete_eq. lia.
    - rewrite map_size_insert_None by exact Hk. lia. }
  assert (∀ old e, canonicalPaths t !! key = Some old →
            size (<[key := e]> (canonicalPaths t)) = size (canonicalPaths t))
    as Hsame.
  { intros old e Hk. rewrite map_size_insert_Some; [reflexivity | eauto]. }
  destruct (canonicalPaths t !! key) as [existing|] eqn:Hk.
  - destruct (hasLocale (extractLocale url_)).
    + destruct (_ || _).
      * intros [= <- <-]. cbn. repeat split; try lia; try discriminate.
      * destruct (bool_decide _).
        -- intros [= <- <-]. cbn. rewrite (Hsame existing) by reflexivity.
           repeat split; try lia; try discriminate.
        -- intros [= <- <-]. cbn. repeat split; try lia.
    + intros [= <- <-]. cbn. specialize (Hgrow (entryOf url_)).
      unfold entryOf in Hgrow. repeat split; try lia; try discriminate.
  - intros [= <- <-]. cbn. specialize (Hgrow (entryOf url_)).
    unfold entryOf in Hgrow. repeat split; try lia; try discriminate.
Qed.

End DedupMore.

(** ** More on the crawler *)

Section CrawlerMore.
Import Crawler CrawlShape.
Context {P : Platform}.

Lemma guards_true (c : State) (url : string) (depth : nat) :
  guards c url depth = true →
  (UrlUtil.normalizeUrl url ∉ visited c)
  ∧ size (visited c) < CrawlOptions.maxPages (options c)
  ∧ depth ≤ CrawlOptions.depth (options c)
  ∧ UrlUtil.shouldSkipUrl url = false
  ∧ UrlUtil.getBaseDomain url ∈ baseHosts c
  ∧ (CrawlOptions.respectRobots (options c) = true →
     Robots.isAllowed (robots c) url "*" = true)
  ∧ testPattern (CrawlOptions.includePattern (options c)) true url = true
  ∧ testPattern (CrawlOptions.excludePattern (options c)) false url = false.
Proof.
  unfold guards. intros Hg. repeat (apply andb_true_iff in Hg as [Hg ?]).
  repeat match goal with
         | E : negb _ = true |- _ => apply negb_true_iff in E
         end.
  apply bool_decide_eq_false in Hg.
  repeat match goal with
         | E : bool_decide _ = true |- _ => apply bool_decide_eq_true in E
         | E : (_ <=? _) = false |- _ => apply Nat.leb_gt in E
         | E : (_ <? _) = false |- _ => apply Nat.ltb_ge in E
         end.
  repeat split; try assumption.
  intros Hr. match goal with
             | E : (_ && _) = false |- _ => rewrite Hr in E; cbn in E;
                                            apply negb_false_iff in E; exact E
             end.
Qed.

(** One admission: nothing but the dedup tracker changes, or the URL
    passed every check and is appended to the queue. *)
Lemma enqueueIfAllowed_cases (depth : nat) (c : State) (u : string) :
  (∃ d, enqueueIfAllowed depth c u = withDedup c d)
  ∨ (∃ d, guards c u depth = true
          ∧ enqueueIfAllowed depth c u =
            {| options := options c; robots := robots c; dedup := d;
               visited := {[UrlUtil.normalizeUrl u]} ∪ visited c;
               queue := queue c ++ [(u, depth)];
               baseHosts := baseHosts c;
               results := results c; phase := phase c; yielded := yielded c |}).
Proof.
  unfold enqueueIfAllowed. rewrite shouldCrawl_unfold.
  destruct (guards c u depth) eqn:Hg.
  2:{ left. exists (dedup c). destruct c; reflexivity. }
  destruct (Dedup.shouldSkip (dedup c) u) as [[v d]|].
  2:{ left. exists (dedup c). destruct c; reflexivity. }
  destruct (Dedup.skip v); cbn [negb]; [left; eauto |].
  destruct (addToQueue_spec (withDedup c d) u depth) as [-> | (_ & _ & ->)];
    [left; eauto |].
  right. exists d. split; reflexivity.
Qed.

Lemma owned_withDedup (c : State) (d : Dedup.DedupTracker) :
  owned (withDedup c d) = owned c.
Proof. reflexivity. Qed.

Lemma Tracked_snoc opts seeds (seen : gset string) pages (task : string * nat) :
  Tracked opts seeds seen pages →
  Legit opts seeds task → key task ∉ seen →
  Tracked opts seeds ({[key task]} ∪ seen) (pages ++ [task]).
Proof.
  intros (Hl & Hv & Hn) Ht Hfresh. split; [| split].
  - apply Forall_app. split; [exact Hl |]. constructor; [exact Ht | constructor].
  - apply Forall_app. split.
    + eapply Forall_impl; [exact Hv |]. cbn. intros t Hin. set_solver.
    + constructor; [set_solver | constructor].
  - rewrite fmap_app. apply NoDup_app. split; [exact Hn |]. split.
    + intros x Hx Hin. cbn in Hin. apply list_elem_of_singleton in Hin as ->.
      apply list_elem_of_fmap in Hx as (t & Ht' & Hin).
      rewrite Forall_forall in Hv. apply Hfresh. rewrite Ht'. apply Hv, Hin.
    + cbn. apply NoDup_singleton.
Qed.

Lemma Tracked_perm opts seeds (seen : gset string) pages pages' :
  pages ≡ₚ pages' → Tracked opts seeds seen pages → Tracked opts seeds seen pages'.
Proof.
  intros Hp (Hl & Hv & Hn). split; [| split].
  - rewrite <- Hp. exact Hl.
  - rewrite <- Hp. exact Hv.
  - rewrite <- Hp. exact Hn.
Qed.

Lemma Tracked_tail opts seeds (seen : gset string) task pages :
  Tracked opts seeds seen (task :: pages) → Tracked opts seeds seen pages.
Proof.
  intros (Hl & Hv & Hn). split; [| split].
  - inversion Hl; assumption.
  - inversion Hv; assumption.
  - rewrite fmap_cons in Hn. apply NoDup_cons in Hn as [_ Hn]. exact Hn.
Qed.

(** An admission leaves everything but the dedup tracker, the visited set
    and the queue as it is, and appends at most its URL to the queue. *)
Lemma enqueueIfAllowed_frame depth c u :
  let c' := enqueueIfAllowed depth c u in
  options c' = options c ∧ baseHosts c' = baseHosts c ∧ robots c' = robots c
  ∧ results c' = results c ∧ yielded c' = yielded c ∧ phase c' = phase c
  ∧ ∃ added, queue c' = queue c ++ added ∧ added `sublist_of` [(u, depth)].
Proof.
  intros c'. subst c'.
  destruct (enqueueIfAllowed_cases depth c u) as [[d ->] | (d & _ & ->)];
    cbn [withDedup options baseHosts robots results yielded phase queue];
    (split; [reflexivity |]); (split; [reflexivity |]); (split; [reflexivity |]);
    (split; [reflexivity |]); (split; [reflexivity |]); (split; [reflexivity |]).
  - exists []. rewrite app_nil_r. split; [reflexivity | apply sublist_nil_l].
  - exists [(u, depth)]. split; reflexivity.
Qed.

Lemma enqueueAll_frame depth us c :
  let c' := fold_left (enqueueIfAllowed depth) us c in
  options c' = options c ∧ baseHosts c' = baseHosts c ∧ robots c' = robots c
  ∧ results c' = results c ∧ yielded c' = yielded c ∧ phase c' = phase c
  ∧ ∃ added, queue c' = queue c ++ added
             ∧ added `sublist_of` ((λ u, (u, depth)) <$> us).
Proof.
  revert c. induction us as [|u us IH]; intros c; cbn [fold_left].
  { repeat (split; [reflexivity |]). exists []. rewrite app_nil_r.
    split; [reflexivity | apply sublist_nil_l]. }
  destruct (enqueueIfAllowed_frame depth c u)
    as (Ho1 & Hb1 & Hrb1 & Hr1 & Hy1 & Hp1 & added1 & Hq1 & Hs1).
  destruct (IH (enqueueIfAllowed depth c u))
    as (Ho2 & Hb2 & Hrb2 & Hr2 & Hy2 & Hp2 & added2 & Hq2 & Hs2).
  split; [congruence |]. split; [congruence |]. split; [congruence |].
  split; [congruence |]. split; [congruence |]. split; [congruence |].
  exists (added1 ++ added2). split; [rewrite Hq2, Hq1, <- app_assoc; reflexivity |].
  rewrite fmap_cons. change ((u, depth) :: ((λ u0, (u0, depth)) <$> us))
    with ([(u, depth)] ++ ((λ u0, (u0, depth)) <$> us)).
  apply sublist_app; assumption.
Qed.

(** An admission at depth 1 or more keeps the bookkeeping of the pages
    taken on, also with pages [extra] in flight. *)
Lemma enqueueIfAllowed_tracked opts seeds extra depth c u :
  depth ≠ 0 →
  options c = opts →
  baseHosts c = list_to_set (map UrlUtil.getBaseDomain seeds) →
  Tracked opts seeds (visited c) (extra ++ owned c) →
  Tracked opts seeds (visited (enqueueIfAllowed depth c u))
    (extra ++ owned (enqueueIfAllowed depth c u)).
Proof.
  intros Hd Ho Hb Ht.
  destruct (enqueueIfAllowed_cases depth c u) as [[d ->] | (d & Hg & ->)];
    [exact Ht |].
  apply guards_true in Hg as (Hfresh & _ & _ & Hskip & Hdom & _ & Hinc & Hexc).
  cbn [visited]. unfold owned. cbn [yielded results queue].
  replace (extra ++ (taskOf <$> yielded c) ++ (taskOf <$> results c)
           ++ queue c ++ [(u, depth)])
    with ((extra ++ owned c) ++ [(u, depth)])
    by (unfold owned; rewrite <- !app_assoc; reflexivity).
  apply (Tracked_snoc opts seeds (visited c) _ (u, depth) Ht); [| exact Hfresh].
  split; [rewrite <- Hb; exact Hdom |]. split; [intros Hz; cbn in Hz; lia |].
  intros _. rewrite <- Ho. cbn. auto.
Qed.

Lemma enqueueAll_tracked opts seeds extra depth us c :
  depth ≠ 0 →
  options c = opts →
  baseHosts c = list_to_set (map UrlUtil.getBaseDomain seeds) →
  Tracked opts seeds (visited c) (extra ++ owned c) →
  Tracked opts seeds (visited (fold_left (enqueueIfAllowed depth) us c))
    (extra ++ owned (fold_left (enqueueIfAllowed depth) us c)).
Proof.
  intros Hd. revert c. induction us as [|u us IH]; intros c Ho Hb Ht;
    cbn [fold_left]; [exact Ht |].
  destruct (enqueueIfAllowed_frame depth c u) as (Ho1 & Hb1 & _).
  apply IH; [congruence | congruence |].
  apply enqueueIfAllowed_tracked; assumption.
Qed.

Lemma processUrl_kept opts seeds c before url depth after fetched extraction :
  queue c = before ++ (url, depth) :: after →
  Kept opts seeds c →
  Kept opts seeds
    (processUrl (withQueue c (before ++ after)) url depth fetched extraction).
Proof.
  intros Hq (Ho & Hb & Ht & Hw). set (c0 := withQueue c (before ++ after)).
  assert (Tracked opts seeds (visited c0) ([(url, depth)] ++ owned c0)) as Ht0.
  { eapply Tracked_perm; [| exact Ht]. unfold owned, c0. cbn [withQueue yielded results queue].
    rewrite Hq. symmetry. cbn [app]. rewrite !app_assoc.
    apply Permutation_middle. }
  assert (Kept opts seeds c0) as Hdrop.
  { split; [exact Ho |]. split; [exact Hb |]. split; [| exact Hw].
    eapply Tracked_tail. exact Ht0. }
  unfold processUrl. fold c0.
  destruct fetched as [result|]; [| exact Hdrop].
  destruct (Waterfall.blocked result); [exact Hdrop |].
  destruct (400 <=? Waterfall.statusCode result); [exact Hdrop |].
  destruct extraction as [extracted|]; [| exact Hdrop].
  destruct (ExtractResult.wordCount extracted <? 20) eqn:Hwc; [exact Hdrop |].
  apply Nat.ltb_ge in Hwc.
  set (r := {| CrawlResult.url := url;
               CrawlResult.finalUrl := Waterfall.finalUrl result;
               CrawlResult.extracted := extracted;
               CrawlResult.depth := depth;
               CrawlResult.engine := Waterfall.engine result |}).
  set (c1 := withResults c0 (results c0 ++ [r])).
  assert (Kept opts seeds c1) as Hk1.
  { split; [exact Ho |]. split; [exact Hb |]. split.
    - eapply Tracked_perm; [| exact Ht0]. unfold owned, c1, c0.
      cbn [withResults withQueue yielded results queue].
      rewrite fmap_app. cbn [fmap list_fmap]. fold (taskOf r).
      change (taskOf r) with (url, depth).
      set (Y := taskOf <$> yielded c). set (R := taskOf <$> results c).
      set (B := before ++ after).
      rewrite <- (app_assoc R [(url, depth)] B). cbn [app].
      rewrite !(app_assoc Y R). apply Permutation_middle.
    - unfold c1, c0. cbn [withResults withQueue yielded results].
      rewrite app_assoc. apply Forall_app. split; [exact Hw |].
      constructor; [exact Hwc | constructor]. }
  fold r. fold c1. destruct (depth <? CrawlOptions.depth (options c1)); [| exact Hk1].
  destruct Hk1 as (Ho1 & Hb1 & Ht1 & Hw1).
  destruct (enqueueAll_frame (depth + 1) (ExtractResult.links extracted) c1)
    as (Ho2 & Hb2 & _ & Hr2 & Hy2 & _).
  split; [congruence |]. split; [congruence |]. split.
  - apply (enqueueAll_tracked opts seeds []); [lia | assumption..].
  - rewrite Hr2, Hy2. exact Hw1.
Qed.

Lemma step_kept opts seeds c c' :
  step c c' → Kept opts seeds c → Kept opts seeds c'.
Proof.
  intros Hstep Hk. destruct Hstep.
  - exact Hk.
  - destruct Hk as (Ho & Hb & Ht & Hw). unfold addSitemapUrls.
    destruct (enqueueAll_frame 1 (take (Nat.min (CrawlOptions.maxPages (options c)) 50)
                                    sitemapUrls) c)
      as (Ho2 & Hb2 & _ & Hr2 & Hy2 & _).
    split; [congruence |]. split; [congruence |]. split.
    + apply (enqueueAll_tracked opts seeds []); [lia | assumption..].
    + rewrite Hr2, Hy2. exact Hw.
  - apply processUrl_kept; assumption.
  - exact Hk.
  - destruct Hk as (Ho & Hb & Ht & Hw).
    split; [exact Ho |]. split; [exact Hb |].
    match goal with E : results c = _ |- _ => rename E into Hres end.
    split.
    + unfold owned in *. cbn [yieldResult yielded results queue visited].
      rewrite Hres in Ht. rewrite fmap_app, <- app_assoc. exact Ht.
    + cbn [yieldResult yielded results]. rewrite Hres in Hw.
      rewrite <- app_assoc. exact Hw.
  - exact Hk.
  - exact Hk.
Qed.

Lemma seedAll_kept opts (seeds us : list string) c :
  Forall (λ u, u ∈ seeds) us →
  Kept opts seeds c →
  Kept opts seeds (fold_left (λ c u, addToQueue c u 0) us c).
Proof.
  revert c. induction us as [|u us IH]; intros c Hin Hk; cbn [fold_left];
    [exact Hk |].
  inversion Hin as [|? ? Hu Hrest]; subst. apply IH; [exact Hrest |].
  destruct Hk as (Ho & Hb & Ht & Hw).
  destruct (addToQueue_spec c u 0) as [-> | (Hfresh & _ & ->)];
    [split; [| split; [| split]]; assumption |].
  split; [exact Ho |]. split; [exact Hb |]. split; [| exact Hw].
  cbn [visited]. unfold owned. cbn [yielded results queue].
  rewrite !app_assoc. apply (Tracked_snoc opts seeds (visited c) _ (u, 0));
    [rewrite <- !app_assoc; exact Ht | | exact Hfresh].
  split; [| split; [intros _; exact Hu | intros Hn; cbn in Hn; lia]].
  cbn [fst]. apply elem_of_list_to_set, list_elem_of_fmap.
  exists u. split; [reflexivity | exact Hu].
Qed.

Lemma seed_kept opts (startUrls : list string) :
  Kept opts (map UrlUtil.normalizeUrl startUrls) (seed (create opts) startUrls).
Proof.
  unfold seed. apply seedAll_kept; [apply Forall_forall; auto |].
  split; [reflexivity |]. split; [reflexivity |]. split; [| constructor].
  split; [constructor |]. split; constructor.
Qed.

Lemma reachable_kept opts (startUrls : list string) c :
  reachable opts startUrls c →
  Kept opts (map UrlUtil.normalizeUrl startUrls) c.
Proof.
  unfold reachable. intros Hr.
  refine (rtc_ind_r (λ c, Kept opts (map UrlUtil.normalizeUrl startUrls) c)
            _ _ _ c Hr).
  - apply seed_kept.
  - intros c1 c2 _ Hstep Hk. eapply step_kept; eassumption.
Qed.


(** X18: in every state of a crawl, the URL every result yielded was
    requested under ([CrawlResult.url]) and the URL of every task of the
    queue have the base domain of one of the start URLs (normalized).
    Where redirects ended ([CrawlResult.finalUrl]) is not bound by this. *)
Theorem crawl_confined (opts : CrawlOptions.t) (startUrls : list string) (c : State) :
  reachable opts startUrls c →
  (∀ r, r ∈ yielded c →
     ∃ s, s ∈ startUrls
          ∧ UrlUtil.getBaseDomain (CrawlResult.url r)
            = UrlUtil.getBaseDomain (UrlUtil.normalizeUrl s))
  ∧ (∀ task, task ∈ queue c →
       ∃ s, s ∈ startUrls
            ∧ UrlUtil.getBaseDomain task.1
              = UrlUtil.getBaseDomain (UrlUtil.normalizeUrl s)).
Proof.
  intros Hr. apply reachable_kept in Hr as (_ & _ & (Hl & _) & _).
  rewrite Forall_forall in Hl.
  assert (∀ task, task ∈ owned c →
            ∃ s, s ∈ startUrls
                 ∧ UrlUtil.getBaseDomain task.1
                   = UrlUtil.getBaseDomain (UrlUtil.normalizeUrl s)) as Hall.
  { intros task Hin. destruct (Hl task Hin) as (Hdom & _).
    apply elem_of_list_to_set, list_elem_of_fmap in Hdom as (n & Hn & Hin').
    apply list_elem_of_fmap in Hin' as (s & -> & Hs). eauto. }
  split.
  - intros r Hin. apply (Hall (taskOf r)). unfold owned.
    apply elem_of_app. left. apply list_elem_of_fmap. eauto.
  - intros task Hin. apply Hall. unfold owned. rewrite !elem_of_app. auto.
Qed.

(** X19: in every state of a crawl, no two results yielded or buffered
    have the same normalized URL, none has the normalized URL of a task
    still in the queue, and the normalized URL of each is in the visited
    set. *)
Theorem crawl_no_duplicates (opts : CrawlOptions.t) (startUrls : list string)
    (c : State) :
  reachable opts startUrls c →
  NoDup ((λ r, UrlUtil.normalizeUrl (CrawlResult.url r))
           <$> (yielded c ++ results c))
  ∧ (∀ r task, r ∈ yielded c ++ results c → task ∈ queue c →
       UrlUtil.normalizeUrl (CrawlResult.url r) ≠ UrlUtil.normalizeUrl task.1)
  ∧ (∀ r, r ∈ yielded c ++ results c →
       UrlUtil.normalizeUrl (CrawlResult.url r) ∈ visited c).
Proof.
  intros Hr. apply reachable_kept in Hr as (_ & _ & (_ & Hv & Hn) & _).
  unfold owned in Hn, Hv. rewrite app_assoc, <- fmap_app in Hn, Hv.
  rewrite fmap_app in Hn. apply NoDup_app in Hn as (Hn & Hdis & _).
  rewrite <- list_fmap_compose in Hn. split; [exact Hn |]. split.
  - intros r task Hin Hq Heq. apply (Hdis (UrlUtil.normalizeUrl (CrawlResult.url r))).
    + rewrite <- list_fmap_compose. apply list_elem_of_fmap. eauto.
    + rewrite Heq. apply list_elem_of_fmap. exists task. split; [reflexivity | exact Hq].
  - intros r Hin. apply Forall_app in Hv as [Hv _]. rewrite Forall_forall in Hv.
    apply (Hv (taskOf r)). apply list_elem_of_fmap. eauto.
Qed.

(** X20: every result a crawl buffers or yields has a word count of at
    least 20. *)
Theorem crawl_substantial (opts : CrawlOptions.t) (startUrls : list string)
    (c : State) :
  reachable opts startUrls c →
  ∀ r, r ∈ yielded c ++ results c →
    20 ≤ ExtractResult.wordCount (CrawlResult.extracted r).
Proof.
  intros Hr. apply reachable_kept in Hr as (_ & _ & _ & Hw).
  rewrite Forall_forall in Hw. exact Hw.
Qed.

(** X21: a result yielded at depth 0 is one of the start URLs
    (normalized); a crawl with depth = 0 yields nothing but start URLs, at
    depth 0, also when sitemaps are read. *)
Theorem crawl_seeds (opts : CrawlOptions.t) (startUrls : list string) (c : State) :
  reachable opts startUrls c →
  (∀ r, r ∈ yielded c → CrawlResult.depth r = 0 →
     CrawlResult.url r ∈ map UrlUtil.normalizeUrl startUrls)
  ∧ (CrawlOptions.depth opts = 0 →
     ∀ r, r ∈ yielded c →
       CrawlResult.depth r = 0
       ∧ CrawlResult.url r ∈ map UrlUtil.normalizeUrl startUrls).
Proof.
  intros Hr. pose proof (reachable_invariant _ _ _ Hr) as (_ & (_ & _ & Hy) & Ho).
  apply reachable_kept in Hr as (_ & _ & (Hl & _) & _).
  rewrite Forall_forall in Hl. rewrite Forall_forall in Hy.
  assert (∀ r, r ∈ yielded c → CrawlResult.depth r = 0 →
            CrawlResult.url r ∈ map UrlUtil.normalizeUrl startUrls) as Hseed.
  { intros r Hin Hz. destruct (Hl (taskOf r)) as (_ & Hs & _); [| exact (Hs Hz)].
    unfold owned. apply elem_of_app. left. apply list_elem_of_fmap. eauto. }
  split; [exact Hseed |]. intros Hd r Hin.
  assert (CrawlResult.depth r = 0) as Hz.
  { specialize (Hy r Hin). cbn in Hy. rewrite Ho, Hd in Hy. lia. }
  split; [exact Hz | apply Hseed; assumption].
Qed.

(** X22: every result yielded at a depth other than 0 has a URL that
    [shouldSkipUrl] does not reject, that passes the include pattern and
    does not match the exclude pattern. *)
Theorem crawl_filters (opts : CrawlOptions.t) (startUrls : list string) (c : State) :
  reachable opts startUrls c →
  ∀ r, r ∈ yielded c → CrawlResult.depth r ≠ 0 →
    UrlUtil.shouldSkipUrl (CrawlResult.url r) = false
    ∧ testPattern (CrawlOptions.includePattern opts) true (CrawlResult.url r) = true
    ∧ testPattern (CrawlOptions.excludePattern opts) false (CrawlResult.url r) = false.
Proof.
  intros Hr r Hin Hd. apply reachable_kept in Hr as (_ & _ & (Hl & _) & _).
  rewrite Forall_forall in Hl.
  destruct (Hl (taskOf r)) as (_ & _ & Hf); [| exact (Hf Hd)].
  unfold owned. apply elem_of_app. left. apply list_elem_of_fmap. eauto.
Qed.

Lemma step_fifo c c' :
  step c c' →
  yielded c `prefix_of` yielded c'
  ∧ (yielded c ++ results c) `prefix_of` (yielded c' ++ results c').
Proof.
  intros Hstep. destruct Hstep.
  - split; reflexivity.
  - unfold addSitemapUrls.
    destruct (enqueueAll_frame 1 (take (Nat.min (CrawlOptions.maxPages (options c)) 50)
                                    sitemapUrls) c)
      as (_ & _ & _ & Hr2 & Hy2 & _).
    rewrite Hr2, Hy2. split; reflexivity.
  - unfold processUrl.
    set (c0 := withQueue c (before ++ after)).
    change (yielded c) with (yielded c0). change (results c) with (results c0).
    destruct fetched as [result|]; [| split; reflexivity].
    destruct (Waterfall.blocked result); [split; reflexivity |].
    destruct (400 <=? Waterfall.statusCode result); [split; reflexivity |].
    destruct extraction as [extracted|]; [| split; reflexivity].
    destruct (ExtractResult.wordCount extracted <? 20); [split; reflexivity |].
    match goal with
    | |- context [withResults c0 ?rs] => set (c1 := withResults c0 rs)
    end.
    assert (yielded c0 `prefix_of` yielded c1
            ∧ (yielded c0 ++ results c0) `prefix_of` (yielded c1 ++ results c1))
      as Hone.
    { split; [reflexivity |]. unfold c1. cbn [withResults yielded results].
      rewrite app_assoc. apply prefix_app_r. reflexivity. }
    destruct (depth <? CrawlOptions.depth (options c1)); [| exact Hone].
    destruct (enqueueAll_frame (depth + 1) (ExtractResult.links extracted) c1)
      as (_ & _ & _ & Hr2 & Hy2 & _).
    rewrite Hr2, Hy2. exact Hone.
  - split; reflexivity.
  - cbn [yieldResult yielded results].
    match goal with E : results c = _ |- _ => rewrite E end.
    split; [apply prefix_app_r; reflexivity |].
    rewrite <- app_assoc. reflexivity.
  - split; reflexivity.
  - split; reflexivity.
Qed.

(** X23: along a crawl the list of the results yielded only grows at its
    end, and so does the list of the results yielded followed by those
    buffered: results are yielded in the order in which they were buffered,
    none is dropped. *)
Theorem crawl_fifo (c c' : State) :
  rtc step c c' →
  yielded c `prefix_of` yielded c'
  ∧ (yielded c ++ results c) `prefix_of` (yielded c' ++ results c').
Proof.
  induction 1 as [| c0 c1 c2 Hstep _ IH]; [split; reflexivity |].
  destruct (step_fifo _ _ Hstep) as [Hy Hb]. destruct IH as [Hy' Hb'].
  split; etrans; eassumption.
Qed.

(** X24: the URLs of one sitemap add at most min(maxPages, 50) tasks to
    the queue, all at depth 1 and all taken from the sitemap; results
    buffered and yielded are left alone. *)
Theorem addSitemapUrls_bound (c : State) (sitemapUrls : list string) :
  let c' := addSitemapUrls c sitemapUrls in
  ∃ added,
    queue c' = queue c ++ added
    ∧ length added ≤ Nat.min (CrawlOptions.maxPages (options c)) 50
    ∧ (∀ task, task ∈ added → task.2 = 1 ∧ task.1 ∈ sitemapUrls)
    ∧ results c' = results c ∧ yielded c' = yielded c.
Proof.
  intros c'. subst c'. unfold addSitemapUrls.
  set (limit := Nat.min (CrawlOptions.maxPages (options c)) 50).
  destruct (enqueueAll_frame 1 (take limit sitemapUrls) c)
    as (_ & _ & _ & Hr & Hy & _ & added & Hq & Hsub).
  exists added. split; [exact Hq |]. split; [| split; [| split; assumption]].
  - apply sublist_length in Hsub. rewrite length_fmap, length_take in Hsub. lia.
  - intros task Hin. eapply elem_of_sublist in Hin; [| exact Hsub].
    apply list_elem_of_fmap in Hin as (u & -> & Hu). split; [reflexivity |].
    eapply subseteq_take. exact Hu.
Qed.

(** X25: in single-page mode (every input is a specific page and no
    depth is given) the crawler [clippy] builds yields at most one result
    per input, each at depth 0 and each one of the inputs (normalized), and
    no task of another URL or depth is ever queued. *)
Theorem clippy_single_page (options : Clippy.ClippyOptions)
    (webInputs : list string) (c : State) :
  Clippy.singlePageMode options webInputs = true →
  reachable (Clippy.crawlerOptions options webInputs) webInputs c →
  length (yielded c) ≤ length webInputs
  ∧ (∀ r, r ∈ yielded c →
       CrawlResult.depth r = 0
       ∧ CrawlResult.url r ∈ map UrlUtil.normalizeUrl webInputs)
  ∧ (∀ task, task ∈ queue c →
       task.2 = 0 ∧ task.1 ∈ map UrlUtil.normalizeUrl webInputs).
Proof.
  intros Hsingle Hr.
  pose proof (reachable_invariant _ _ _ Hr) as ((Hb & Hm) & (Hq & _ & Hy) & Ho).
  apply reachable_kept in Hr as (_ & _ & (Hl & _) & _).
  rewrite Ho in Hm, Hq, Hy. unfold Clippy.crawlerOptions in Hm, Hq, Hy.
  rewrite Hsingle in Hm, Hq, Hy. cbn [CrawlOptions.maxPages CrawlOptions.depth] in *.
  rewrite Forall_forall in Hl. rewrite Forall_forall in Hq.
  rewrite Forall_forall in Hy.
  split; [lia |]. split.
  - intros r Hin. assert (CrawlResult.depth r = 0) as Hz
      by (specialize (Hy r Hin); cbn in Hy; lia).
    split; [exact Hz |].
    destruct (Hl (taskOf r)) as (_ & Hs & _); [| exact (Hs Hz)].
    unfold owned. apply elem_of_app. left. apply list_elem_of_fmap. eauto.
  - intros task Hin. assert (task.2 = 0) as Hz
      by (specialize (Hq task Hin); cbn in Hq; lia).
    split; [exact Hz |].
    destruct (Hl task) as (_ & Hs & _); [| exact (Hs Hz)].
    unfold owned. rewrite !elem_of_app. auto.
Qed.

End CrawlerMore.

(** ** Link extraction *)

Section LinksFacts.
Import Links.
Context {P : Platform}.
Variable resolve : string → string → option string.

Lemma visit_keeps (baseUrl : string) (acc : list string * gset string)
    (href : string) :
  let acc' := visit resolve baseUrl acc href in
  (acc' = acc
   ∨ ∃ resolved,
       resolveUrl resolve href baseUrl = Some resolved
       ∧ UrlUtil.shouldSkipUrl resolved = false
       ∧ (resolved ∉ acc.2)
       ∧ acc' = (acc.1 ++ [resolved], {[resolved]} ∪ acc.2)).
Proof.
  intros acc'. subst acc'. unfold visit.
  destruct (bool_decide (href = EmptyString)); [left; reflexivity |].
  destruct (resolveUrl resolve href baseUrl) as [[|c rest]|];
    [left; reflexivity | | left; reflexivity].
  destruct (UrlUtil.shouldSkipUrl (String c rest)) eqn:Hskip; [left; reflexivity |].
  destruct (bool_decide (String c rest ∈ acc.2)) eqn:Hseen; [left; reflexivity |].
  apply bool_decide_eq_false in Hseen. right. exists (String c rest). auto.
Qed.

Lemma visitAll_keeps (baseUrl : string) (hrefs : list string)
    (acc : list string * gset string) :
  NoDup acc.1 → (∀ l, l ∈ acc.1 → l ∈ acc.2) →
  let acc' := fold_left (visit resolve baseUrl) hrefs acc in
  NoDup acc'.1 ∧ (∀ l, l ∈ acc'.1 → l ∈ acc'.2)
  ∧ ∀ l, l ∈ acc'.1 →
      l ∈ acc.1
      ∨ (UrlUtil.shouldSkipUrl l = false
         ∧ ∃ href, href ∈ hrefs ∧ resolveUrl resolve href baseUrl = Some l).
Proof.
  revert acc. induction hrefs as [|href hrefs IH]; intros acc Hn Hs; cbn [fold_left].
  { split; [exact Hn |]. split; [exact Hs | auto]. }
  destruct (visit_keeps baseUrl acc href) as [-> | (r & Hr & Hskip & Hfresh & ->)].
  - destruct (IH acc Hn Hs) as (Hn' & Hs' & Hfrom). split; [exact Hn' |].
    split; [exact Hs' |]. intros l Hl.
    destruct (Hfrom l Hl) as [? | (? & h & Hh & ?)]; [left; assumption |].
    right. split; [assumption |]. exists h. split; [right; exact Hh | assumption].
  - destruct (IH (acc.1 ++ [r], {[r]} ∪ acc.2)) as (Hn' & Hs' & Hfrom).
    + cbn [fst]. apply NoDup_app. split; [exact Hn |]. split; [| apply NoDup_singleton].
      intros x Hx Hin. apply list_elem_of_singleton in Hin as ->. apply Hfresh, Hs, Hx.
    + cbn [fst snd]. intros l Hl. apply elem_of_app in Hl as [Hl | Hl].
      * apply elem_of_union_r, Hs, Hl.
      * apply list_elem_of_singleton in Hl as ->. apply elem_of_union_l, elem_of_singleton.
        reflexivity.
    + split; [exact Hn' |]. split; [exact Hs' |]. intros l Hl.
      destruct (Hfrom l Hl) as [Hin | (? & h & Hh & ?)].
      * cbn [fst] in Hin. apply elem_of_app in Hin as [Hin | Hin]; [left; exact Hin |].
        apply list_elem_of_singleton in Hin as ->. right. split; [exact Hskip |].
        exists href. split; [left | exact Hr].
      * right. split; [assumption |]. exists h. split; [right; exact Hh | assumption].
Qed.

(** X26: [extractLinks] returns no link twice; each link is what
    [resolveUrl] gives for one of the [href] attributes, parses as a URL
    and is not rejected by [shouldSkipUrl]; with a base URL that does not
    parse it returns no link. *)
Theorem extractLinks_clean (hrefs : list string) (baseUrl : string) :
  let links := extractLinks resolve hrefs baseUrl in
  NoDup links
  ∧ (∀ l, l ∈ links →
       UrlUtil.shouldSkipUrl l = false
       ∧ is_Some (url_parse l)
       ∧ ∃ href, href ∈ hrefs ∧ resolveUrl resolve href baseUrl = Some l)
  ∧ (url_parse baseUrl = None → links = []).
Proof.
  intros links. subst links. unfold extractLinks.
  destruct (visitAll_keeps baseUrl hrefs ([], ∅)) as (Hn & _ & Hfrom);
    [constructor | intros l Hl; inversion Hl |].
  split; [exact Hn |]. split.
  - intros l Hl. destruct (Hfrom l Hl) as [Hin | (Hskip & Hh)]; [inversion Hin |].
    split; [exact Hskip |]. split; [| exact Hh].
    unfold UrlUtil.shouldSkipUrl in Hskip.
    destruct (url_parse l); [eauto | discriminate Hskip].
  - intros Hbase.
    destruct (fold_left (visit resolve baseUrl) hrefs ([], ∅)).1 as [|l ls] eqn:Hl;
      [reflexivity |].
    destruct (Hfrom l) as [Hin | (_ & h & _ & Hr)]; [left | inversion Hin |].
    unfold resolveUrl in Hr. rewrite Hbase in Hr.
    destruct (Str.startsWith h "#"); [discriminate |].
    destruct (_ || _); discriminate.
Qed.

Lemma resolveUrl_origin (href base1 base2 : string) (u1 u2 : URL) :
  url_parse base1 = Some u1 → url_parse base2 = Some u2 →
  origin u1 = origin u2 →
  resolveUrl resolve href base1 = resolveUrl resolve href base2.
Proof.
  intros H1 H2 Ho. unfold resolveUrl. rewrite H1, H2, Ho. reflexivity.
Qed.

(** X27: the links [extractLinks] returns depend on the base URL only
    through its origin: every link is resolved against the origin, so two
    base URLs of the same origin give the same links for the same [href]
    attributes, whatever their paths. *)
Theorem extractLinks_origin (hrefs : list string) (base1 base2 : string)
    (u1 u2 : URL) :
  url_parse base1 = Some u1 → url_parse base2 = Some u2 →
  origin u1 = origin u2 →
  extractLinks resolve hrefs base1 = extractLinks resolve hrefs base2.
Proof.
  intros H1 H2 Ho. unfold extractLinks. f_equal.
  generalize (([], ∅) : list string * gset string) as acc.
  induction hrefs as [|href hrefs IH]; intros acc; cbn [fold_left];
    [reflexivity |].
  assert (visit resolve base1 acc href = visit resolve base2 acc href) as ->.
  { unfold visit. rewrite (resolveUrl_origin href base1 base2 u1 u2 H1 H2 Ho).
    reflexivity. }
  apply IH.
Qed.

End LinksFacts.

(** ** Display helpers *)

Section UiFacts.
Import Ui.
Context {P : Platform}.

Lemma length_Str_take (n : nat) (s : string) :
  String.length (Str.take n s) = Nat.min n (String.length s).
Proof.
  revert s. induction n as [|n IH]; intros [|c s]; cbn; try reflexivity.
  rewrite IH. reflexivity.
Qed.

Lemma length_Str_drop (n : nat) (s : string) :
  String.length (Str.drop n s) = String.length s - n.
Proof.
  revert s. induction n as [|n IH]; intros [|c s]; cbn; try reflexivity; try lia.
  apply IH.
Qed.

Lemma length_slice (s : string) (start end_ : Z) :
  Z.of_nat (String.length (slice s start end_))
  = Z.max 0 (clampIndex (Z.of_nat (String.length s)) end_
             - clampIndex (Z.of_nat (String.length s)) start).
Proof.
  unfold slice. rewrite length_Str_take, length_Str_drop.
  set (len := Z.of_nat (String.length s)).
  assert (0 ≤ clampIndex len start ≤ len)%Z as Hs
    by (unfold clampIndex; destruct (start <? 0)%Z eqn:E; lia).
  assert (0 ≤ clampIndex len end_ ≤ len)%Z as He
    by (unfold clampIndex; destruct (end_ <? 0)%Z eqn:E; lia).
  subst len. lia.
Qed.

(** X28: for a limit of at least 3, [truncateUrl] returns a string of at
    most that many characters. *)
Theorem truncateUrl_fits (url : string) (maxLen : Z) :
  (3 ≤ maxLen)%Z →
  (Z.of_nat (String.length (truncateUrl url maxLen)) ≤ maxLen)%Z.
Proof.
  intros Hmax. unfold truncateUrl.
  destruct (Z.of_nat (String.length url) <=? maxLen)%Z eqn:Hfit;
    [apply Z.leb_le, Hfit |].
  assert (Z.of_nat (String.length (slice url 0 (maxLen - 3) +:+ "..."))
          ≤ maxLen)%Z as Hcut.
  { rewrite length_append, Nat2Z.inj_add, length_slice. unfold clampIndex.
    destruct (0 <? 0)%Z eqn:E0; [lia |].
    destruct (maxLen - 3 <? 0)%Z eqn:E1; [lia |]. cbn [String.length]. lia. }
  destruct (url_parse url) as [parsed|]; [| exact Hcut].
  destruct (10 <? maxLen - Z.of_nat (String.length (hostname parsed)) - 5)%Z
    eqn:Hroom; [| exact Hcut].
  apply Z.ltb_lt in Hroom.
  rewrite !length_append, !Nat2Z.inj_add. unfold sliceFrom.
  rewrite length_slice. unfold clampIndex.
  destruct (- (maxLen - Z.of_nat (String.length (hostname parsed)) - 5) <? 0)%Z
    eqn:E1; [| lia].
  destruct (Z.of_nat (String.length (pathname parsed)) <? 0)%Z eqn:E2; [lia |].
  cbn [String.length]. lia.
Qed.

End UiFacts.

(** ** Content similarity *)

Section SimilarityFacts.
Import Similarity.

Lemma shared_comm (X Y : gset string) :
  size (filter (λ w, w ∈ Y) X) = size (filter (λ w, w ∈ X) Y).
Proof.
  f_equal. apply set_eq. intros w. rewrite !elem_of_filter. tauto.
Qed.

Lemma shared_le (X Y : gset string) :
  size (filter (λ w, w ∈ Y) X) ≤ size X.
Proof. apply subseteq_size. intros w Hw. apply elem_of_filter in Hw as [_ Hw]. exact Hw. Qed.

(** X29: [calculateSimilarity] is symmetric and its value lies between 0
    and 1. *)
Theorem calculateSimilarity_range (fp1 fp2 : string) :
  calculateSimilarity fp1 fp2 = calculateSimilarity fp2 fp1
  ∧ (0 <= calculateSimilarity fp1 fp2)%Q
  ∧ (calculateSimilarity fp1 fp2 <= 1)%Q.
Proof.
  split.
  - unfold calculateSimilarity.
    destruct (decide (fp1 = fp2)) as [-> | Hne]; [reflexivity |].
    rewrite (bool_decide_eq_false_2 _ Hne).
    rewrite (bool_decide_eq_false_2 (fp2 = fp1)) by congruence.
    rewrite (orb_comm (bool_decide (fp1 = EmptyString))).
    destruct (_ || _); [reflexivity |].
    rewrite (orb_comm (size _ =? 0)).
    destruct (_ || _); [reflexivity |].
    rewrite (shared_comm (list_to_set (longWords fp1))).
    rewrite (Nat.add_comm (size (list_to_set (longWords fp1) : gset string))).
    reflexivity.
  - unfold calculateSimilarity.
    destruct (bool_decide (fp1 = fp2)); [split; discriminate |].
    destruct (_ || _); [split; discriminate |].
    set (X := list_to_set (longWords fp1) : gset string).
    set (Y := list_to_set (longWords fp2) : gset string).
    destruct ((size X =? 0) || (size Y =? 0)) eqn:Hz; [split; discriminate |].
    apply orb_false_iff in Hz as [Hx Hy]. apply Nat.eqb_neq in Hx, Hy.
    pose proof (shared_le X Y) as Hle.
    pose proof (shared_le Y X) as Hle'. rewrite <- (shared_comm X Y) in Hle'.
    set (i := size (filter (λ word, word ∈ Y) X)) in *.
    assert (0 < inject_Z (Z.of_nat (size X + size Y - i)))%Q as Hpos.
    { change 0%Q with (inject_Z 0). rewrite <- Zlt_Qlt. lia. }
    split.
    + apply Qle_shift_div_l; [exact Hpos |]. rewrite Qmult_0_l.
      change 0%Q with (inject_Z 0). rewrite <- Zle_Qle. lia.
    + apply Qle_shift_div_r; [exact Hpos |]. rewrite Qmult_1_l.
      rewrite <- Zle_Qle. lia.
Qed.

End SimilarityFacts.

(** ** The further properties on concrete inputs *)

Section MoreRuns.
Import Demo Samples SimplePlatform.

(** The demo crawl, continued: the German page is fetched and yielded. *)
Lemma second_reachable :
  Crawler.reachable (P := simple) crawlOptions [home] afterSecondYield.
Proof.
  unfold Crawler.reachable. eapply rtc_trans; [exact demo_reachable |].
  eapply rtc_l.
  { apply (Crawler.step_task (P := simple) _ [] de_url 1 []
             (Returns deFetched) (Returns deExtracted)).
    vm_compute. reflexivity. }
  eapply rtc_l.
  { apply (Crawler.step_yield (P := simple) _ deResult []);
      [left |]; vm_compute; reflexivity. }
  apply rtc_refl.
Defined.

(** The crawl of one specific page. *)
Lemma page_reachable :
  Crawler.reachable (P := simple) pageOptions [plain_url] afterPageYield.
Proof.
  unfold Crawler.reachable. eapply rtc_l.
  { apply (Crawler.step_task (P := simple) _ [] plain_url 0 []
             (Returns pageFetched) (Returns pageExtracted)).
    vm_compute. reflexivity. }
  eapply rtc_l; [apply Crawler.step_drain; vm_compute; reflexivity |].
  eapply rtc_l.
  { apply (Crawler.step_yield (P := simple) _ pageResult []);
      [left |]; vm_compute; reflexivity. }
  apply rtc_refl.
Defined.

(** X4 on the demo engines: the plain fetch, then the browser, whose answer
    is returned. *)
Lemma waterfall_order_witness :
  ∃ r st' w',
    Waterfall.fetch (P := simple) rt home (engineOptions None)
      Waterfall.initial tt = (r, st', w')
    ∧ Waterfall.invoked st' = [Waterfall.Fetch; Waterfall.Playwright]
    ∧ ∃ called,
        Waterfall.invoked st' = Waterfall.invoked Waterfall.initial ++ called
        ∧ called `sublist_of`
            [Waterfall.Fetch; Waterfall.Playwright; Waterfall.Rebrowser]
        ∧ (Detector.needsBrowser (P := simple) home = true →
           Waterfall.Fetch ∉ called)
        ∧ ∀ res, r = Returns res → last called = Some (Waterfall.engine res).
Proof.
  eexists _, _, _. split; [vm_compute; reflexivity |].
  split; [reflexivity |].
  eapply (waterfall_order (P := simple) rt home (engineOptions None)
            Waterfall.initial tt); [reflexivity | vm_compute; reflexivity].
Defined.

(** X5 on the demo engines: the browser answered, its counter is 1. *)
Lemma waterfall_stats_witness :
  ∃ res st' w',
    Waterfall.fetch (P := simple) rt home (engineOptions None)
      Waterfall.initial tt = (Returns res, st', w')
    ∧ Waterfall.stats st'
      = Waterfall.bump (Waterfall.engine res) (Waterfall.stats Waterfall.initial)
    ∧ Waterfall.playwrightCount (Waterfall.stats st') = 1.
Proof.
  eexists _, _, _. split; [vm_compute; reflexivity |].
  split; [| reflexivity].
  exact (proj1 (waterfall_stats (P := simple) rt home (engineOptions None)
                  Waterfall.initial tt _ _ _ eq_refl eq_refl)).
Defined.

(** X6 on engines that all get the page: the plain fetch answers, alone. *)
Lemma waterfall_cheap_first_witness :
  ∃ res st',
    Waterfall.fetch (P := simple) calm home (engineOptions None)
      Waterfall.initial tt = (Returns res, st', tt)
    ∧ Waterfall.engine res = Waterfall.Fetch
    ∧ Waterfall.blocked res = false
    ∧ Waterfall.html res = Waterfall.raw_html (welcome home)
    ∧ Waterfall.statusCode res = Waterfall.raw_statusCode (welcome home)
    ∧ Waterfall.finalUrl res = Waterfall.raw_finalUrl (welcome home)
    ∧ Waterfall.invoked st'
      = Waterfall.invoked Waterfall.initial ++ [Waterfall.Fetch]
    ∧ Waterfall.browserInstallPromise st'
      = Waterfall.browserInstallPromise Waterfall.initial.
Proof.
  apply (waterfall_cheap_first (P := simple) calm home (engineOptions None)
           Waterfall.initial tt (welcome home) tt);
    vm_compute; reflexivity.
Defined.

(** X7: Disallow: /docs covers /docs/guide; the dot of /a.b is no wildcard. *)
Lemma pathMatches_literal_witness :
  Robots.pathMatches "/docs/guide" "/docs" = Str.startsWith "/docs/guide" "/docs"
  ∧ Robots.pathMatches "/axb" "/a.b" = Str.startsWith "/axb" "/a.b".
Proof.
  split; apply pathMatches_literal; try (vm_compute; reflexivity); discriminate.
Defined.

(** X8: /index.php$ matches /index.php only. *)
Lemma pathMatches_anchored_witness :
  Robots.pathMatches "/index.php?page=2" ("/index.php" +:+ "$")
  = bool_decide ("/index.php?page=2" = "/index.php").
Proof. apply pathMatches_anchored. vm_compute. reflexivity. Defined.

(** X9: what matches /a*c matches below it. *)
Lemma pathMatches_extends_witness :
  Robots.pathMatches ("/abc" +:+ "/d?e=1") "/a*c" = true.
Proof. apply pathMatches_extends; vm_compute; reflexivity. Defined.

(** X11 on example.com: once the host has a record, robots.txt is not
    read again. *)
Lemma robots_parse_once_witness :
  ∃ u, url_parse (Platform := simple) home = Some u
    ∧ is_Some (Robots.rules (parsed robots_a) !! hostname u)
    ∧ (is_Some (Robots.rules Robots.empty !! hostname u) →
       parsed robots_a = Robots.empty)
    ∧ (∀ h, h ≠ hostname u →
         Robots.rules (parsed robots_a) !! h = Robots.rules Robots.empty !! h
         ∧ Robots.sitemaps (parsed robots_a) !! h
           = Robots.sitemaps Robots.empty !! h)
    ∧ (∀ url2 u2 resp2,
         url_parse (Platform := simple) url2 = Some u2 →
         hostname u2 = hostname u →
         Robots.parse (P := simple) (parsed robots_a) url2 resp2
         = Returns (parsed robots_a)).
Proof.
  apply (robots_parse_once (P := simple) Robots.empty home
           (Response true (Returns robots_a)) (parsed robots_a)).
  vm_compute. reflexivity.
Defined.

(** X12 on the demo network: the first location gives 200 URLs. *)
Lemma sitemap_parse_cap_witness :
  length (fst (fst (Sitemap.parse (P := simple) http select_text noCache home net0)))
  ≤ 200.
Proof.
  refine (proj1 (sitemap_parse_cap (P := simple) http select_text noCache home net0 _)).
  intros host cached Hc. vm_compute in Hc. discriminate Hc.
Defined.

(** X13 on the demo network: the second call answers from the cache. *)
Lemma sitemap_parse_cached_witness :
  Sitemap.parse (P := simple) http select_text
    (snd (fst (Sitemap.parse (P := simple) http select_text noCache home net0)))
    "https://example.com/docs" net0
  = (fst (fst (Sitemap.parse (P := simple) http select_text noCache home net0)),
     snd (fst (Sitemap.parse (P := simple) http select_text noCache home net0)),
     net0).
Proof.
  apply (sitemap_parse_cached (P := simple) http select_text noCache home net0
           homeUrl eq_refl "https://example.com/docs"
           {| origin := "https://example.com"; hostname := "example.com";
              pathname := "/docs"; search := ""; searchParams := [] |});
    reflexivity.
Defined.

(** X15 on a network that is down. *)
Lemma sitemap_parse_offline_witness :
  ∃ n',
    Sitemap.parse (P := simple) offline select_text noCache home net0
    = ([], {| Sitemap.cache := <[hostname homeUrl := []]> (Sitemap.cache noCache) |},
       n')
    ∧ Sitemap.requested n'
      = Sitemap.requested net0
        ++ [ origin homeUrl +:+ "/sitemap.xml";
             origin homeUrl +:+ "/sitemap_index.xml";
             origin homeUrl +:+ "/sitemap/sitemap.xml" ].
Proof.
  apply (sitemap_parse_offline (P := simple) offline select_text noCache home
           net0 homeUrl); [| reflexivity | reflexivity].
  intros x w c body. discriminate.
Defined.

(** X17 on example.com: the German page, met after the English one, is
    skipped and counted. *)
Lemma shouldSkip_counters_witness :
  ∃ v t',
    Dedup.shouldSkip (P := simple) (seen tracker0 en_url) de_url = Returns (v, t')
    ∧ Dedup.skip v = true
    ∧ Dedup.localeSkipped (Dedup.stats t')
      = Dedup.localeSkipped (Dedup.stats (seen tracker0 en_url))
        + (if Dedup.skip v then 1 else 0)
    ∧ Dedup.localeSkipped (Dedup.stats t') = 1.
Proof.
  eexists _, _. split; [vm_compute; reflexivity |]. split; [reflexivity |].
  split; [| reflexivity].
  exact (proj1 (shouldSkip_counters (P := simple) (seen tracker0 en_url) de_url
                  _ _ eq_refl)).
Defined.

(** X18 on the demo crawl: the German page is on the base domain of the
    start URL. *)
Lemma crawl_confined_witness :
  ∃ s, s ∈ [home]
    ∧ UrlUtil.getBaseDomain (P := simple) (CrawlResult.url deResult)
      = UrlUtil.getBaseDomain (P := simple) (UrlUtil.normalizeUrl (P := simple) s).
Proof.
  apply (proj1 (crawl_confined (P := simple) crawlOptions [home] afterSecondYield
                  second_reachable) deResult).
  vm_compute. right. left.
Defined.

(** A redirect leaves the start domain: the page requested under the start
    URL is yielded with a final URL of another site. *)
Example redirect_leaves_domain :
  Crawler.reachable (P := simple) crawlOptions [home] afterMovedYield
  ∧ movedResult ∈ Crawler.yielded afterMovedYield
  ∧ UrlUtil.getBaseDomain (P := simple) (CrawlResult.url movedResult)
    = "example.com"
  ∧ UrlUtil.getBaseDomain (P := simple) (CrawlResult.finalUrl movedResult)
    = "other.org".
Proof.
  split; [| split; [vm_compute; left | split; vm_compute; reflexivity]].
  unfold Crawler.reachable. eapply rtc_l.
  { apply (Crawler.step_task (P := simple) _ [] home 0 []
             (Returns movedFetched) (Returns homeExtracted)).
    vm_compute. reflexivity. }
  eapply rtc_l; [apply Crawler.step_drain; vm_compute; reflexivity |].
  eapply rtc_l.
  { apply (Crawler.step_yield (P := simple) _ movedResult []);
      [left |]; vm_compute; reflexivity. }
  apply rtc_refl.
Qed.

(** X19 on the demo crawl: the two pages yielded differ. *)
Lemma crawl_no_duplicates_witness :
  NoDup ((λ r, UrlUtil.normalizeUrl (P := simple) (CrawlResult.url r))
           <$> (Crawler.yielded afterSecondYield
                ++ Crawler.results afterSecondYield)).
Proof.
  exact (proj1 (crawl_no_duplicates (P := simple) crawlOptions [home]
                  afterSecondYield second_reachable)).
Defined.

(** X20 on the demo crawl. *)
Lemma crawl_substantial_witness :
  20 ≤ ExtractResult.wordCount (CrawlResult.extracted deResult).
Proof.
  apply (crawl_substantial (P := simple) crawlOptions [home] afterSecondYield
           second_reachable deResult).
  vm_compute. right. left.
Defined.

(** X21 on the demo crawl: the result of depth 0 is the start URL. *)
Lemma crawl_seeds_witness :
  CrawlResult.url homeResult ∈ map (UrlUtil.normalizeUrl (P := simple)) [home].
Proof.
  apply (proj1 (crawl_seeds (P := simple) crawlOptions [home] afterSecondYield
                  second_reachable) homeResult); [vm_compute; left | reflexivity].
Defined.

(** X22 on the demo crawl: the German page, yielded at depth 1, passed the
    checks. *)
Lemma crawl_filters_witness :
  UrlUtil.shouldSkipUrl (P := simple) (CrawlResult.url deResult) = false
  ∧ Crawler.testPattern (CrawlOptions.includePattern crawlOptions) true
      (CrawlResult.url deResult) = true
  ∧ Crawler.testPattern (CrawlOptions.excludePattern crawlOptions) false
      (CrawlResult.url deResult) = false.
Proof.
  apply (crawl_filters (P := simple) crawlOptions [home] afterSecondYield
           second_reachable deResult); [vm_compute; right; left | discriminate].
Defined.

(** X23 on the demo crawl: the second yield extends the first. *)
Lemma crawl_fifo_witness :
  Crawler.yielded afterYield `prefix_of` Crawler.yielded afterSecondYield.
Proof.
  refine (proj1 (crawl_fifo (P := simple) afterYield afterSecondYield _)).
  eapply rtc_l.
  { apply (Crawler.step_task (P := simple) _ [] de_url 1 []
             (Returns deFetched) (Returns deExtracted)).
    vm_compute. reflexivity. }
  eapply rtc_l.
  { apply (Crawler.step_yield (P := simple) _ deResult []);
      [left |]; vm_compute; reflexivity. }
  apply rtc_refl.
Defined.

(** X25 on one specific page: its links are not followed. *)
Lemma clippy_single_page_witness :
  Clippy.singlePageMode (P := simple) noOptions [plain_url] = true
  ∧ length (Crawler.yielded afterPageYield) ≤ length [plain_url]
  ∧ Crawler.queue afterPageYield = [].
Proof.
  split; [vm_compute; reflexivity |]. split; [| vm_compute; reflexivity].
  exact (proj1 (clippy_single_page (P := simple) noOptions [plain_url]
                  afterPageYield eq_refl page_reachable)).
Defined.

(** X27: the links of a page below /docs are resolved as those of the
    home page. *)
Lemma extractLinks_origin_witness :
  Links.extractLinks (P := simple) under ["install"; "#top"; "install"] plain_url
  = Links.extractLinks (P := simple) under ["install"; "#top"; "install"] home
  ∧ Links.extractLinks (P := simple) under ["install"; "#top"; "install"] plain_url
    = ["https://example.com/install"].
Proof.
  split; [| vm_compute; reflexivity].
  eapply (extractLinks_origin (P := simple) under _ plain_url home);
    vm_compute; reflexivity.
Defined.

(** X28 on a long URL and a limit of 40. *)
Lemma truncateUrl_fits_witness :
  (Z.of_nat (String.length (Ui.truncateUrl (P := simple) long_url 40)) ≤ 40)%Z
  ∧ Ui.truncateUrl (P := simple) long_url 40
    = "example.com/...llation/linux/index.html".
Proof.
  split; [| vm_compute; reflexivity].
  apply (truncateUrl_fits (P := simple) long_url 40). lia.
Defined.

End MoreRuns.
